(** * Reddit-Scrapper-API: the API-access layer and the endpoints

    A shallow embedding of
      - src/unnamed/part_000 (formatApiComments, getPostComments and
        handleAxiosError),
      - src/src/controllers/subredditController.js (cleanDescriptionText,
        validateSubreddit, getSubredditPosts, getSubredditAbout and
        handleAxiosError),
      - src/src/services/redditService.js (getAppOnlyToken, isTokenValid,
        the request interceptor and the axios-retry configuration),
      - src/app.js (the handler of unmatched routes and the general error
        handler),
    with the properties of the specification that concern them and
    further properties of the code. *)

From Stdlib Require Import String Ascii DecimalString.
From Stdlib Require DecimalNat.
From Stdlib Require Import List ZArith NArith Lia Bool.
Import ListNotations.

Set Warnings "-register-all".

(* ================================================================== *)
(** * JavaScript values *)
(* ================================================================== *)

Module Js.

(** A JavaScript string is a sequence of UTF-16 code units. *)
Definition char := N.
Definition jsstring := list char.

(** A string literal of the source (ASCII only). *)
Definition lit (s : string) : jsstring :=
  map N_of_ascii (list_ascii_of_string s).

Definition ch (a : ascii) : char := N_of_ascii a.

Fixpoint str_eqb (a b : jsstring) : bool :=
  match a, b with
  | [], [] => true
  | x :: a', y :: b' => N.eqb x y && str_eqb a' b'
  | _, _ => false
  end.

(** What a call can throw.  [RangeError] is the engine's "maximum call
    stack size exceeded". *)
Inductive error := TypeError | RangeError.

Inductive res (A : Type) :=
| Ok (a : A)
| Throw (e : error).
Arguments Ok {A} a.
Arguments Throw {A} e.

Definition bind {A B} (m : res A) (k : A -> res B) : res B :=
  match m with
  | Ok a => k a
  | Throw e => Throw e
  end.

(** [Array.prototype.map] with a callback that may throw: the first
    exception aborts the traversal. *)
Fixpoint map_res {A B} (f : A -> res B) (l : list A) : res (list B) :=
  match l with
  | [] => Ok []
  | x :: l' =>
      match f x with
      | Ok y =>
          match map_res f l' with
          | Ok ys => Ok (y :: ys)
          | Throw e => Throw e
          end
      | Throw e => Throw e
      end
  end.

(** A decoded JSON payload.  The properties of an object are kept in
    their enumeration order (the order of [Object.keys]).  Numbers are
    integers: the code below only copies and prints them. *)
Inductive json :=
| JUndefined
| JNull
| JBool (b : bool)
| JNum (n : Z)
| JStr (s : jsstring)
| JArr (xs : list json)
| JObj (props : list (jsstring * json)).

(** ToBoolean. *)
Definition truthy (v : json) : bool :=
  match v with
  | JUndefined | JNull => false
  | JBool b => b
  | JNum n => negb (Z.eqb n 0)
  | JStr s => match s with [] => false | _ => true end
  | JArr _ | JObj _ => true
  end.

Definition is_null (v : json) : bool :=
  match v with JNull => true | _ => false end.

Definition is_nullish (v : json) : bool :=
  match v with JUndefined | JNull => true | _ => false end.

Fixpoint lookup (props : list (jsstring * json)) (k : jsstring) : json :=
  match props with
  | [] => JUndefined
  | (k', v) :: rest => if str_eqb k' k then v else lookup rest k
  end.

(** Decimal numerals, for array indices used as property keys and for
    printing numbers. *)
Definition digits_of_nat (n : nat) : jsstring :=
  lit (NilEmpty.string_of_uint (Nat.to_uint n)).

Definition digits_of_Z (n : Z) : jsstring :=
  lit (NilEmpty.string_of_int (Z.to_int n)).

Definition is_digit (c : char) : bool := (N.leb 48 c && N.leb c 57)%N.

Fixpoint nat_of_digits (acc : nat) (s : jsstring) : nat :=
  match s with
  | [] => acc
  | c :: s' => nat_of_digits (10 * acc + N.to_nat (c - 48)) s'
  end.

(** The array index a property key denotes, if it is a canonical
    numeric string. *)
Definition index_of_key (k : jsstring) : option nat :=
  match k with
  | [] => None
  | c :: rest =>
      if forallb is_digit k && (negb (N.eqb c 48) || match rest with [] => true | _ => false end)
      then Some (nat_of_digits 0 k)
      else None
  end.

Definition k_length : jsstring := lit "length".

(** [v[k]] for a value that is neither null nor undefined.  Only own
    data properties are modelled (plus [length] and the indices of
    arrays and strings); the sources never read an inherited property
    through these accesses. *)
Definition own (v : json) (k : jsstring) : json :=
  match v with
  | JObj props => lookup props k
  | JArr xs =>
      if str_eqb k k_length then JNum (Z.of_nat (length xs))
      else match index_of_key k with
           | Some i => nth i xs JUndefined
           | None => JUndefined
           end
  | JStr s =>
      if str_eqb k k_length then JNum (Z.of_nat (length s))
      else match index_of_key k with
           | Some i => match nth_error s i with
                       | Some c => JStr [c]
                       | None => JUndefined
                       end
           | None => JUndefined
           end
  | _ => JUndefined
  end.

(** [v.k]: a TypeError on null and undefined. *)
Definition get (v : json) (k : jsstring) : res json :=
  if is_nullish v then Throw TypeError else Ok (own v k).

(** [v?.k]. *)
Definition opt_get (v : json) (k : jsstring) : json :=
  if is_nullish v then JUndefined else own v k.

(** [a || b]. *)
Definition or_else (a b : json) : json := if truthy a then a else b.

(** [v === 'literal']. *)
Definition is_str (v : json) (s : jsstring) : bool :=
  match v with
  | JStr s' => str_eqb s' s
  | _ => false
  end.

Fixpoint join (sep : jsstring) (parts : list jsstring) : jsstring :=
  match parts with
  | [] => []
  | [p] => p
  | p :: rest => p ++ sep ++ join sep rest
  end.

(** The text ToString gives for a value it converts: the value itself
    for a string, the decimal numeral for a number, the joined texts of
    the elements for an array, and the text [Object.prototype.toString]
    returns for a plain object.  Two cases are outside of this text and
    are singled out below: an object with an own [toString] property,
    on which ToString throws ([unconvertible]), and a number from 2^53
    in magnitude, which JavaScript prints rounded to the digits that
    tell doubles apart and, from 1e21, in exponent form
    ([printable]). *)
Fixpoint to_string (v : json) : jsstring :=
  match v with
  | JUndefined => lit "undefined"
  | JNull => lit "null"
  | JBool true => lit "true"
  | JBool false => lit "false"
  | JNum n => digits_of_Z n
  | JStr s => s
  | JArr xs =>
      join (lit ",")
           (map (fun x => if is_nullish x then [] else to_string x) xs)
  | JObj _ => lit "[object Object]"
  end.

(** [props] has an own property [k]. *)
Definition has_key (props : list (jsstring * json)) (k : jsstring) : bool :=
  existsb (fun p => str_eqb (fst p) k) props.

Definition k_toString : jsstring := lit "toString".

(** The values ToString throws a TypeError on.  A payload is parsed
    data, so an own [toString] property of an object is data as well,
    never a function: OrdinaryToPrimitive skips it, [valueOf] (own, or
    the inherited one, which returns the object) gives no primitive,
    and the conversion throws.  [Array.prototype.join] converts the
    elements of an array, [null] and [undefined] apart, so an array
    throws when one of its elements does. *)
Fixpoint unconvertible (v : json) : bool :=
  match v with
  | JObj props => has_key props k_toString
  | JArr xs => existsb unconvertible xs
  | _ => false
  end.

(** ToString, as a template literal, [new Error], [parseInt] and
    [RegExp.prototype.test] apply it to their argument. *)
Definition ToString (v : json) : res jsstring :=
  if unconvertible v then Throw TypeError else Ok (to_string v).

(** [printable v]: ToString converts [v], and to the text [to_string]
    gives: no object in [v] has an own [toString] property, and the
    numbers in it are below 2^53 in magnitude. *)
Fixpoint printable (v : json) : bool :=
  match v with
  | JNum n => (Z.abs n <? 2 ^ 53)%Z
  | JObj props => negb (has_key props k_toString)
  | JArr xs => forallb printable xs
  | _ => true
  end.

(** [Object.keys(v)]. *)
Definition keys (v : json) : res (list jsstring) :=
  match v with
  | JUndefined | JNull => Throw TypeError
  | JObj props => Ok (map fst props)
  | JArr xs => Ok (map digits_of_nat (seq 0 (length xs)))
  | JStr s => Ok (map digits_of_nat (seq 0 (length s)))
  | _ => Ok []
  end.

(** The elements of an array, none for any other value. *)
Definition elements (v : json) : list json :=
  match v with JArr xs => xs | _ => [] end.

(** Nesting depth of a payload. *)
Fixpoint depth (v : json) : nat :=
  match v with
  | JArr xs => S (fold_right (fun x d => Nat.max (depth x) d) 0 xs)
  | JObj props => S (fold_right (fun p d => Nat.max (depth (snd p)) d) 0 props)
  | _ => 0
  end.

End Js.

Import Js.

Declare Scope js_scope.
Notation "x <- m ;; k" := (bind m (fun x => k))
  (at level 61, m at next level, right associativity) : js_scope.
Notation "' s" := (lit s) (at level 1, s at level 0, format "' s") : js_scope.
Open Scope js_scope.

(* ================================================================== *)
(** * Comment-tree normalisation (src/unnamed/part_000) *)
(* ================================================================== *)

Module Comments.

(** The callback of [commentArray.map], lines 21-56; [recur] is the
    recursive call of line 51. *)
Definition formatWrapper (recur : json -> res json) (commentWrapper : json)
  : res json :=
  kind <- get commentWrapper '"kind" ;;
  comment <- get commentWrapper '"data" ;;
  if is_str kind '"more" then
    id <- get comment '"id" ;;
    count <- get comment '"count" ;;
    parent_id <- get comment '"parent_id" ;;
    children <- get comment '"children" ;;
    Ok (JObj [('"type", JStr '"more");
              ('"id", id);
              ('"count", count);
              ('"parent_id", parent_id);
              ('"children_ids", or_else children (JArr []))])
  else if is_str kind '"t1" then
    replies <- get comment '"replies" ;;
    let repliesData :=
      or_else (opt_get (opt_get replies '"data") '"children") (JArr []) in
    id <- get comment '"id" ;;
    author <- get comment '"author" ;;
    body <- get comment '"body" ;;
    body_html <- get comment '"body_html" ;;
    score <- get comment '"score" ;;
    created_utc <- get comment '"created_utc" ;;
    stickied <- get comment '"stickied" ;;
    is_submitter <- get comment '"is_submitter" ;;
    permalink <- get comment '"permalink" ;;
    link <- ToString permalink ;;
    parent_id <- get comment '"parent_id" ;;
    formatted <- recur repliesData ;;
    Ok (JObj [('"type", JStr '"comment");
              ('"id", id);
              ('"author", or_else author (JStr '"[deleted]"));
              ('"body", body);
              ('"body_html", body_html);
              ('"score", score);
              ('"created_utc", created_utc);
              ('"stickied", stickied);
              ('"is_submitter", is_submitter);
              ('"permalink", JStr ('"https://www.reddit.com" ++ link));
              ('"parent_id", parent_id);
              ('"replies", formatted)])
  else Ok JNull.

(** [formatApiComments], lines 18-57.  [fuel] is the depth of call stack
    left. *)
Fixpoint formatApiComments (fuel : nat) (commentArray : json) : res json :=
  match fuel with
  | O => Throw RangeError
  | S fuel' =>
      match commentArray with
      | JArr wrappers =>
          mapped <- map_res (formatWrapper (formatApiComments fuel')) wrappers ;;
          Ok (JArr (filter (fun c => negb (is_null c)) mapped))
      | _ => Ok (JArr [])
      end
  end.

(** ** The comment tree of the specification *)

(** The field [k] of the data a wrapper carries. *)
Definition field (w : json) (k : jsstring) : json := own (own w '"data") k.

Definition tagged (w : json) (tag : jsstring) : Prop :=
  own w '"kind" = JStr tag.

(** The reply wrappers nested under a comment wrapper:
    [w.data.replies.data.children], none when that is no array. *)
Definition reply_wrappers (w : json) : list json :=
  elements (own (own (field w '"replies") '"data") '"children").

(** A raw comment wrapper: a value with a [kind] that carries [data]
    when it is tagged as a comment or as a placeholder; the permalink
    of a comment is a value the template literal of line 49 prints
    (upstream it is a string), and its replies are wrappers again. *)
Inductive wrapper_ok : json -> Prop :=
| ok_more w :
    tagged w '"more" ->
    is_nullish (own w '"data") = false ->
    wrapper_ok w
| ok_comment w :
    tagged w '"t1" ->
    is_nullish (own w '"data") = false ->
    printable (field w '"permalink") = true ->
    Forall wrapper_ok (reply_wrappers w) ->
    wrapper_ok w
| ok_other w :
    is_nullish w = false ->
    ~ tagged w '"more" ->
    ~ tagged w '"t1" ->
    wrapper_ok w.

(** The "more" node of a placeholder wrapper. *)
Definition more_node (w : json) : json :=
  JObj [('"type", JStr '"more");
        ('"id", field w '"id");
        ('"count", field w '"count");
        ('"parent_id", field w '"parent_id");
        ('"children_ids",
          if truthy (field w '"children") then field w '"children"
          else JArr [])].

(** The comment node of a comment wrapper, given its normalised
    replies. *)
Definition comment_node (w : json) (replies : list json) : json :=
  JObj [('"type", JStr '"comment");
        ('"id", field w '"id");
        ('"author",
          if truthy (field w '"author") then field w '"author"
          else JStr '"[deleted]");
        ('"body", field w '"body");
        ('"body_html", field w '"body_html");
        ('"score", field w '"score");
        ('"created_utc", field w '"created_utc");
        ('"stickied", field w '"stickied");
        ('"is_submitter", field w '"is_submitter");
        ('"permalink",
          JStr ('"https://www.reddit.com" ++ to_string (field w '"permalink")));
        ('"parent_id", field w '"parent_id");
        ('"replies", JArr replies)].

(** [normalizes ws out]: [out] is the normalised form of the wrapper
    sequence [ws], in the words of the specification. *)
Inductive normalizes : list json -> list json -> Prop :=
| norm_nil : normalizes [] []
| norm_comment w ws replies out :
    tagged w '"t1" ->
    normalizes (reply_wrappers w) replies ->
    normalizes ws out ->
    normalizes (w :: ws) (comment_node w replies :: out)
| norm_more w ws out :
    tagged w '"more" ->
    normalizes ws out ->
    normalizes (w :: ws) (more_node w :: out)
| norm_drop w ws out :
    ~ tagged w '"more" ->
    ~ tagged w '"t1" ->
    normalizes ws out ->
    normalizes (w :: ws) out.

(** A comment listing as the upstream sends it: one comment with two
    replies, a wrapper of a kind the normaliser does not know, and a
    "more" placeholder. *)
Definition reply_wrapper (id : string) : json :=
  JObj [('"kind", JStr '"t1");
        ('"data", JObj [('"id", JStr (lit id));
                        ('"author", JNull);
                        ('"body", JStr '"ok");
                        ('"permalink", JStr '"/r/x/c/");
                        ('"replies", JStr [])])].

Definition example_thread : list json :=
  [ JObj [('"kind", JStr '"t1");
          ('"data", JObj [('"id", JStr '"c1");
                          ('"author", JStr '"bob");
                          ('"score", JNum 3);
                          ('"permalink", JStr '"/r/x/c1/");
                          ('"replies",
                            JObj [('"kind", JStr '"Listing");
                                  ('"data",
                                    JObj [('"children",
                                            JArr [reply_wrapper "r1"; reply_wrapper "r2"])])])])];
    JObj [('"kind", JStr '"t3"); ('"data", JNull)];
    JObj [('"kind", JStr '"more");
          ('"data", JObj [('"id", JStr '"m1");
                          ('"count", JNum 7);
                          ('"parent_id", JStr '"t3_x");
                          ('"children", JArr [JStr '"a"; JStr '"b"])])] ].

(** What the callback returns for a wrapper [w]. *)
Definition node_of (w : json) (n : json) : Prop :=
  (tagged w '"more" /\ n = more_node w) \/
  (tagged w '"t1" /\ exists replies, normalizes (reply_wrappers w) replies /\ n = comment_node w replies) \/
  (~ tagged w '"more" /\ ~ tagged w '"t1" /\ n = JNull).

End Comments.

(* ================================================================== *)
(** * Regular expressions, as [String.prototype.replace] runs them *)
(* ================================================================== *)

Module Regex.

(** The fragment of the pattern language the sources use: literals,
    character classes, greedy repetition of a class, sequence, ordered
    alternation, the line anchor of the [m] flag and one capture
    group. *)
Inductive regex :=
| Bol
| Chr (c : char)
| Cls (p : char -> bool)
| Star (p : char -> bool)
| Seq (r1 r2 : regex)
| Alt (r1 r2 : regex)
| Group (r : regex).

Definition Plus (p : char -> bool) : regex := Seq (Cls p) (Star p).

(** LineTerminator: LF, CR, LS, PS. *)
Definition is_line_terminator (c : char) : bool :=
  (N.eqb c 10 || N.eqb c 13 || N.eqb c 8232 || N.eqb c 8233)%N.

(** The class [\s], which is also what [trim] strips: WhiteSpace and
    LineTerminator. *)
Definition is_space (c : char) : bool :=
  ((N.leb 9 c && N.leb c 13) || N.eqb c 32 || N.eqb c 160 || N.eqb c 5760
   || (N.leb 8192 c && N.leb c 8202) || N.eqb c 8232 || N.eqb c 8233
   || N.eqb c 8239 || N.eqb c 8287 || N.eqb c 12288 || N.eqb c 65279)%N.

(** [^] under the [m] flag: at the start of the input or just after a
    line terminator.  [prev] is the code unit before the position. *)
Definition at_line_start (prev : option char) : bool :=
  match prev with
  | None => true
  | Some c => is_line_terminator c
  end.

(** The code unit before the position reached after reading [m]. *)
Fixpoint last_char (prev : option char) (m : jsstring) : option char :=
  match m with
  | [] => prev
  | c :: m' => last_char (Some c) m'
  end.

(** One way of matching: the text read, what group 1 captured, and the
    input left. *)
Definition outcome : Type := jsstring * option jsstring * jsstring.

(** The ways [p*] matches at the head of [s], longest first. *)
Fixpoint star (p : char -> bool) (s : jsstring) : list outcome :=
  match s with
  | c :: s' =>
      if p c
      then map (fun '(m, cap, rest) => (c :: m, cap, rest)) (star p s')
           ++ [([], None, s)]
      else [([], None, s)]
  | [] => [([], None, [])]
  end.

Definition later (c1 c2 : option jsstring) : option jsstring :=
  match c2 with Some _ => c2 | None => c1 end.

(** All the ways [r] matches at the head of [s], in the order in which
    a backtracking matcher tries them. *)
Fixpoint matches (r : regex) (prev : option char) (s : jsstring)
  : list outcome :=
  match r with
  | Bol => if at_line_start prev then [([], None, s)] else []
  | Chr c =>
      match s with
      | x :: s' => if N.eqb x c then [([x], None, s')] else []
      | [] => []
      end
  | Cls p =>
      match s with
      | x :: s' => if p x then [([x], None, s')] else []
      | [] => []
      end
  | Star p => star p s
  | Seq r1 r2 =>
      flat_map (fun '(m1, c1, s1) =>
                  map (fun '(m2, c2, s2) => (m1 ++ m2, later c1 c2, s2))
                      (matches r2 (last_char prev m1) s1))
               (matches r1 prev s)
  | Alt r1 r2 => matches r1 prev s ++ matches r2 prev s
  | Group r1 => map (fun '(m, _, rest) => (m, Some m, rest)) (matches r1 prev s)
  end.

(** The match the engine reports at a position: the first way. *)
Definition exec (r : regex) (prev : option char) (s : jsstring)
  : option (jsstring * option jsstring) :=
  match matches r prev s with
  | (m, cap, _) :: _ => Some (m, cap)
  | [] => None
  end.

(** [s.replace(/r/g, ...)] from a position on: [skip] code units of the
    last match are still to be passed over, [prev] is the code unit
    before the position and [repl] computes the replacement text from
    group 1.  After an empty match the engine copies one code unit and
    tries again behind it. *)
Fixpoint replace_from (r : regex) (repl : option jsstring -> jsstring)
  (skip : nat) (prev : option char) (s : jsstring) : jsstring :=
  match s with
  | [] =>
      match skip with
      | O => match exec r prev [] with
             | Some (_, cap) => repl cap
             | None => []
             end
      | S _ => []
      end
  | c :: s' =>
      match skip with
      | S k => replace_from r repl k (Some c) s'
      | O =>
          match exec r prev s with
          | Some (m, cap) =>
              match length m with
              | O => repl cap ++ c :: replace_from r repl 0 (Some c) s'
              | S k => repl cap ++ replace_from r repl k (Some c) s'
              end
          | None => c :: replace_from r repl 0 (Some c) s'
          end
      end
  end.

Definition replace_all (r : regex) (repl : option jsstring -> jsstring)
  (s : jsstring) : jsstring :=
  replace_from r repl 0 None s.

(** The replacement strings [''], ['$1'] and a fixed text. *)
Definition with_nothing (_ : option jsstring) : jsstring := [].
Definition with_group1 (cap : option jsstring) : jsstring :=
  match cap with Some t => t | None => [] end.
Definition with_text (t : jsstring) (_ : option jsstring) : jsstring := t.

(** The longest prefix of code units of class [p], and what follows it. *)
Fixpoint take_while (p : char -> bool) (s : jsstring) : jsstring :=
  match s with
  | c :: s' => if p c then c :: take_while p s' else []
  | [] => []
  end.

Fixpoint drop_while (p : char -> bool) (s : jsstring) : jsstring :=
  match s with
  | c :: s' => if p c then drop_while p s' else s
  | [] => []
  end.

(** Whether [r] can match the empty text. *)
Fixpoint nullable (r : regex) : bool :=
  match r with
  | Bol | Star _ => true
  | Chr _ | Cls _ => false
  | Seq r1 r2 => nullable r1 && nullable r2
  | Alt r1 r2 => nullable r1 || nullable r2
  | Group r1 => nullable r1
  end.

(** [subseq l1 l2]: [l1] is [l2] with some elements left out. *)
Inductive subseq {A : Type} : list A -> list A -> Prop :=
| sub_nil : subseq [] []
| sub_skip x l1 l2 : subseq l1 l2 -> subseq l1 (x :: l2)
| sub_keep x l1 l2 : subseq l1 l2 -> subseq (x :: l1) (x :: l2).

(** [thins q out inp]: the code units of class [q] that [out] holds are
    code units of [inp], in the same order. *)
Definition thins (q : char -> bool) (out inp : jsstring) : Prop :=
  subseq (filter q out) (filter q inp).

Fixpoint trim_start (s : jsstring) : jsstring :=
  match s with
  | c :: s' => if is_space c then trim_start s' else s
  | [] => []
  end.

(** [String.prototype.trim]. *)
Definition trim (s : jsstring) : jsstring :=
  rev (trim_start (rev (trim_start s))).

End Regex.

(* ================================================================== *)
(** * Description cleaning (src/src/controllers/subredditController.js) *)
(* ================================================================== *)

Module Clean.
Import Regex.

Definition is_chr (a : ascii) (c : char) : bool := N.eqb c (ch a).
Definition not_chr (a : ascii) (c : char) : bool := negb (N.eqb c (ch a)).

(** [/<[^>]*>/g], line 22. *)
Definition htmlTag : regex :=
  Seq (Chr (ch "<")) (Seq (Star (not_chr ">")) (Chr (ch ">"))).

(** [/\[([^\]]+)\]\([^)]+\)/g], line 25. *)
Definition markdownLink : regex :=
  Seq (Chr (ch "["))
 (Seq (Group (Plus (not_chr "]")))
 (Seq (Chr (ch "]"))
 (Seq (Chr (ch "("))
 (Seq (Plus (not_chr ")"))
      (Chr (ch ")")))))).

(** [/^#+\s*|---|\*\*|__|\*|_/gm], line 28: the anchor belongs to the
    first alternative only. *)
Definition markers : regex :=
  Alt (Seq Bol (Seq (Plus (is_chr "#")) (Star is_space)))
 (Alt (Seq (Chr (ch "-")) (Seq (Chr (ch "-")) (Chr (ch "-"))))
 (Alt (Seq (Chr (ch "*")) (Chr (ch "*")))
 (Alt (Seq (Chr (ch "_")) (Chr (ch "_")))
 (Alt (Chr (ch "*"))
      (Chr (ch "_")))))).

(** [/\s\s+/g], line 31. *)
Definition spaces : regex := Seq (Cls is_space) (Plus is_space).

(** The four rewriting steps of lines 19-31 on a string. *)
Definition clean (text : jsstring) : jsstring :=
  let cleanedText := text in
  let cleanedText := replace_all htmlTag with_nothing cleanedText in
  let cleanedText := replace_all markdownLink with_group1 cleanedText in
  let cleanedText := replace_all markers with_nothing cleanedText in
  let cleanedText := trim (replace_all spaces (with_text '" ") cleanedText) in
  cleanedText.

(** ** The cleaning as the specification words it *)




(** ** What a cleaned text no longer holds *)

Definition is_angle (c : char) : bool := is_chr "<" c || is_chr ">" c.

(** A [<] with a [>] somewhere behind it. *)
Fixpoint has_tag (s : jsstring) : bool :=
  match s with
  | [] => false
  | c :: s' => (is_chr "<" c && existsb (is_chr ">") s') || has_tag s'
  end.

Definition starts_ws (s : jsstring) : bool :=
  match s with
  | c :: _ => is_space c
  | [] => false
  end.

(** No two whitespace code units next to each other. *)
Fixpoint ws_pair_free (s : jsstring) : bool :=
  match s with
  | [] => true
  | c :: s' => negb (is_space c && starts_ws s') && ws_pair_free s'
  end.

Definition is_emphasis (c : char) : bool := is_chr "*" c || is_chr "_" c.

(** Text that no step of the cleaning touches. *)
Definition plain (c : char) : bool :=
  negb (is_space c) && not_chr "<" c && not_chr "[" c && not_chr "#" c
  && not_chr "-" c && not_chr "*" c && not_chr "_" c.

(** [cleanDescriptionText], lines 16-34.  A truthy value that is no
    string has no [replace] method. *)
Definition cleanDescriptionText (text : json) : res jsstring :=
  if negb (truthy text) then Ok []
  else match text with
       | JStr s => Ok (clean s)
       | _ => Throw TypeError
       end.

End Clean.

(* ================================================================== *)
(** * Post listing (src/src/controllers/subredditController.js) *)
(* ================================================================== *)

Module Posts.

(** [s.split(sep)] for a one-character separator. *)
Fixpoint split_on (sep : char) (s : jsstring) : list jsstring :=
  match s with
  | [] => [[]]
  | c :: s' =>
      if N.eqb c sep then [] :: split_on sep s'
      else match split_on sep s' with
           | seg :: segs => (c :: seg) :: segs
           | [] => [[c]]
           end
  end.

(** The derived post type, lines 175-186. *)
Definition postType (post : json) : res jsstring :=
  let post_type := '"link" in
  is_video <- get post '"is_video" ;;
  if truthy is_video then Ok '"video"
  else
    is_gallery <- get post '"is_gallery" ;;
    if truthy is_gallery then Ok '"gallery"
    else
      is_self <- get post '"is_self" ;;
      if truthy is_self then Ok '"text"
      else
        post_hint <- get post '"post_hint" ;;
        if is_str post_hint '"image" then Ok '"image"
        else
          post_hint' <- get post '"post_hint" ;;
          if is_str post_hint' '"link" then Ok '"link"
          else Ok post_type.

(** The representative media URL, lines 189-194. *)
Definition mediaUrl (post : json) (post_type : jsstring) : res json :=
  media_url <- get post '"url" ;;
  has_fallback <-
    (if str_eqb post_type '"video"
     then media <- get post '"media" ;;
          Ok (truthy (opt_get (opt_get media '"reddit_video") '"fallback_url"))
     else Ok false) ;;
  if has_fallback then
    media <- get post '"media" ;;
    reddit_video <- get media '"reddit_video" ;;
    get reddit_video '"fallback_url"
  else
    dest <- get post '"url_overridden_by_dest" ;;
    if truthy dest then get post '"url_overridden_by_dest"
    else Ok media_url.

(** [item.m?.split('/')[1]], line 203: a value that is neither absent
    nor a string has no [split] method. *)
Definition mimeSubtype (m : json) : res json :=
  match m with
  | JUndefined | JNull => Ok JUndefined
  | JStr s =>
      Ok (match nth_error (split_on (ch "/") s) 1 with
          | Some sub => JStr sub
          | None => JUndefined
          end)
  | _ => Throw TypeError
  end.

(** The callback of [Object.keys(post.media_metadata).map], lines
    199-208. *)
Definition galleryItem (media_metadata : json) (mediaId : jsstring)
  : res json :=
  item <- get media_metadata mediaId ;;
  status <- get item '"status" ;;
  if is_str status '"valid" then
    e <- get item '"e" ;;
    if is_str e '"Image" then
      m <- get item '"m" ;;
      sub <- mimeSubtype m ;;
      let format := or_else sub (JStr '"jpg") in
      id <- get item '"id" ;;
      id_text <- ToString id ;;
      format_text <- ToString format ;;
      Ok (JStr ('"https://i.redd.it/" ++ id_text ++ '"." ++ format_text))
    else Ok JNull
  else Ok JNull.

(** The gallery URL list, lines 197-209. *)
Definition galleryUrls (post : json) : res json :=
  let gallery_urls := JNull in
  is_gallery <- get post '"is_gallery" ;;
  if truthy is_gallery then
    media_metadata <- get post '"media_metadata" ;;
    if truthy media_metadata then
      media_metadata' <- get post '"media_metadata" ;;
      ks <- keys media_metadata' ;;
      mapped <- map_res (fun mediaId =>
                  media_metadata'' <- get post '"media_metadata" ;;
                  galleryItem media_metadata'' mediaId) ks ;;
      Ok (JArr (filter (fun url => negb (is_null url)) mapped))
    else Ok gallery_urls
  else Ok gallery_urls.

(** [post.selftext?.substring(0, 2000)], line 221. *)
Definition selftextHead (selftext : json) : res json :=
  match selftext with
  | JUndefined | JNull => Ok JUndefined
  | JStr s => Ok (JStr (firstn 2000 s))
  | _ => Throw TypeError
  end.

(** The thumbnail values that are no URL, line 228. *)
Definition noThumbnail : list jsstring :=
  ['"self"; '"default"; '"nsfw"; '"spoiler"; '"image"; []].

(** The callback of [postsData.map], lines 171-231. *)
Definition formatPost (postWrapper : json) : res json :=
  post <- get postWrapper '"data" ;;
  post_type <- postType post ;;
  media_url <- mediaUrl post post_type ;;
  gallery_urls <- galleryUrls post ;;
  id <- get post '"id" ;;
  title <- get post '"title" ;;
  score <- get post '"score" ;;
  author <- get post '"author" ;;
  subreddit <- get post '"subreddit_name_prefixed" ;;
  created_utc <- get post '"created_utc" ;;
  permalink <- get post '"permalink" ;;
  link <- ToString permalink ;;
  num_comments <- get post '"num_comments" ;;
  is_self <- get post '"is_self" ;;
  selftext <- (if truthy is_self
               then raw <- get post '"selftext" ;; selftextHead raw
               else Ok JNull) ;;
  over_18 <- get post '"over_18" ;;
  spoiler <- get post '"spoiler" ;;
  stickied <- get post '"stickied" ;;
  flair <- get post '"link_flair_text" ;;
  thumbnail <- get post '"thumbnail" ;;
  Ok (JObj [('"id", id);
            ('"title", title);
            ('"score", score);
            ('"author", or_else author (JStr '"[deleted]"));
            ('"subreddit", subreddit);
            ('"created_utc", created_utc);
            ('"permalink", JStr ('"https://www.reddit.com" ++ link));
            ('"num_comments", num_comments);
            ('"is_self", is_self);
            ('"selftext", selftext);
            ('"over_18", over_18);
            ('"spoiler", spoiler);
            ('"stickied", stickied);
            ('"flair", or_else flair JNull);
            ('"post_type", JStr post_type);
            ('"media_url",
              if negb (str_eqb post_type '"text") then media_url else JNull);
            ('"thumbnail",
              if truthy thumbnail
                 && negb (existsb (is_str thumbnail) noThumbnail)
              then thumbnail else JNull);
            ('"gallery_urls", gallery_urls)]).

(** [postsData.map(...)], line 171. *)
Definition formatPosts (postsData : list json) : res json :=
  posts <- map_res formatPost postsData ;;
  Ok (JArr posts).

(** A flag of a post, as a condition reads it. *)
Definition flag (post : json) (k : jsstring) : bool := truthy (own post k).

(** ** The gallery of the specification *)

(** A metadata entry that is a valid image. *)
Definition valid_image (item : json) : bool :=
  is_str (own item '"status") '"valid" && is_str (own item '"e") '"Image".

(** The subtype of a MIME type [type/subtype], if it names one. *)
Definition subtype (mime : jsstring) : option jsstring :=
  match split_on (ch "/") mime with
  | _ :: (c :: sub) :: _ => Some (c :: sub)
  | _ => None
  end.

(** The file extension of an entry: its MIME subtype, ["jpg"] when it
    reports none. *)
Definition extension (item : json) : jsstring :=
  match own item '"m" with
  | JStr mime =>
      match subtype mime with
      | Some sub => sub
      | None => '"jpg"
      end
  | _ => '"jpg"
  end.

Definition gallery_url (item : json) : json :=
  JStr ('"https://i.redd.it/" ++ to_string (own item '"id") ++ '"."
        ++ extension item).

(** What the callback of line 199 returns for an entry. *)
Definition item_result (item : json) : json :=
  if valid_image item then gallery_url item else JNull.

(** A metadata entry as the upstream sends it: an object whose MIME
    type, if any, is a string, and whose [id], when the entry is a
    valid image, is a value the template literal of line 204 prints
    (upstream it is a string). *)
Definition entry_ok (item : json) : Prop :=
  is_nullish item = false /\
  (own item '"m" = JUndefined \/ own item '"m" = JNull \/
   exists mime, own item '"m" = JStr mime) /\
  (valid_image item = true -> printable (own item '"id") = true).

(** A gallery post with two valid images and an entry that failed. *)
Definition example_metadata : list (jsstring * json) :=
  [('"abc", JObj [('"status", JStr '"valid");
                  ('"e", JStr '"Image");
                  ('"m", JStr '"image/png");
                  ('"id", JStr '"abc")]);
   ('"def", JObj [('"status", JStr '"failed");
                  ('"e", JStr '"Image");
                  ('"id", JStr '"def")]);
   ('"ghi", JObj [('"status", JStr '"valid");
                  ('"e", JStr '"Image");
                  ('"id", JStr '"ghi")])].

Definition example_gallery : json :=
  JObj [('"id", JStr '"p1");
        ('"is_gallery", JBool true);
        ('"media_metadata", JObj example_metadata)].

(** A post that carries both the video and the gallery flag. *)
Definition example_video : json :=
  JObj [('"is_video", JBool true);
        ('"is_gallery", JBool true);
        ('"is_self", JBool false);
        ('"post_hint", JStr '"image")].

End Posts.

(* ================================================================== *)
(** * The application token (src/src/services/redditService.js) *)
(* ================================================================== *)

Module TokenManager.

(** The module variables of lines 27-29.  [tokenExpiry] is [None] for
    [null] and for [NaN], which every reader of it treats alike. *)
Record state := {
  accessToken : json;
  tokenExpiry : option Z;
  isFetchingToken : bool
}.

Definition initial : state :=
  {| accessToken := JNull; tokenExpiry := None; isFetchingToken := false |}.

(** How [axios.post] settles: it rejects on a network error and on a
    status outside 2xx, with the error's message, and resolves with the
    decoded body otherwise. *)
Inductive reply :=
| Rejected (message : jsstring)
| Resolved (data : json).

(** ToNumber on the [expires_in] of a reply, which the endpoint sends
    as a number; [None] is [NaN].  The other values are there for
    completeness and are narrowed: of the strings only the empty one
    and the plain decimal numerals are read (a signed, fractional or
    padded numeral counts as [NaN] here), and an array or an object is
    [NaN]. *)
Definition to_number (v : json) : option Z :=
  match v with
  | JNum n => Some n
  | JNull => Some 0%Z
  | JBool b => Some (if b then 1 else 0)%Z
  | JStr [] => Some 0%Z
  | JStr s => if forallb is_digit s then Some (Z.of_nat (nat_of_digits 0 s))
              else None
  | _ => None
  end.

(** Where a call of [getAppOnlyToken] stands: suspended on the timer of
    line 40, suspended on the POST of line 50, or settled. *)
Inductive call :=
| Waiting
| Exchanging
| Returned (token : json)
| Thrown (message : jsstring).

(** The process: the module state, the calls made so far (a caller is
    its index) and the number of POSTs sent to the token endpoint. *)
Record world := {
  st : state;
  calls : list call;
  posts : nat
}.

Definition start : world := {| st := initial; calls := []; posts := 0 |}.

(** What the event loop runs next: a new caller enters
    [getAppOnlyToken], the POST of caller [c] settles with [r] at clock
    time [now], or the timer of caller [c] fires. *)
Inductive event :=
| Call
| PostSettles (c : nat) (r : reply) (now : Z)
| TimerFires (c : nat).

Fixpoint set_call (cs : list call) (c : nat) (v : call) : list call :=
  match cs, c with
  | [], _ => []
  | _ :: cs', O => v :: cs'
  | x :: cs', S c' => x :: set_call cs' c' v
  end.

Definition invalidResponse : jsstring :=
  '"Invalid response received from Reddit token endpoint".

Definition failedPrefix : jsstring :=
  '"Failed to obtain Reddit access token. Check credentials and Reddit status. ".

(** Lines 37-45, up to the first suspension. *)
Definition enter (w : world) : world :=
  if isFetchingToken (st w) then
    {| st := st w; calls := calls w ++ [Waiting]; posts := posts w |}
  else
    {| st := {| accessToken := accessToken (st w);
                tokenExpiry := tokenExpiry (st w);
                isFetchingToken := true |};
       calls := calls w ++ [Exchanging];
       posts := S (posts w) |}.

(** The [catch] block, lines 72-80. *)
Definition fail (w : world) (c : nat) (message : jsstring) : world :=
  {| st := {| accessToken := JNull; tokenExpiry := None;
              isFetchingToken := false |};
     calls := set_call (calls w) c (Thrown (failedPrefix ++ message));
     posts := posts w |}.

(** Lines 61-80, from the settlement of the POST on. *)
Definition settle (w : world) (c : nat) (r : reply) (now : Z) : world :=
  match r with
  | Resolved data =>
      if truthy data && truthy (own data '"access_token") then
        let token := own data '"access_token" in
        {| st := {| accessToken := token;
                    tokenExpiry :=
                      match to_number (own data '"expires_in") with
                      | Some n => Some (now + (n - 60) * 1000)%Z
                      | None => None
                      end;
                    isFetchingToken := false |};
           calls := set_call (calls w) c (Returned token);
           posts := posts w |}
      else fail w c invalidResponse
  | Rejected message => fail w c message
  end.

(** Line 41, after the timer. *)
Definition wake (w : world) (c : nat) : world :=
  {| st := st w;
     calls := set_call (calls w) c (Returned (accessToken (st w)));
     posts := posts w |}.

(** One turn of the event loop; [None] when the event cannot happen. *)
Definition step (w : world) (e : event) : option world :=
  match e with
  | Call => Some (enter w)
  | PostSettles c r now =>
      match nth_error (calls w) c with
      | Some Exchanging => Some (settle w c r now)
      | _ => None
      end
  | TimerFires c =>
      match nth_error (calls w) c with
      | Some Waiting => Some (wake w c)
      | _ => None
      end
  end.

Fixpoint run (w : world) (evs : list event) : option world :=
  match evs with
  | [] => Some w
  | e :: evs' =>
      match step w e with
      | Some w' => run w' evs'
      | None => None
      end
  end.

(** [isTokenValid], lines 86-88. *)
Definition isTokenValid (s : state) (now : Z) : bool :=
  truthy (accessToken s)
  && match tokenExpiry s with
     | Some t => negb (Z.eqb t 0) && Z.ltb now t
     | None => false
     end.

Definition is_exchanging (c : call) : bool :=
  match c with Exchanging => true | _ => false end.

(** The exchanges in flight. *)
Definition in_flight (cs : list call) : nat :=
  length (filter is_exchanging cs).




(** [failed r message]: the exchange that settled with [r] failed, for
    the reason [message]: the request was rejected (a network error or
    a status outside 2xx), or the body holds no [access_token]. *)
Inductive failed : reply -> jsstring -> Prop :=
| failed_rejected message : failed (Rejected message) message
| failed_no_token data :
    own data '"access_token" = JUndefined ->
    failed (Resolved data) invalidResponse.

(** A refresh under way while an older credential is still stored. *)
Definition example_refresh : world :=
  {| st := {| accessToken := JStr '"old"; tokenExpiry := Some 10%Z;
              isFetchingToken := true |};
     calls := [Exchanging];
     posts := 1 |}.

Definition settled (c : call) : bool :=
  match c with
  | Returned _ | Thrown _ => true
  | _ => false
  end.

(** ** Single flight, as the specification words it *)




(** The same two callers; the exchange succeeds, but only after the
    timer of the second caller has fired. *)
Definition slow_exchange : list event :=
  [Call; Call; TimerFires 1;
   PostSettles 0 (Resolved (JObj [('"access_token", JStr '"T");
                                  ('"expires_in", JNum 3600)])) 1500].

End TokenManager.

(* ================================================================== *)
(** * Request pacing (src/src/services/redditService.js) *)
(* ================================================================== *)

Module Pacing.
Local Open Scope Z_scope.

(** Line 17. *)
Definition BASE_REQUEST_DELAY_MS : Z := 1100.

(** A request suspended at line 109: it entered the interceptor at
    [since] and asked the timer for [delay] milliseconds. *)
Record sleeper := {
  who : nat;
  since : Z;
  delay : Z
}.

(** The process of the pacing step, lines 104-112: the clock
    [Date.now()] reads, the module variable of line 30, the requests
    asleep, and the requests that passed line 112 with the time at
    which they did (the time written to [lastRequestTime]), oldest
    first.  The token check of lines 115-134 comes behind line 112 and
    is the subject of [Interceptor]: with a valid token the request is
    passed on in the same turn, otherwise it is held until
    [getAppOnlyToken] has settled. *)
Record world := {
  clock : Z;
  lastRequestTime : Z;
  asleep : list sleeper;
  dispatched : list (nat * Z)
}.

Definition start : world :=
  {| clock := 0; lastRequestTime := 0; asleep := []; dispatched := [] |}.

(** What happens next: time passes, request [c] enters the interceptor,
    or the timer of request [c] fires. *)
Inductive event :=
| Advance (d : Z)
| Enter (c : nat)
| Wake (c : nat).

(** Line 112: the request leaves the pacing step at the time of the
    clock, which becomes the last-request time. *)
Definition dispatch (w : world) (c : nat) (rest : list sleeper) : world :=
  {| clock := clock w;
     lastRequestTime := clock w;
     asleep := rest;
     dispatched := dispatched w ++ [(c, clock w)] |}.

(** Lines 104-112, up to the suspension of line 109 if there is one. *)
Definition enter (w : world) (c : nat) : world :=
  let now := clock w in
  let timeSinceLastRequest := now - lastRequestTime w in
  if timeSinceLastRequest <? BASE_REQUEST_DELAY_MS then
    let delay := BASE_REQUEST_DELAY_MS - timeSinceLastRequest in
    {| clock := clock w;
       lastRequestTime := lastRequestTime w;
       asleep := asleep w ++ [{| who := c; since := now; delay := delay |}];
       dispatched := dispatched w |}
  else dispatch w c (asleep w).

Fixpoint take (c : nat) (l : list sleeper) : option (sleeper * list sleeper) :=
  match l with
  | [] => None
  | x :: l' =>
      if Nat.eqb (who x) c then Some (x, l')
      else match take c l' with
           | Some (y, rest) => Some (y, x :: rest)
           | None => None
           end
  end.

(** One turn; [None] when the event cannot happen: the clock does not
    run backwards, and a timer does not fire before its delay is over. *)
Definition step (w : world) (e : event) : option world :=
  match e with
  | Advance d =>
      if 0 <=? d then
        Some {| clock := clock w + d;
                lastRequestTime := lastRequestTime w;
                asleep := asleep w;
                dispatched := dispatched w |}
      else None
  | Enter c => Some (enter w c)
  | Wake c =>
      match take c (asleep w) with
      | Some (x, rest) =>
          if since x + delay x <=? clock w then Some (dispatch w c rest)
          else None
      | None => None
      end
  end.

Fixpoint run (w : world) (evs : list event) : option world :=
  match evs with
  | [] => Some w
  | e :: evs' =>
      match step w e with
      | Some w' => run w' evs'
      | None => None
      end
  end.

(** Consecutive passages of line 112 are at least the interval apart. *)
Fixpoint spaced (times : list Z) : Prop :=
  match times with
  | t1 :: (t2 :: _) as rest => BASE_REQUEST_DELAY_MS <= t2 - t1 /\ spaced rest
  | _ => True
  end.

(** The requests of a run never overlap: none enters the interceptor
    while another one is asleep in it. *)
Fixpoint sequential (w : world) (evs : list event) : Prop :=
  match evs with
  | [] => True
  | e :: evs' =>
      match e with
      | Enter _ => asleep w = []
      | _ => True
      end /\
      match step w e with
      | Some w' => sequential w' evs'
      | None => True
      end
  end.

(** What holds between the requests of a run in which none overlap. *)
Record turn_inv (w : world) : Prop := {
  inv_spaced : spaced (map snd (dispatched w));
  inv_last : forall front c t,
      dispatched w = front ++ [(c, t)] -> t = lastRequestTime w;
  inv_asleep : asleep w = [] \/
               exists x, asleep w = [x] /\
                 since x + delay x = lastRequestTime w + BASE_REQUEST_DELAY_MS
}.

(** A request is dispatched at 5000; two more enter the interceptor 100
    and 200 milliseconds later, while it is still too early for both. *)
Definition overlapping : list event :=
  [Advance 5000; Enter 0;
   Advance 100; Enter 1;
   Advance 100; Enter 2;
   Advance 900; Wake 1; Wake 2].

(** The same three requests, one after the other. *)
Definition in_turn : list event :=
  [Advance 5000; Enter 0;
   Advance 100; Enter 1; Advance 1000; Wake 1;
   Advance 100; Enter 2; Advance 1000; Wake 2].

End Pacing.

(* ================================================================== *)
(** * Retry policy (src/src/services/redditService.js) *)
(* ================================================================== *)

Module Retry.
Local Open Scope Z_scope.

(** Line 18. *)
Definition RETRY_COUNT : nat := 3.

(** [retryDelay], lines 143-149.  The library calls it with the number
    of the retry, from 1 on. *)
Definition retryDelay (retryCount : nat) : Z :=
  2 ^ (Z.of_nat retryCount - 1) * 1000.

Section Policy.

(** The errors of the HTTP client, with [error.response?.status], and
    the predicate [axiosRetry.isNetworkOrIdempotentRequestError] of the
    axios-retry package. *)
Variable error : Type.
Variable status : error -> option Z.
Variable isNetworkOrIdempotentRequestError : error -> bool.

(** [retryCondition], lines 150-153. *)
Definition retryCondition (e : error) : bool :=
  match status e with
  | Some s => s =? 429
  | None => false
  end
  || isNetworkOrIdempotentRequestError e.

Variable response : Type.

Inductive attempt :=
| Succeeds (r : response)
| Fails (e : error).

(** Modelled from the spec: the retry loop of the axios-retry package,
    which is no file of this repository.  A failed attempt is repeated
    while retries are left and [retryCondition] accepts its error,
    after [retryDelay] of the retry's number; otherwise its error goes
    to the caller.  [upstream i] is how attempt number [i] ends; the
    result is the delays waited and the outcome handed to the caller. *)
Fixpoint request (left : nat) (retryCount : nat) (upstream : nat -> attempt)
  : list Z * attempt :=
  match upstream retryCount with
  | Succeeds r => ([], Succeeds r)
  | Fails e =>
      match left with
      | O => ([], Fails e)
      | S left' =>
          if retryCondition e then
            let '(waits, out) := request left' (S retryCount) upstream in
            (retryDelay (S retryCount) :: waits, out)
          else ([], Fails e)
      end
  end.

(** A request through [redditApi], configured on lines 141-155. *)
Definition send (upstream : nat -> attempt) : list Z * attempt :=
  request RETRY_COUNT 0 upstream.

End Policy.

Arguments Succeeds {error response} r.
Arguments Fails {error response} e.
Arguments retryCondition {error} status isNetworkOrIdempotentRequestError e.
Arguments request {error} status isNetworkOrIdempotentRequestError {response}
  left retryCount upstream.
Arguments send {error} status isNetworkOrIdempotentRequestError {response}
  upstream.

(** ** An instance *)

(** An error of the client: the status of the response if there is
    one, and whether the request was aborted. *)
Record axiosError := {
  response_status : option Z;
  aborted : bool
}.

(** The library's predicate on the GET requests this client sends, as
    the package documents it: no response at all, or a 5xx response,
    and the request was not aborted. *)
Definition isNetworkOrIdempotentRequestError (e : axiosError) : bool :=
  negb (aborted e)
  && match response_status e with
     | None => true
     | Some s => (500 <=? s) && (s <=? 599)
     end.

Definition http (s : Z) : axiosError :=
  {| response_status := Some s; aborted := false |}.

(** An upstream that answers 429 three times and then 200. *)
Definition throttled (i : nat) : @attempt axiosError Z :=
  if Nat.ltb i 3 then Fails (http 429) else Succeeds 200.

(** An upstream that does not know the subreddit. *)
Definition not_found (i : nat) : @attempt axiosError Z := Fails (http 404).

End Retry.

(* ================================================================== *)
(** * The normaliser on the heap *)
(* ================================================================== *)

(** The transforms once more, over a store of mutable objects, as the
    engine runs them: a payload is a graph of cells, reading a property
    reads the store, and every object or array literal, [map] and
    [filter] allocates a fresh cell. *)
Module Heap.

Inductive val :=
| VUndefined
| VNull
| VBool (b : bool)
| VNum (n : Z)
| VStr (s : jsstring)
| VRef (l : nat).

Inductive cell :=
| CObj (props : list (jsstring * val))
| CArr (elems : list val).

(** A reference is an index into the store; allocation appends. *)
Definition heap := list cell.

(** A computation on the store that may throw. *)
Definition M (A : Type) : Type := heap -> res (A * heap).

Definition ret {A} (a : A) : M A := fun h => Ok (a, h).

Definition throw {A} (e : error) : M A := fun _ => Throw e.

Definition bindM {A B} (m : M A) (k : A -> M B) : M B :=
  fun h =>
    match m h with
    | Ok (a, h') => k a h'
    | Throw e => Throw e
    end.

(** A computation that only reads the store. *)
Definition read {A} (f : heap -> res A) : M A :=
  fun h =>
    match f h with
    | Ok a => Ok (a, h)
    | Throw e => Throw e
    end.

Definition alloc (c : cell) : M val :=
  fun h => Ok (VRef (length h), h ++ [c]).

Fixpoint mapM {A B} (f : A -> M B) (l : list A) : M (list B) :=
  match l with
  | [] => ret []
  | x :: l' =>
      bindM (f x) (fun y => bindM (mapM f l') (fun ys => ret (y :: ys)))
  end.

Definition vtruthy (v : val) : bool :=
  match v with
  | VUndefined | VNull => false
  | VBool b => b
  | VNum n => negb (Z.eqb n 0)
  | VStr s => match s with [] => false | _ => true end
  | VRef _ => true
  end.

Definition vis_null (v : val) : bool :=
  match v with VNull => true | _ => false end.

Definition vis_nullish (v : val) : bool :=
  match v with VUndefined | VNull => true | _ => false end.

Definition vis_str (v : val) (s : jsstring) : bool :=
  match v with
  | VStr s' => str_eqb s' s
  | _ => false
  end.

Fixpoint vlookup (props : list (jsstring * val)) (k : jsstring) : val :=
  match props with
  | [] => VUndefined
  | (k', v) :: rest => if str_eqb k' k then v else vlookup rest k
  end.

(** [v[k]] in the store [h], for a value that is neither null nor
    undefined. *)
Definition vown (h : heap) (v : val) (k : jsstring) : val :=
  match v with
  | VRef l =>
      match nth_error h l with
      | Some (CObj props) => vlookup props k
      | Some (CArr xs) =>
          if str_eqb k k_length then VNum (Z.of_nat (length xs))
          else match index_of_key k with
               | Some i => nth i xs VUndefined
               | None => VUndefined
               end
      | None => VUndefined
      end
  | VStr s =>
      if str_eqb k k_length then VNum (Z.of_nat (length s))
      else match index_of_key k with
           | Some i => match nth_error s i with
                       | Some c => VStr [c]
                       | None => VUndefined
                       end
           | None => VUndefined
           end
  | _ => VUndefined
  end.

(** [v.k]. *)
Definition vget (v : val) (k : jsstring) : M val :=
  read (fun h => if vis_nullish v then Throw TypeError else Ok (vown h v k)).

(** [v?.k]. *)
Definition vopt_get (h : heap) (v : val) (k : jsstring) : val :=
  if vis_nullish v then VUndefined else vown h v k.

(** ToString; [fuel] bounds the nesting of arrays.  An object with an
    own [toString] property makes it throw, as [Js.ToString] does. *)
Fixpoint vto_string (fuel : nat) (h : heap) (v : val) : res jsstring :=
  match fuel with
  | O => Throw RangeError
  | S fuel' =>
      match v with
      | VUndefined => Ok (lit "undefined")
      | VNull => Ok (lit "null")
      | VBool true => Ok (lit "true")
      | VBool false => Ok (lit "false")
      | VNum n => Ok (digits_of_Z n)
      | VStr s => Ok s
      | VRef l =>
          match nth_error h l with
          | Some (CArr xs) =>
              match map_res (fun x => if vis_nullish x then Ok []
                                      else vto_string fuel' h x) xs with
              | Ok parts => Ok (join (lit ",") parts)
              | Throw e => Throw e
              end
          | Some (CObj props) =>
              if existsb (fun p => str_eqb (fst p) k_toString) props
              then Throw TypeError
              else Ok (lit "[object Object]")
          | None => Ok (lit "[object Object]")
          end
      end
  end.

(** [Object.keys(v)]. *)
Definition vkeys (h : heap) (v : val) : res (list jsstring) :=
  match v with
  | VUndefined | VNull => Throw TypeError
  | VRef l =>
      match nth_error h l with
      | Some (CObj props) => Ok (map fst props)
      | Some (CArr xs) => Ok (map digits_of_nat (seq 0 (length xs)))
      | None => Ok []
      end
  | VStr s => Ok (map digits_of_nat (seq 0 (length s)))
  | _ => Ok []
  end.

(** The elements of an array, [None] for any other value. *)
Definition velements (h : heap) (v : val) : option (list val) :=
  match v with
  | VRef l =>
      match nth_error h l with
      | Some (CArr xs) => Some xs
      | _ => None
      end
  | _ => None
  end.

(** [a || []]: the value itself, or a fresh empty array. *)
Definition or_empty (a : val) : M val :=
  if vtruthy a then ret a else alloc (CArr []).

Definition vor_else (a b : val) : val := if vtruthy a then a else b.

End Heap.

Import Heap.

Notation "x <~ m ;; k" := (bindM m (fun x => k))
  (at level 61, m at next level, right associativity) : js_scope.

Module HeapNormalizer.
Import Regex Clean Posts.

(** The callback of [commentArray.map], part_000 lines 21-56. *)
Definition formatWrapper (fuel : nat) (recur : val -> M val)
  (commentWrapper : val) : M val :=
  kind <~ vget commentWrapper '"kind" ;;
  comment <~ vget commentWrapper '"data" ;;
  if vis_str kind '"more" then
    id <~ vget comment '"id" ;;
    count <~ vget comment '"count" ;;
    parent_id <~ vget comment '"parent_id" ;;
    children <~ vget comment '"children" ;;
    children_ids <~ or_empty children ;;
    alloc (CObj [('"type", VStr '"more");
                 ('"id", id);
                 ('"count", count);
                 ('"parent_id", parent_id);
                 ('"children_ids", children_ids)])
  else if vis_str kind '"t1" then
    replies <~ vget comment '"replies" ;;
    children <~ read (fun h =>
      Ok (vopt_get h (vopt_get h replies '"data") '"children")) ;;
    repliesData <~ or_empty children ;;
    id <~ vget comment '"id" ;;
    author <~ vget comment '"author" ;;
    body <~ vget comment '"body" ;;
    body_html <~ vget comment '"body_html" ;;
    score <~ vget comment '"score" ;;
    created_utc <~ vget comment '"created_utc" ;;
    stickied <~ vget comment '"stickied" ;;
    is_submitter <~ vget comment '"is_submitter" ;;
    permalink <~ vget comment '"permalink" ;;
    link <~ read (fun h => vto_string fuel h permalink) ;;
    parent_id <~ vget comment '"parent_id" ;;
    formatted <~ recur repliesData ;;
    alloc (CObj [('"type", VStr '"comment");
                 ('"id", id);
                 ('"author", vor_else author (VStr '"[deleted]"));
                 ('"body", body);
                 ('"body_html", body_html);
                 ('"score", score);
                 ('"created_utc", created_utc);
                 ('"stickied", stickied);
                 ('"is_submitter", is_submitter);
                 ('"permalink", VStr ('"https://www.reddit.com" ++ link));
                 ('"parent_id", parent_id);
                 ('"replies", formatted)])
  else ret VNull.

(** [formatApiComments], part_000 lines 18-57: [map] and [filter] each
    allocate an array. *)
Fixpoint formatApiComments (fuel : nat) (commentArray : val) : M val :=
  match fuel with
  | O => throw RangeError
  | S fuel' =>
      wrappers <~ read (fun h => Ok (velements h commentArray)) ;;
      match wrappers with
      | Some ws =>
          mapped <~ mapM (formatWrapper fuel' (formatApiComments fuel')) ws ;;
          _ <~ alloc (CArr mapped) ;;
          alloc (CArr (filter (fun c => negb (vis_null c)) mapped))
      | None => alloc (CArr [])
      end
  end.

(** The derived post type, subredditController.js lines 175-186. *)
Definition postType (post : val) : M jsstring :=
  let post_type := '"link" in
  is_video <~ vget post '"is_video" ;;
  if vtruthy is_video then ret '"video"
  else
    is_gallery <~ vget post '"is_gallery" ;;
    if vtruthy is_gallery then ret '"gallery"
    else
      is_self <~ vget post '"is_self" ;;
      if vtruthy is_self then ret '"text"
      else
        post_hint <~ vget post '"post_hint" ;;
        if vis_str post_hint '"image" then ret '"image"
        else
          post_hint' <~ vget post '"post_hint" ;;
          if vis_str post_hint' '"link" then ret '"link"
          else ret post_type.

(** Lines 189-194. *)
Definition mediaUrl (post : val) (post_type : jsstring) : M val :=
  media_url <~ vget post '"url" ;;
  has_fallback <~
    (if str_eqb post_type '"video"
     then media <~ vget post '"media" ;;
          read (fun h =>
            Ok (vtruthy (vopt_get h (vopt_get h media '"reddit_video")
                                  '"fallback_url")))
     else ret false) ;;
  if has_fallback then
    media <~ vget post '"media" ;;
    reddit_video <~ vget media '"reddit_video" ;;
    vget reddit_video '"fallback_url"
  else
    dest <~ vget post '"url_overridden_by_dest" ;;
    if vtruthy dest then vget post '"url_overridden_by_dest"
    else ret media_url.

(** Line 203. *)
Definition mimeSubtype (m : val) : M val :=
  match m with
  | VUndefined | VNull => ret VUndefined
  | VStr s =>
      ret (match nth_error (split_on (ch "/") s) 1 with
           | Some sub => VStr sub
           | None => VUndefined
           end)
  | _ => throw TypeError
  end.

(** Lines 199-208. *)
Definition galleryItem (fuel : nat) (media_metadata : val)
  (mediaId : jsstring) : M val :=
  item <~ vget media_metadata mediaId ;;
  status <~ vget item '"status" ;;
  if vis_str status '"valid" then
    e <~ vget item '"e" ;;
    if vis_str e '"Image" then
      m <~ vget item '"m" ;;
      sub <~ mimeSubtype m ;;
      let format := vor_else sub (VStr '"jpg") in
      id <~ vget item '"id" ;;
      id_text <~ read (fun h => vto_string fuel h id) ;;
      format_text <~ read (fun h => vto_string fuel h format) ;;
      ret (VStr ('"https://i.redd.it/" ++ id_text ++ '"." ++ format_text))
    else ret VNull
  else ret VNull.

(** Lines 197-209. *)
Definition galleryUrls (fuel : nat) (post : val) : M val :=
  let gallery_urls := VNull in
  is_gallery <~ vget post '"is_gallery" ;;
  if vtruthy is_gallery then
    media_metadata <~ vget post '"media_metadata" ;;
    if vtruthy media_metadata then
      media_metadata' <~ vget post '"media_metadata" ;;
      ks <~ read (fun h => vkeys h media_metadata') ;;
      _ <~ alloc (CArr (map VStr ks)) ;;
      mapped <~ mapM (fun mediaId =>
                  media_metadata'' <~ vget post '"media_metadata" ;;
                  galleryItem fuel media_metadata'' mediaId) ks ;;
      _ <~ alloc (CArr mapped) ;;
      alloc (CArr (filter (fun url => negb (vis_null url)) mapped))
    else ret gallery_urls
  else ret gallery_urls.

(** Line 221. *)
Definition selftextHead (selftext : val) : M val :=
  match selftext with
  | VUndefined | VNull => ret VUndefined
  | VStr s => ret (VStr (firstn 2000 s))
  | _ => throw TypeError
  end.

(** The callback of [postsData.map], lines 171-231. *)
Definition formatPost (fuel : nat) (postWrapper : val) : M val :=
  post <~ vget postWrapper '"data" ;;
  post_type <~ postType post ;;
  media_url <~ mediaUrl post post_type ;;
  gallery_urls <~ galleryUrls fuel post ;;
  id <~ vget post '"id" ;;
  title <~ vget post '"title" ;;
  score <~ vget post '"score" ;;
  author <~ vget post '"author" ;;
  subreddit <~ vget post '"subreddit_name_prefixed" ;;
  created_utc <~ vget post '"created_utc" ;;
  permalink <~ vget post '"permalink" ;;
  link <~ read (fun h => vto_string fuel h permalink) ;;
  num_comments <~ vget post '"num_comments" ;;
  is_self <~ vget post '"is_self" ;;
  selftext <~ (if vtruthy is_self
               then raw <~ vget post '"selftext" ;; selftextHead raw
               else ret VNull) ;;
  over_18 <~ vget post '"over_18" ;;
  spoiler <~ vget post '"spoiler" ;;
  stickied <~ vget post '"stickied" ;;
  flair <~ vget post '"link_flair_text" ;;
  thumbnail <~ vget post '"thumbnail" ;;
  alloc (CObj [('"id", id);
               ('"title", title);
               ('"score", score);
               ('"author", vor_else author (VStr '"[deleted]"));
               ('"subreddit", subreddit);
               ('"created_utc", created_utc);
               ('"permalink", VStr ('"https://www.reddit.com" ++ link));
               ('"num_comments", num_comments);
               ('"is_self", is_self);
               ('"selftext", selftext);
               ('"over_18", over_18);
               ('"spoiler", spoiler);
               ('"stickied", stickied);
               ('"flair", vor_else flair VNull);
               ('"post_type", VStr post_type);
               ('"media_url",
                 if negb (str_eqb post_type '"text") then media_url
                 else VNull);
               ('"thumbnail",
                 if vtruthy thumbnail
                    && negb (existsb (vis_str thumbnail) noThumbnail)
                 then thumbnail else VNull);
               ('"gallery_urls", gallery_urls)]).

(** [postsData.map(...)], line 171, on the array [postsData]. *)
Definition formatPosts (fuel : nat) (postsData : val) : M val :=
  wrappers <~ read (fun h => match velements h postsData with
                             | Some ws => Ok ws
                             | None => Throw TypeError
                             end) ;;
  posts <~ mapM (formatPost fuel) wrappers ;;
  alloc (CArr posts).

(** [cleanDescriptionText], lines 16-34: strings are values, the store
    is not touched. *)
Definition cleanDescriptionText (text : val) : M jsstring :=
  if negb (vtruthy text) then ret []
  else match text with
       | VStr s => ret (clean s)
       | _ => throw TypeError
       end.

(** ** Payloads in the store *)

(** [extends h h']: [h'] is [h] with cells added; no cell of [h] is
    changed. *)
Definition extends (h h' : heap) : Prop := exists added, h' = h ++ added.

(** [denotes h v t]: in the store [h] the value [v] is the payload
    [t]. *)
Inductive denotes (h : heap) : val -> json -> Prop :=
| den_undefined : denotes h VUndefined JUndefined
| den_null : denotes h VNull JNull
| den_bool b : denotes h (VBool b) (JBool b)
| den_num n : denotes h (VNum n) (JNum n)
| den_str s : denotes h (VStr s) (JStr s)
| den_arr l xs ts :
    nth_error h l = Some (CArr xs) ->
    Forall2 (denotes h) xs ts ->
    denotes h (VRef l) (JArr ts)
| den_obj l props tprops :
    nth_error h l = Some (CObj props) ->
    Forall2 (fun p tp => fst p = fst tp /\ denotes h (snd p) (snd tp))
            props tprops ->
    denotes h (VRef l) (JObj tprops).

(** [refines R h m p]: run in the store [h], the computation [m] does
    what the function result [p] says: it throws the same error, or it
    returns, in a store that extends [h], a value that [R] relates to
    the result. *)
Definition refines {A B} (R : heap -> A -> B -> Prop) (h : heap)
  (m : M A) (p : res B) : Prop :=
  match p with
  | Ok b => exists a h', m h = Ok (a, h') /\ extends h h' /\ R h' a b
  | Throw e => m h = Throw e
  end.

(** Results that are no references are related when they are equal. *)
Definition same {A} (_ : heap) (a b : A) : Prop := a = b.

(** [twice f h v]: when [f] returns on the payload [v], it has changed
    no cell of the store, so [v] is the payload it was, and a second
    run on [v] returns as well, with an output that is the same tree. *)
Definition twice (f : val -> M val) (h : heap) (v : val) : Prop :=
  forall r1 h1,
    f v h = Ok (r1, h1) ->
    extends h h1 /\
    (forall t, denotes h v t -> denotes h1 v t) /\
    exists r2 h2 out,
      f v h1 = Ok (r2, h2) /\ extends h1 h2 /\
      denotes h1 r1 out /\ denotes h2 r2 out.

(** The listing of [Comments.example_thread] in a store. *)
Definition example_store : heap :=
  [ CObj [('"id", VStr '"r1"); ('"author", VNull); ('"body", VStr '"ok");
          ('"permalink", VStr '"/r/x/c/"); ('"replies", VStr [])];
    CObj [('"kind", VStr '"t1"); ('"data", VRef 0)];
    CObj [('"id", VStr '"r2"); ('"author", VNull); ('"body", VStr '"ok");
          ('"permalink", VStr '"/r/x/c/"); ('"replies", VStr [])];
    CObj [('"kind", VStr '"t1"); ('"data", VRef 2)];
    CArr [VRef 1; VRef 3];
    CObj [('"children", VRef 4)];
    CObj [('"kind", VStr '"Listing"); ('"data", VRef 5)];
    CObj [('"id", VStr '"c1"); ('"author", VStr '"bob"); ('"score", VNum 3);
          ('"permalink", VStr '"/r/x/c1/"); ('"replies", VRef 6)];
    CObj [('"kind", VStr '"t1"); ('"data", VRef 7)];
    CObj [('"kind", VStr '"t3"); ('"data", VNull)];
    CArr [VStr '"a"; VStr '"b"];
    CObj [('"id", VStr '"m1"); ('"count", VNum 7);
          ('"parent_id", VStr '"t3_x"); ('"children", VRef 10)];
    CObj [('"kind", VStr '"more"); ('"data", VRef 11)];
    CArr [VRef 8; VRef 9; VRef 12] ].

End HeapNormalizer.

(* ================================================================== *)
(** * Markdown texts *)
(* ================================================================== *)

Module Markdown.
Import Regex Clean.

(** The link [[t](u)]. *)
Definition link (t u : jsstring) : jsstring :=
  ch "[" :: t ++ ch "]" :: ch "(" :: u ++ [ch ")"].

(** The horizontal rule [---]. *)
Definition rule : jsstring := [ch "-"; ch "-"; ch "-"].

(** A header marker of [S n] signs, with the white space [w] behind it. *)
Definition header (n : nat) (w : jsstring) : jsstring :=
  repeat (ch "#") (S n) ++ w.




(** A text without tag, without emphasis marker, without two white
    space code units in a row and without white space at its start. *)
Definition cleaned (s : jsstring) : bool :=
  negb (has_tag s) && negb (existsb is_emphasis s) && ws_pair_free s
  && negb (starts_ws s).

End Markdown.

(* ================================================================== *)
(** * A self post *)
(* ================================================================== *)

Module PostExample.
Import Posts.

(** A self post as the upstream wraps it, deleted author and
    placeholder thumbnail. *)
Definition example_wrapper : json :=
  JObj [('"kind", JStr '"t3");
        ('"data", JObj [('"id", JStr '"p9");
                        ('"title", JStr '"Hello");
                        ('"is_self", JBool true);
                        ('"selftext", JStr '"First post");
                        ('"permalink", JStr '"/r/x/p9/");
                        ('"thumbnail", JStr '"self");
                        ('"url", JStr '"https://www.reddit.com/r/x/p9/")])].

(** The post the handler makes of it. *)
Definition example_post : json :=
  match formatPost example_wrapper with
  | Ok post => post
  | Throw _ => JNull
  end.

End PostExample.

(* ================================================================== *)
(** * Numbers read from the query string *)
(* ================================================================== *)

Module Numbers.
Import Regex.

(** A number as the handlers use it: an integer, or [NaN].  The engine
    keeps the double nearest to the integer, which is the integer itself
    below 2^53; the sources compare the value with 0, 15 and 100 and
    copy it. *)
Inductive number :=
| NaN
| Num (n : Z).

Definition digit_value (c : char) : Z := Z.of_N (c - 48).

Definition value_of_digits (ds : jsstring) : Z :=
  fold_left (fun acc c => (10 * acc + digit_value c)%Z) ds 0%Z.

(** [parseInt(v, 10)]: the argument is converted to a string, which
    throws on an object with an own [toString] property; leading white
    space is skipped, a sign is read if there is one, then the longest
    run of decimal digits; whatever follows is ignored, and with no
    digit at all the result is [NaN]. *)
Definition parseInt (v : json) : res number :=
  inputString <- ToString v ;;
  let S := trim_start inputString in
  let negative := match S with
                  | c :: _ => N.eqb c (ch "-")
                  | [] => false
                  end in
  let S := match S with
           | c :: rest =>
               if N.eqb c (ch "+") || N.eqb c (ch "-") then rest else S
           | [] => S
           end in
  Ok match take_while is_digit S with
     | [] => NaN
     | digits =>
         Num (if negative then - value_of_digits digits
              else value_of_digits digits)
     end.

(** Whether the text [rest] begins with something else than a digit. *)
Definition no_digit_ahead (rest : jsstring) : bool :=
  match rest with
  | c :: _ => negb (is_digit c)
  | [] => true
  end.

(** [isNaN(n)]. *)
Definition isNaN (n : number) : bool :=
  match n with NaN => true | Num _ => false end.

(** [n < k], [n <= k] and [n > k]: false on [NaN]. *)
Definition lt (n : number) (k : Z) : bool :=
  match n with Num z => Z.ltb z k | NaN => false end.

Definition le (n : number) (k : Z) : bool :=
  match n with Num z => Z.leb z k | NaN => false end.

Definition gt (n : number) (k : Z) : bool :=
  match n with Num z => Z.ltb k z | NaN => false end.

(** The number as a value of a payload (JSON has no [NaN]: it is
    written as null). *)
Definition value (n : number) : json :=
  match n with Num z => JNum z | NaN => JNull end.

End Numbers.

(* ================================================================== *)
(** * Requests, responses and errors (src/app.js and the controllers) *)
(* ================================================================== *)

Module Http.

(** An error handed to [next]: [err.message] and [err.status]. *)
Record httpError := {
  err_message : jsstring;
  err_status : json
}.

(** What a handler does with a request: [res.status(s).json(body)], or
    [next(err)]. *)
Inductive reaction :=
| Respond (status : json) (body : json)
| Next (err : httpError).

(** How a call of [redditApi.get] settles: the promise resolves with a
    response whose body is [data], or rejects with [error]. *)
Inductive upstream :=
| Resolves (data : json)
| Rejects (error : json).

(** The properties of a query object, in enumeration order. *)
Definition props : Type := list (jsstring * json).

(** What a handler has decided when it has read its parameters: to
    refuse them, or to ask the upstream for [path] with [apiParams]
    ([sort] is the listing or the order it settled on). *)
Inductive plan :=
| Refuse (err : httpError)
| Fetch (path : jsstring) (apiParams : props) (sort : jsstring).

(** [const { k1, ..., ...rest } = object]: the properties that are not
    taken out by name. *)
Definition rest_of (object : props) (taken : list jsstring) : props :=
  filter (fun p => negb (existsb (str_eqb (fst p)) taken)) object.

(** [{ ...object, k: v }] for a key that is no array index: the value
    of an existing property is replaced where it stands, a new property
    comes last. *)
Fixpoint set_prop (object : props) (k : jsstring) (v : json) : props :=
  match object with
  | [] => [(k, v)]
  | (k', v') :: rest =>
      if str_eqb k' k then (k', v) :: rest
      else (k', v') :: set_prop rest k v
  end.

(** [list.includes(s)]. *)
Definition includes (list : list jsstring) (s : jsstring) : bool :=
  existsb (str_eqb s) list.

(** [Array.isArray(v)]. *)
Definition isArray (v : json) : bool :=
  match v with JArr _ => true | _ => false end.

(** [new Error(message)], thrown and caught: an object with a message
    and no response. *)
Definition newError (message : jsstring) : json :=
  JObj [('"message", JStr message)].

(** An exception of the engine, caught.  It has no response either; its
    message is the engine's own and is only ever logged. *)
Definition caught (e : error) : json := JObj [].

(** The message the upstream sent with an error,
    [error.response?.data?.message]. *)
Definition upstreamMessage (error : json) : json :=
  opt_get (opt_get (own error '"response") '"data") '"message".

(** [handleAxiosError], subredditController.js lines 6-11 and part_000
    lines 7-12 (the same text).  [new Error(message)] converts its
    argument to a string, which throws on an object with an own
    [toString] property: the handler then neither answers nor calls
    [next]. *)
Definition handleAxiosError (error : json) (defaultMessage : jsstring)
  : res reaction :=
  logged <- get error '"response" ;;
  response <- get error '"response" ;;
  let message :=
    or_else (opt_get (opt_get response '"data") '"message")
            (JStr defaultMessage) in
  text <- ToString message ;;
  response' <- get error '"response" ;;
  let status := or_else (opt_get response' '"status") (JNum 500) in
  Ok (Next {| err_message := text; err_status := status |}).


(** The handler of unmatched routes, app.js lines 56-62.  The URL of a
    request is a string. *)
Definition notFound (originalUrl : json) : reaction :=
  Next {| err_message := '"Not Found - " ++ to_string originalUrl;
          err_status := JNum 404 |}.



End Http.

(* ================================================================== *)
(** * The subreddit endpoints (src/src/controllers/subredditController.js) *)
(* ================================================================== *)

Module Subreddit.
Import Clean Posts Numbers Http.

(** In the handlers [subredditName] is the route parameter
    [req.params.name], which the router gives as a string, or leaves
    undefined: the template literals print it as it is.  The values of
    the query string are strings, arrays or objects. *)

Definition nameRequired : httpError :=
  {| err_message := '"Subreddit name parameter is required.";
     err_status := JNum 400 |}.

(** The two answers of [validateSubreddit] that are its own, lines 77
    and 85-87. *)
Definition notFoundOrInvalid (subredditName : json) : reaction :=
  Respond (JNum 404)
    (JObj [('"message",
             JStr ('"Subreddit 'r/" ++ to_string subredditName
                   ++ '"' not found or invalid."))]).

Definition validationFailure : reaction :=
  Next {| err_message :=
            '"An unexpected error occurred during subreddit validation.";
          err_status := JNum 500 |}.

(** The [catch] block of [validateSubreddit], lines 70-89. *)
Definition validateFailure (subredditName : json) (error : json)
  : res reaction :=
  response <- get error '"response" ;;
  if truthy response then
    response' <- get error '"response" ;;
    status <- get response' '"status" ;;
    match status with
    | JNum 400 => Ok (notFoundOrInvalid subredditName)
    | _ =>
        handleAxiosError error
          ('"Error validating subreddit r/" ++ to_string subredditName)
    end
  else Ok validationFailure.

(** [validateSubreddit], lines 40-90.  [reddit path] is how the request
    for [path] settles.  The display name is printed by the template
    literals of lines 55 and 57, inside the [try] block. *)
Definition validateSubreddit (subredditName : json)
  (reddit : jsstring -> upstream) : res reaction :=
  if negb (truthy subredditName) then Ok (Next nameRequired)
  else
    match reddit ('"/r/" ++ to_string subredditName ++ '"/about") with
    | Resolves data =>
        if truthy data && is_str (own data '"kind") '"t5"
           && truthy (own data '"data")
        then
          let subData := own data '"data" in
          match ToString (own subData '"display_name") with
          | Ok display_name =>
              Ok (Respond (JNum 200)
                    (JObj [('"message",
                             JStr ('"Subreddit 'r/" ++ display_name
                                   ++ '"' is valid and accessible."));
                           ('"name", own subData '"display_name");
                           ('"id", own subData '"name");
                           ('"title", own subData '"title");
                           ('"subscribers", own subData '"subscribers");
                           ('"created_utc", own subData '"created_utc");
                           ('"public_description",
                             own subData '"public_description");
                           ('"over18", own subData '"over_18");
                           ('"subreddit_type", own subData '"subreddit_type")]))
          | Throw e => validateFailure subredditName (caught e)
          end
        else
          validateFailure subredditName
            (newError '"Unexpected response structure received from Reddit API for subreddit validation.")
    | Rejects error => validateFailure subredditName error
    end.

Definition allowedSorts : list jsstring :=
  ['"hot"; '"new"; '"top"; '"rising"].

Definition allowedTimes : list jsstring :=
  ['"hour"; '"day"; '"week"; '"month"; '"year"; '"all"].

(** The limit sent upstream, lines 121-131; [None] when the handler
    refuses the parameter. *)
Definition effectiveLimit (limit : json) : res (option Z) :=
  let effectiveLimit := 25%Z in
  if truthy limit then
    parsedLimit <- parseInt limit ;;
    if negb (isNaN parsedLimit) && gt parsedLimit 0 && le parsedLimit 100
    then match parsedLimit with
         | Num n => Ok (Some n)
         | NaN => Ok None
         end
    else Ok None
  else Ok (Some effectiveLimit).

Definition invalidLimit : httpError :=
  {| err_message :=
       '"Invalid limit parameter provided. Must be a number between 1 and 100.";
     err_status := JNum 400 |}.

(** A truthy value that is no string, as a repeated or a bracketed
    parameter of the query string gives one. *)
Definition not_text (v : json) : bool :=
  match v with
  | JStr _ => false
  | _ => truthy v
  end.

(** The case mapping of the ASCII letters. *)
Definition lower_ascii (s : jsstring) : jsstring :=
  map (fun c => if N.leb 65 c && N.leb c 90 then (c + 32)%N else c) s.

Section Lowercase.

(** [String.prototype.toLowerCase], the engine's case mapping. *)
Variable toLowerCase : jsstring -> jsstring.

(** [v.toLowerCase()]: only a string has the method. *)
Definition lower (v : json) : res jsstring :=
  match v with
  | JStr s => Ok (toLowerCase s)
  | _ => Throw TypeError
  end.

(** The listing requested, lines 115-118. *)
Definition effectiveSort (sort : json) : res jsstring :=
  if truthy sort then
    lowered <- lower sort ;;
    if includes allowedSorts lowered then lower sort else Ok '"hot"
  else Ok '"hot".

(** The error of line 141; it is made of a [time] that has the method
    [toLowerCase], a string. *)
Definition invalidTime (time : json) : httpError :=
  {| err_message :=
       '"Invalid time parameter '" ++ to_string time
       ++ '"' for 'top' sort. Allowed values: "
       ++ join '", " allowedTimes ++ '".";
     err_status := JNum 400 |}.

(** The time range, lines 134-145; an error when the handler refuses
    the parameter. *)
Definition effectiveTime (effectiveSort : jsstring) (time : json)
  : res (jsstring + httpError) :=
  let effectiveTime := '"day" in
  if str_eqb effectiveSort '"top" then
    if truthy time then
      lowered <- lower time ;;
      if includes allowedTimes lowered then
        lowered' <- lower time ;;
        Ok (inl lowered')
      else Ok (inr (invalidTime time))
    else Ok (inl effectiveTime)
  else Ok (inl effectiveTime).

(** The parameters sent upstream, lines 148-155. *)
Definition postsParams (otherParams : props) (effectiveSort : jsstring)
  (effectiveLimit : Z) (effectiveTime : jsstring) : props :=
  let apiParams := set_prop otherParams '"limit" (JNum effectiveLimit) in
  if str_eqb effectiveSort '"top"
  then set_prop apiParams '"t" (JStr effectiveTime)
  else apiParams.

(** What [handleAxiosError] makes of an error without a response, with
    the default message of line 248. *)
Definition postsFailure (subredditName : json) : reaction :=
  Next {| err_message :=
            '"Error fetching posts for r/" ++ to_string subredditName;
          err_status := JNum 500 |}.

(** Lines 165-249: what the handler does once the request has
    settled. *)
Definition postsResponse (subredditName : json) (effectiveSort : jsstring)
  (apiParams : props) (settled : upstream) : res reaction :=
  let failed error :=
    handleAxiosError error
      ('"Error fetching posts for r/" ++ to_string subredditName) in
  match settled with
  | Resolves data =>
      if truthy data && is_str (own data '"kind") '"Listing"
         && isArray (opt_get (own data '"data") '"children")
      then
        let postsData := own (own data '"data") '"children" in
        let after := own (own data '"data") '"after" in
        let before := own (own data '"data") '"before" in
        match formatPosts (elements postsData) with
        | Ok posts =>
            Ok (Respond (JNum 200)
                  (JObj [('"subreddit", subredditName);
                         ('"sort", JStr effectiveSort);
                         ('"parameters_used", JObj apiParams);
                         ('"post_count", own posts '"length");
                         ('"after", after);
                         ('"before", before);
                         ('"posts", posts)]))
        | Throw e => failed (caught e)
        end
      else
        failed (newError '"Unexpected response structure received from Reddit API for posts.")
  | Rejects error => failed error
  end.

(** Lines 101-163 of [getSubredditPosts]: from the request to the call
    of the upstream. *)
Definition postsRequest (subredditName : json) (query : props) : res plan :=
  let limit := lookup query '"limit" in
  let sort := lookup query '"sort" in
  let time := lookup query '"time" in
  let otherParams := rest_of query ['"limit"; '"sort"; '"time"] in
  if negb (truthy subredditName) then Ok (Refuse nameRequired)
  else
    effectiveSort <- effectiveSort sort ;;
    limited <- effectiveLimit limit ;;
    match limited with
    | None => Ok (Refuse invalidLimit)
    | Some effectiveLimit =>
        chosen <- effectiveTime effectiveSort time ;;
        match chosen with
        | inr err => Ok (Refuse err)
        | inl effectiveTime =>
            let apiParams :=
              postsParams otherParams effectiveSort effectiveLimit
                          effectiveTime in
            Ok (Fetch ('"/r/" ++ to_string subredditName ++ '"/"
                       ++ effectiveSort)
                      apiParams effectiveSort)
        end
    end.

(** [getSubredditPosts], lines 101-250.  [reddit path params] is how
    the request settles. *)
Definition getSubredditPosts (subredditName : json) (query : props)
  (reddit : jsstring -> props -> upstream) : res reaction :=
  decided <- postsRequest subredditName query ;;
  match decided with
  | Refuse err => Ok (Next err)
  | Fetch path apiParams effectiveSort =>
      postsResponse subredditName effectiveSort apiParams
                    (reddit path apiParams)
  end.

End Lowercase.

(** The callback of [rules.map], lines 302-311. *)
Definition formatRule (rule : json) : res json :=
  short_name <- get rule '"short_name" ;;
  description <- get rule '"description" ;;
  cleaned <- cleanDescriptionText description ;;
  kind <- get rule '"kind" ;;
  created_utc <- get rule '"created_utc" ;;
  priority <- get rule '"priority" ;;
  violation_reason <- get rule '"violation_reason" ;;
  Ok (JObj [('"short_name", short_name);
            ('"description", JStr cleaned);
            ('"kind", kind);
            ('"created_utc", created_utc);
            ('"priority", priority);
            ('"violation_reason", violation_reason)]).

(** [rules.map(...)]: only an array has the method. *)
Definition formatRules (rules : json) : res json :=
  match rules with
  | JArr items => formatted <- map_res formatRule items ;; Ok (JArr formatted)
  | _ => Throw TypeError
  end.

(** Lines 274-312: the body of the response, from the two payloads.
    The display name is printed by the template literal of line 283,
    the URL by the one of line 301. *)
Definition aboutBody (aboutData rulesData : json) : res json :=
  let subData := own aboutData '"data" in
  let rules := or_else (opt_get rulesData '"rules") (JArr []) in
  logged <- ToString (own subData '"display_name") ;;
  public_description <- cleanDescriptionText (own subData '"public_description") ;;
  description <- cleanDescriptionText (own subData '"description") ;;
  url <- ToString (own subData '"url") ;;
  formatted <- formatRules rules ;;
  Ok (JObj [('"name", own subData '"display_name");
            ('"id", own subData '"name");
            ('"title", own subData '"title");
            ('"subscribers", own subData '"subscribers");
            ('"active_user_count", own subData '"active_user_count");
            ('"created_utc", own subData '"created_utc");
            ('"public_description", JStr public_description);
            ('"header_title", own subData '"header_title");
            ('"description", JStr description);
            ('"over18", own subData '"over_18");
            ('"subreddit_type", own subData '"subreddit_type");
            ('"lang", own subData '"lang");
            ('"url", JStr ('"https://www.reddit.com" ++ url));
            ('"rules", formatted)]).

(** [getSubredditAbout], lines 256-317.  The two requests are sent
    together; [rulesFirst] says which of them settles first, which is
    the one whose error [Promise.all] reports when both fail. *)
Definition getSubredditAbout (subredditName : json)
  (reddit : jsstring -> upstream) (rulesFirst : bool) : res reaction :=
  let failed error :=
    handleAxiosError error
      ('"Error fetching metadata for r/" ++ to_string subredditName) in
  if negb (truthy subredditName) then Ok (Next nameRequired)
  else
    let about := reddit ('"/r/" ++ to_string subredditName ++ '"/about") in
    let rules :=
      reddit ('"/r/" ++ to_string subredditName ++ '"/about/rules") in
    match about, rules with
    | Rejects e1, Rejects e2 => failed (if rulesFirst then e2 else e1)
    | Rejects e1, Resolves _ => failed e1
    | Resolves _, Rejects e2 => failed e2
    | Resolves aboutData, Resolves rulesData =>
        if negb (truthy aboutData)
           || negb (is_str (own aboutData '"kind") '"t5")
           || negb (truthy (own aboutData '"data"))
        then failed (newError '"Unexpected response structure from /about endpoint.")
        else
          match aboutBody aboutData rulesData with
          | Ok body => Ok (Respond (JNum 200) body)
          | Throw e => failed (caught e)
          end
    end.

(** A request for the top posts of the week, with a [t] of its own and
    a parameter the handler does not know. *)
Definition example_posts_query : props :=
  [('"sort", JStr '"TOP"); ('"limit", JStr '"10"); ('"time", JStr '"Week");
   ('"t", JStr '"all"); ('"raw_json", JStr '"1")].

(** The parameters the handler sends upstream for it. *)
Definition example_posts_params : props :=
  [('"t", JStr '"week"); ('"raw_json", JStr '"1"); ('"limit", JNum 10)].

(** An upstream that knows the subreddit 'rust', with one rule. *)
Definition example_about : json :=
  JObj [('"kind", JStr '"t5");
        ('"data", JObj [('"display_name", JStr '"rust");
                        ('"public_description", JStr '"**Rust** <b>lang</b>");
                        ('"description", JStr '"# Rules  [wiki](http://w)");
                        ('"url", JStr '"/r/rust/")])].

Definition example_rules : json :=
  JObj [('"rules",
          JArr [JObj [('"short_name", JStr '"Be kind");
                      ('"description", JStr '"No _flames_");
                      ('"kind", JStr '"all")]])].

Definition example_reddit (path : jsstring) : upstream :=
  if str_eqb path '"/r/rust/about" then Resolves example_about
  else Resolves example_rules.

End Subreddit.

(* ================================================================== *)
(** * The comments endpoint (src/unnamed/part_000) *)
(* ================================================================== *)

Module Post.
Import Regex Clean Comments Numbers Http.

Definition allowedSorts : list jsstring :=
  ['"confidence"; '"top"; '"new"; '"controversial"; '"old"; '"qa"].

Definition is_1_or_3 (c : char) : bool := N.eqb c (ch "1") || N.eqb c (ch "3").

(** [(t[13]_|more_)], the pattern of line 107 behind its anchor. *)
Definition cursor : regex :=
  Group (Alt (Seq (Chr (ch "t")) (Seq (Cls is_1_or_3) (Chr (ch "_"))))
             (Seq (Chr (ch "m")) (Seq (Chr (ch "o")) (Seq (Chr (ch "r"))
                  (Seq (Chr (ch "e")) (Chr (ch "_"))))))).

(** Whether the text [s] begins with [p]. *)
Fixpoint starts_with (p s : jsstring) : bool :=
  match p, s with
  | [], _ => true
  | x :: p', y :: s' => N.eqb y x && starts_with p' s'
  | _ :: _, [] => false
  end.

(** A wrapper the normaliser keeps: a comment or a placeholder. *)
Definition is_node (w : json) : bool :=
  is_str (own w '"kind") '"t1" || is_str (own w '"kind") '"more".

(** In the handler [postId] is the route parameter
    [req.params.postId]: a string, or undefined. *)

(** [/^(t[13]_|more_)/.test(v)]: the argument is converted to a
    string; without the [m] flag the anchor holds at the start of the
    text only, so the search succeeds there or nowhere. *)
Definition testCursor (v : json) : res bool :=
  text <- ToString v ;;
  Ok match exec cursor None text with
     | Some _ => true
     | None => false
     end.

Definition refuse (message : jsstring) : plan :=
  Refuse {| err_message := message; err_status := JNum 400 |}.

Definition invalidSort : jsstring :=
  '"Invalid sort parameter. Allowed values: "
  ++ join '", " allowedSorts ++ '".".

(** [v ? parseInt(v, 10) : undefined]; [None] is [undefined]. *)
Definition parsed (v : json) : res (option number) :=
  if truthy v then n <- parseInt v ;; Ok (Some n) else Ok None.

(** [{ ...object, ...(n !== undefined && { k: n }) }]. *)
Definition set_number (object : props) (k : jsstring) (n : option number)
  : props :=
  match n with
  | Some n => set_prop object k (value n)
  | None => object
  end.


(** The parameters sent upstream, lines 116-123. *)
Definition commentsParams (otherParams : props) (lowerCaseSort : jsstring)
  (postId : json) (parsedLimit parsedDepth : option number) (after : json)
  : props :=
  let apiParams := set_prop otherParams '"sort" (JStr lowerCaseSort) in
  let apiParams := set_prop apiParams '"article" postId in
  let apiParams := set_number apiParams '"limit" parsedLimit in
  let apiParams := set_number apiParams '"depth" parsedDepth in
  if truthy after then set_prop apiParams '"after" after else apiParams.

(** What [handleAxiosError] makes of an error without a response, with
    the default message of line 158. *)
Definition commentsFailure (postId : json) : reaction :=
  Next {| err_message :=
            '"Error fetching comments for post " ++ to_string postId;
          err_status := JNum 500 |}.

(** Lines 131-159: what the handler does once the request has settled.
    [fuel] is the depth of call stack left for [formatApiComments]. *)
Definition commentsResponse (fuel : nat) (postId : json)
  (lowerCaseSort : jsstring) (apiParams : props) (settled : upstream)
  : res reaction :=
  let failed error :=
    handleAxiosError error
      ('"Error fetching comments for post " ++ to_string postId) in
  match settled with
  | Resolves data =>
      if isArray data && Z.leb 2 (Z.of_nat (length (elements data))) then
        let postListing := own data '"0" in
        let commentListing := own data '"1" in
        let postDetails :=
          or_else (opt_get (opt_get (opt_get (opt_get postListing '"data")
                                             '"children") '"0") '"data")
                  (JObj []) in
        let commentsData :=
          or_else (opt_get (opt_get commentListing '"data") '"children")
                  (JArr []) in
        match formatApiComments fuel commentsData with
        | Ok formattedComments =>
            let listingAfter :=
              opt_get (opt_get commentListing '"data") '"after" in
            Ok (Respond (JNum 200)
                  (JObj [('"postId", postId);
                         ('"postTitle",
                           or_else (own postDetails '"title") (JStr '"N/A"));
                         ('"postAuthor",
                           or_else (own postDetails '"author")
                                   (JStr '"[deleted]"));
                         ('"subreddit",
                           or_else (own postDetails '"subreddit_name_prefixed")
                                   (JStr '"N/A"));
                         ('"sort", JStr lowerCaseSort);
                         ('"parameters_used", JObj apiParams);
                         ('"comment_count_this_batch",
                           own formattedComments '"length");
                         ('"after", listingAfter);
                         ('"comments", formattedComments)]))
        | Throw e => failed (caught e)
        end
      else
        failed (newError '"Unexpected response structure received from Reddit API for comments.")
  | Rejects error => failed error
  end.

Section Lowercase.

Variable toLowerCase : jsstring -> jsstring.

(** Lines 69-129 of [getPostComments]: from the request to the call of
    the upstream. *)
Definition commentsRequest (postId : json) (query : props) : res plan :=
  let limit := lookup query '"limit" in
  let depth := lookup query '"depth" in
  let sort := match lookup query '"sort" with
              | JUndefined => JStr '"confidence"
              | sort => sort
              end in
  let after := lookup query '"after" in
  let otherParams :=
    rest_of query ['"limit"; '"depth"; '"sort"; '"after"] in
  if negb (truthy postId) then Ok (refuse '"Post ID parameter is required.")
  else
    lowerCaseSort <- Subreddit.lower toLowerCase sort ;;
    if negb (includes allowedSorts lowerCaseSort) then
      Ok (refuse invalidSort)
    else
      parsedDepth <- parsed depth ;;
      if truthy depth
         && match parsedDepth with
            | Some n => isNaN n || lt n 0
            | None => true
            end
      then Ok (refuse '"Invalid depth parameter.")
      else
        parsedLimit <- parsed limit ;;
        if truthy limit
           && match parsedLimit with
              | Some n => isNaN n || le n 0
              | None => true
              end
        then Ok (refuse '"Invalid limit parameter.")
        else
          matched <- (if truthy after then testCursor after else Ok true) ;;
          if truthy after && negb matched
          then Ok (refuse '"Invalid after parameter format.")
          else
            Ok (Fetch ('"/comments/" ++ to_string postId)
                      (commentsParams otherParams lowerCaseSort postId
                                      parsedLimit parsedDepth after)
                      lowerCaseSort).


End Lowercase.

(** The second listing of a comments payload, with the thread of
    [example_thread]. *)
Definition example_listing : json :=
  JObj [('"kind", JStr '"Listing");
        ('"data", JObj [('"children", JArr example_thread)])].

(** A request for the replies behind a comment: the post is named a
    second time, the sort in capitals. *)
Definition example_comments_query : props :=
  [('"article", JStr '"zzz"); ('"sort", JStr '"NEW"); ('"depth", JStr '"3");
   ('"threaded", JStr '"false"); ('"after", JStr '"t1_xyz")].

(** The parameters the handler sends upstream for it. *)
Definition example_comments_params : props :=
  [('"article", JStr '"abc"); ('"threaded", JStr '"false");
   ('"sort", JStr '"new"); ('"depth", JNum 3); ('"after", JStr '"t1_xyz")].

End Post.

(* ================================================================== *)
(** * The token of a request (src/src/services/redditService.js) *)
(* ================================================================== *)

Module Interceptor.
Import TokenManager.

(** The body of a response of the token endpoint that grants a token
    for an hour. *)
Definition example_grant : json :=
  JObj [('"access_token", JStr '"T"); ('"expires_in", JNum 3600)].

Definition example_reply : reply := Resolved example_grant.

(** Where a request stands in the second half of the interceptor,
    lines 114-134: suspended on call number [c] of [getAppOnlyToken]
    (line 118), passed on with an [Authorization] header, rejected
    with an error of the interceptor's own, or rejected with an
    exception the interceptor threw. *)
Inductive stage :=
| Refreshing (c : nat)
| Sent (authorization : jsstring)
| Failed (message : jsstring)
| Crashed (e : error).

Definition noToken : jsstring := '"No valid access token available".

(** Lines 126-134.  The template literal of line 127 converts the
    token to a string; it stands outside of the [try] block of lines
    117-122, so an exception of the conversion rejects the request. *)
Definition authorize (s : state) : stage :=
  if truthy (accessToken s) then
    match ToString (accessToken s) with
    | Ok text => Sent ('"Bearer " ++ text)
    | Throw e => Crashed e
    end
  else Failed noToken.

(** The process: the token manager and the requests that have reached
    line 115, oldest first. *)
Record world := {
  token : TokenManager.world;
  requests : list stage
}.

Definition start : world := {| token := TokenManager.start; requests := [] |}.

(** What happens next: a request reaches line 115 at clock time [now],
    or the token manager takes a turn (a call from elsewhere, as the
    one of line 161, the settlement of a POST, a timer). *)
Inductive event :=
| Arrives (now : Z)
| Token (e : TokenManager.event).

(** Lines 115-118, up to the suspension if there is one. *)
Definition arrive (w : world) (now : Z) : world :=
  if isTokenValid (st (token w)) now then
    {| token := token w;
       requests := requests w ++ [authorize (st (token w))] |}
  else
    {| token := enter (token w);
       requests := requests w ++ [Refreshing (length (calls (token w)))] |}.

(** Lines 119-134, once the call a request is suspended on has
    settled. *)
Definition resume (tw : TokenManager.world) (r : stage) : stage :=
  match r with
  | Refreshing c =>
      match nth_error (calls tw) c with
      | Some (Returned _) => authorize (st tw)
      | Some (Thrown tokenError) => Failed tokenError
      | _ => r
      end
  | _ => r
  end.

Definition step (w : world) (e : event) : option world :=
  match e with
  | Arrives now => Some (arrive w now)
  | Token e' =>
      match TokenManager.step (token w) e' with
      | Some tw => Some {| token := tw; requests := map (resume tw) (requests w) |}
      | None => None
      end
  end.

Fixpoint run (w : world) (evs : list event) : option world :=
  match evs with
  | [] => Some w
  | e :: evs' =>
      match step w e with
      | Some w' => run w' evs'
      | None => None
      end
  end.







(** The service is loaded (the call of line 161 starts an exchange) and
    two requests arrive before the exchange has settled; their timers
    fire first, the token comes later. *)
Definition cold_start : list event :=
  [Token Call; Arrives 10; Arrives 20;
   Token (TimerFires 1); Token (TimerFires 2);
   Token (PostSettles 0 example_reply 1500)].

End Interceptor.


(* ================================================================== *)
(** * Properties *)
(* ================================================================== *)

Module JsFacts.

Lemma str_eqb_eq a b : str_eqb a b = true <-> a = b.
Proof.
  revert b; induction a as [|x a IH]; intros [|y b]; simpl; split; intro H;
    try reflexivity; try discriminate.
  - apply andb_true_iff in H as [H1 H2]. apply N.eqb_eq in H1.
    apply IH in H2. now subst.
  - injection H as -> ->. rewrite N.eqb_refl. simpl. now apply IH.
Qed.

Lemma is_str_eq v s : is_str v s = true <-> v = JStr s.
Proof.
  destruct v; simpl; split; intro H; try discriminate.
  - apply str_eqb_eq in H. now subst.
  - injection H as ->. now apply str_eqb_eq.
Qed.

Lemma is_str_false v s : is_str v s = false <-> v <> JStr s.
Proof.
  split; intro H.
  - intro E. apply is_str_eq in E. congruence.
  - destruct (is_str v s) eqn:E; [|reflexivity].
    apply is_str_eq in E. contradiction.
Qed.

Lemma opt_get_own v k : opt_get v k = own v k.
Proof. unfold opt_get. destruct v; reflexivity. Qed.

Lemma get_ok v k : is_nullish v = false -> get v k = Ok (own v k).
Proof. unfold get. now intros ->. Qed.

Lemma depth_lookup props k :
  depth (lookup props k) <= fold_right (fun p d => Nat.max (depth (snd p)) d) 0 props.
Proof.
  induction props as [|[k' v] props IH]; simpl; [lia|].
  destruct (str_eqb k' k); lia.
Qed.

Lemma depth_nth xs i :
  depth (nth i xs JUndefined) <= fold_right (fun x d => Nat.max (depth x) d) 0 xs.
Proof.
  revert i; induction xs as [|x xs IH]; intros [|i]; simpl; try lia.
  specialize (IH i). lia.
Qed.

Lemma depth_own v k : depth (own v k) <= pred (depth v).
Proof.
  destruct v; simpl; try lia.
  - destruct (str_eqb k k_length); simpl; [lia|].
    destruct (index_of_key k); simpl; [|lia].
    destruct (nth_error s n); simpl; lia.
  - destruct (str_eqb k k_length); simpl; [lia|].
    destruct (index_of_key k); simpl; [|lia]. apply depth_nth.
  - apply depth_lookup.
Qed.

Lemma depth_elements v w : In w (elements v) -> depth w < depth v.
Proof.
  destruct v; simpl; try tauto.
  induction xs as [|x xs IH]; simpl; [tauto|].
  intros [->|H]; [lia|]. apply IH in H. lia.
Qed.

Lemma map_res_ok A B (f : A -> res B) (g : A -> B) l :
  (forall x, In x l -> f x = Ok (g x)) -> map_res f l = Ok (map g l).
Proof.
  induction l as [|x l IH]; simpl; intro H; [reflexivity|].
  rewrite (H x (or_introl eq_refl)), IH; auto.
Qed.

Lemma depth_or_else x : depth (or_else x (JArr [])) <= Nat.max (depth x) 1.
Proof. unfold or_else. destruct (truthy x); simpl; lia. Qed.

(** Induction on payloads. *)
Lemma json_induction (P : json -> Prop) :
  P JUndefined -> P JNull -> (forall b, P (JBool b)) -> (forall n, P (JNum n)) ->
  (forall s, P (JStr s)) ->
  (forall xs, Forall P xs -> P (JArr xs)) ->
  (forall props, Forall (fun p => P (snd p)) props -> P (JObj props)) ->
  forall t, P t.
Proof.
  intros H1 H2 H3 H4 H5 H6 H7.
  fix IH 1. intros [| |b|n|s|xs|props].
  - exact H1.
  - exact H2.
  - apply H3.
  - apply H4.
  - apply H5.
  - apply H6. induction xs as [|x xs IHxs]; constructor; [apply IH|exact IHxs].
  - apply H7. induction props as [|[k v] props IHp]; constructor; [apply IH|exact IHp].
Qed.

(** ** ToString *)

Lemma printable_convertible v : printable v = true -> unconvertible v = false.
Proof.
  induction v as [| |b|n|s|xs IH|props _] using json_induction;
    cbn [printable unconvertible]; intro H; try reflexivity.
  - induction IH as [|x xs Hx _ IHxs]; [reflexivity|].
    cbn [forallb existsb] in *. apply andb_true_iff in H as [H1 H2].
    now rewrite (Hx H1), (IHxs H2).
  - now apply negb_true_iff in H.
Qed.

Lemma ToString_printable v : printable v = true -> ToString v = Ok (to_string v).
Proof. intro H. unfold ToString. now rewrite (printable_convertible v H). Qed.

Lemma ToString_str s : ToString (JStr s) = Ok s.
Proof. reflexivity. Qed.

Lemma ToString_ok v s : ToString v = Ok s -> s = to_string v.
Proof. unfold ToString. destruct (unconvertible v); congruence. Qed.

Lemma ToString_throw v e :
  ToString v = Throw e -> e = TypeError /\ unconvertible v = true.
Proof. unfold ToString. destruct (unconvertible v); intro H; [split|]; congruence. Qed.

Lemma ToString_cases v :
  ToString v = Ok (to_string v) \/ ToString v = Throw TypeError.
Proof. unfold ToString. destruct (unconvertible v); auto. Qed.

End JsFacts.

Module RegexFacts.
Import Regex.

Lemma subseq_nil_l {A} (l : list A) : subseq [] l.
Proof. induction l; [apply sub_nil|apply sub_skip; assumption]. Qed.

Lemma subseq_refl {A} (l : list A) : subseq l l.
Proof. induction l; [apply sub_nil|apply sub_keep; assumption]. Qed.

Lemma subseq_app {A} (a b c d : list A) :
  subseq a b -> subseq c d -> subseq (a ++ c) (b ++ d).
Proof.
  induction 1; simpl; intros Hcd.
  - assumption.
  - apply sub_skip; auto.
  - apply sub_keep; auto.
Qed.

Lemma subseq_trans {A} (a b c : list A) :
  subseq a b -> subseq b c -> subseq a c.
Proof.
  intros Hab Hbc. revert a Hab.
  induction Hbc as [|x b c Hbc IH|x b c Hbc IH]; intros a Hab.
  - assumption.
  - apply sub_skip. auto.
  - inversion Hab; subst; [apply sub_skip|apply sub_keep]; auto.
Qed.

Lemma subseq_In {A} (a b : list A) x : subseq a b -> In x a -> In x b.
Proof. induction 1; simpl; intuition. Qed.

Lemma subseq_filter {A} (q : A -> bool) (a b : list A) :
  subseq a b -> subseq (filter q a) (filter q b).
Proof.
  induction 1; simpl.
  - apply sub_nil.
  - destruct (q x); [apply sub_skip|]; assumption.
  - destruct (q x); [apply sub_keep|]; assumption.
Qed.

Lemma subseq_app_r {A} (a b : list A) : subseq b (a ++ b).
Proof. induction a; simpl; [apply subseq_refl|apply sub_skip; assumption]. Qed.

Lemma subseq_app_l {A} (a b : list A) : subseq a (a ++ b).
Proof. induction a; simpl; [apply subseq_nil_l|apply sub_keep; assumption]. Qed.

Lemma subseq_rev {A} (a b : list A) : subseq a b -> subseq (rev a) (rev b).
Proof.
  induction 1; simpl.
  - apply sub_nil.
  - eapply subseq_trans; [eassumption|apply subseq_app_l].
  - apply subseq_app; [assumption|apply subseq_refl].
Qed.

Lemma thins_refl q s : thins q s s.
Proof. apply subseq_refl. Qed.

Lemma thins_trans q a b c : thins q a b -> thins q b c -> thins q a c.
Proof. apply subseq_trans. Qed.

Lemma subseq_thins q a b : subseq a b -> thins q a b.
Proof. apply subseq_filter. Qed.

Lemma thins_In q a b c : thins q a b -> q c = true -> In c a -> In c b.
Proof.
  intros H Hq Hin.
  assert (In c (filter q a)) by (apply filter_In; auto).
  apply (subseq_In _ _ _ H) in H0. now apply filter_In in H0.
Qed.

(** ** The matcher *)

Lemma star_prefix p s : forall m cap rest,
  In (m, cap, rest) (star p s) -> s = m ++ rest /\ cap = None.
Proof.
  induction s as [|c s IH]; simpl; intros m cap rest H.
  - destruct H as [H|[]]. injection H as <- <- <-. auto.
  - destruct (p c).
    + apply in_app_or in H as [H|[H|[]]].
      * apply in_map_iff in H as ([[m' cap'] rest'] & E & H).
        injection E as <- <- <-. apply IH in H as [-> ->]. auto.
      * injection H as <- <- <-. auto.
    + destruct H as [H|[]]. injection H as <- <- <-. auto.
Qed.

Lemma matches_sound r : forall prev s m cap rest,
  In (m, cap, rest) (matches r prev s) ->
  s = m ++ rest /\ (forall t, cap = Some t -> subseq t m).
Proof.
  induction r as [|c|p|p|r1 IH1 r2 IH2|r1 IH1 r2 IH2|r IH];
    simpl; intros prev s m cap rest H.
  - destruct (at_line_start prev); [|contradiction].
    destruct H as [H|[]]. injection H as <- <- <-. split; [reflexivity|discriminate].
  - destruct s as [|x s]; [contradiction|].
    destruct (N.eqb x c); [|contradiction].
    destruct H as [H|[]]. injection H as <- <- <-. split; [reflexivity|discriminate].
  - destruct s as [|x s]; [contradiction|].
    destruct (p x); [|contradiction].
    destruct H as [H|[]]. injection H as <- <- <-. split; [reflexivity|discriminate].
  - apply star_prefix in H as [-> ->]. split; [reflexivity|discriminate].
  - apply in_flat_map in H as ([[m1 c1] s1] & H1 & H).
    apply in_map_iff in H as ([[m2 c2] s2] & E & H2).
    injection E as <- <- <-.
    apply IH1 in H1 as [-> Hc1]. apply IH2 in H2 as [-> Hc2].
    split; [now rewrite app_assoc|].
    intros t Ht. destruct c2 as [t2|]; simpl in Ht.
    + injection Ht as <-. eapply subseq_trans; [apply Hc2; reflexivity|apply subseq_app_r].
    + eapply subseq_trans; [apply Hc1; exact Ht|apply subseq_app_l].
  - apply in_app_or in H as [H|H]; eauto.
  - apply in_map_iff in H as ([[m' c'] rest'] & E & H).
    injection E as <- <- <-. apply IH in H as [-> _].
    split; [reflexivity|]. intros t Ht. injection Ht as <-. apply subseq_refl.
Qed.

Lemma matches_nonempty r : nullable r = false ->
  forall prev s m cap rest, In (m, cap, rest) (matches r prev s) -> m <> [].
Proof.
  induction r as [|c|p|p|r1 IH1 r2 IH2|r1 IH1 r2 IH2|r IH];
    simpl; intros Hn prev s m cap rest H; try discriminate.
  - destruct s as [|x s]; [contradiction|].
    destruct (N.eqb x c); [|contradiction].
    destruct H as [H|[]]. injection H as <- <- <-. discriminate.
  - destruct s as [|x s]; [contradiction|].
    destruct (p x); [|contradiction].
    destruct H as [H|[]]. injection H as <- <- <-. discriminate.
  - apply in_flat_map in H as ([[m1 c1] s1] & H1 & H).
    apply in_map_iff in H as ([[m2 c2] s2] & E & H2).
    injection E as <- <- <-.
    apply andb_false_iff in Hn as [Hn|Hn].
    + specialize (IH1 Hn _ _ _ _ _ H1). destruct m1; [contradiction|discriminate].
    + specialize (IH2 Hn _ _ _ _ _ H2). destruct m1, m2; try contradiction; discriminate.
  - apply orb_false_iff in Hn as [Hn1 Hn2].
    apply in_app_or in H as [H|H]; eauto.
  - apply in_map_iff in H as ([[m' c'] rest'] & E & H).
    injection E as <- <- <-. eauto.
Qed.

Lemma exec_In r prev s m cap :
  exec r prev s = Some (m, cap) -> exists rest, In (m, cap, rest) (matches r prev s).
Proof.
  unfold exec. destruct (matches r prev s) as [|[[m' cap'] rest] l]; [discriminate|].
  intro H. injection H as <- <-. exists rest. now left.
Qed.

Lemma exec_sound r prev s m cap :
  exec r prev s = Some (m, cap) ->
  s = m ++ skipn (length m) s /\ (forall t, cap = Some t -> subseq t m).
Proof.
  intro H. apply exec_In in H as (rest & H). apply matches_sound in H as [-> Hc].
  split; [|assumption].
  rewrite skipn_app, skipn_all, Nat.sub_diag. reflexivity.
Qed.

(** A global replacement whose replacement texts keep, of class [q], only
    code units of the text they replace, keeps only code units of the
    input. *)
Lemma replace_from_thins q r repl :
  (forall cap m, (forall t, cap = Some t -> subseq t m) ->
                 thins q (repl cap) m) ->
  forall s skip prev,
    thins q (replace_from r repl skip prev s) (skipn skip s).
Proof.
  intros Hrepl. unfold thins in *.
  induction s as [|c s IH]; intros skip prev.
  - destruct skip; simpl; [|apply sub_nil].
    destruct (exec r prev []) as [[m cap]|] eqn:E; [|apply sub_nil].
    apply exec_sound in E as [E Hc]. destruct m; [|discriminate].
    exact (Hrepl cap [] Hc).
  - destruct skip as [|k]; cbn [replace_from skipn]; [|apply IH].
    destruct (exec r prev (c :: s)) as [[m cap]|] eqn:E.
    + apply exec_sound in E as [E Hc]. specialize (Hrepl cap m Hc).
      destruct m as [|x m]; cbn [length].
      * rewrite filter_app. simpl in Hrepl. inversion Hrepl as [E0| |].
        cbn [app]. specialize (IH 0 (Some c)). simpl in *.
        destruct (q c); [apply sub_keep|]; exact IH.
      * cbn [app length skipn] in E. injection E as <- E.
        assert (Hs : filter q (c :: s)
                     = filter q (c :: m) ++ filter q (skipn (length m) s)).
        { rewrite <- filter_app. cbn [app]. rewrite <- E. reflexivity. }
        rewrite Hs, filter_app.
        apply subseq_app; [exact Hrepl|apply IH].
    + specialize (IH 0 (Some c)). simpl in *.
      destruct (q c); [apply sub_keep|]; exact IH.
Qed.

Lemma trim_start_suffix s : exists a, s = a ++ trim_start s.
Proof.
  induction s as [|c s [a IH]]; simpl.
  - now exists [].
  - destruct (is_space c).
    + exists (c :: a). simpl. now rewrite <- IH.
    + now exists [].
Qed.

Lemma trim_start_subseq s : subseq (trim_start s) s.
Proof.
  destruct (trim_start_suffix s) as [a Ha].
  pose proof (subseq_app_r a (trim_start s)) as H. now rewrite <- Ha in H.
Qed.

Lemma trim_subseq s : subseq (trim s) s.
Proof.
  unfold trim. apply subseq_trans with (trim_start s).
  - rewrite <- (rev_involutive (trim_start s)) at 2. apply subseq_rev.
    apply trim_start_subseq.
  - apply trim_start_subseq.
Qed.

End RegexFacts.

Module CleanFacts.
Import Regex Clean RegexFacts.

Lemma exec_of_In r prev s o : In o (matches r prev s) -> exec r prev s <> None.
Proof.
  unfold exec. destruct (matches r prev s) as [|[[m cap] rest] l]; [contradiction|discriminate].
Qed.

Lemma matches_seq_intro r1 r2 prev s m1 c1 s1 m2 c2 s2 :
  In (m1, c1, s1) (matches r1 prev s) ->
  In (m2, c2, s2) (matches r2 (last_char prev m1) s1) ->
  In (m1 ++ m2, later c1 c2, s2) (matches (Seq r1 r2) prev s).
Proof.
  intros H1 H2. cbn [matches]. apply in_flat_map. exists (m1, c1, s1).
  split; [assumption|]. apply in_map_iff. exists (m2, c2, s2). auto.
Qed.

Lemma matches_alt_l r1 r2 prev s o :
  In o (matches r1 prev s) -> In o (matches (Alt r1 r2) prev s).
Proof. intro H. cbn [matches]. apply in_or_app. now left. Qed.

Lemma matches_alt_r r1 r2 prev s o :
  In o (matches r2 prev s) -> In o (matches (Alt r1 r2) prev s).
Proof. intro H. cbn [matches]. apply in_or_app. now right. Qed.

Lemma chr_In c s prev : In ([c], None, s) (matches (Chr c) prev (c :: s)).
Proof. cbn [matches]. rewrite N.eqb_refl. now left. Qed.

Lemma star_In_nil p s : In ([], None, s) (star p s).
Proof.
  destruct s as [|c s]; cbn [star]; [now left|].
  destruct (p c); [apply in_or_app; right|]; now left.
Qed.

Lemma star_In p m rest :
  forallb p m = true -> In (m, None, rest) (star p (m ++ rest)).
Proof.
  induction m as [|c m IH]; cbn [forallb app]; intro H.
  - apply star_In_nil.
  - apply andb_true_iff in H as [Hc Hm]. cbn [star]. rewrite Hc.
    apply in_or_app. left. apply in_map_iff. exists (m, None, rest). auto.
Qed.

Lemma star_first p s :
  exists tl, star p s = (take_while p s, None, drop_while p s) :: tl.
Proof.
  induction s as [|c s [tl IH]]; cbn [star take_while drop_while].
  - now exists [].
  - destruct (p c).
    + rewrite IH. cbn [map app]. eexists. reflexivity.
    + now exists [].
Qed.

Lemma existsb_split {A} (q : A -> bool) l :
  existsb q l = true ->
  exists b x c, l = b ++ x :: c /\ q x = true /\ forallb (fun y => negb (q y)) b = true.
Proof.
  induction l as [|a l IH]; cbn [existsb]; [discriminate|].
  destruct (q a) eqn:E; cbn [orb]; intro H.
  - exists [], a, l. auto.
  - destruct (IH H) as (b & x & c & -> & Hx & Hb).
    exists (a :: b), x, c. cbn [forallb app]. rewrite E, Hb. auto.
Qed.

Lemma is_chr_eq a c : is_chr a c = true -> c = ch a.
Proof. unfold is_chr. apply N.eqb_eq. Qed.

(** ** HTML tags *)

Lemma htmlTag_complete prev b c :
  forallb (not_chr ">") b = true ->
  In (ch "<" :: b ++ [ch ">"], None, c)
     (matches htmlTag prev (ch "<" :: b ++ ch ">" :: c)).
Proof.
  intro Hb. unfold htmlTag.
  apply (matches_seq_intro (Chr (ch "<")) _ prev _ [ch "<"] None
           (b ++ ch ">" :: c) (b ++ [ch ">"]) None c).
  - apply chr_In.
  - apply (matches_seq_intro (Star (not_chr ">")) _ _ _ b None
             (ch ">" :: c) [ch ">"] None c).
    + cbn [matches]. now apply star_In.
    + apply chr_In.
Qed.

Lemma htmlTag_none prev s :
  exec htmlTag prev (ch "<" :: s) = None -> existsb (is_chr ">") s = false.
Proof.
  intro E. destruct (existsb (is_chr ">") s) eqn:Ex; [|reflexivity].
  apply existsb_split in Ex as (b & x & c & -> & Hx & Hb).
  apply is_chr_eq in Hx. subst x.
  exfalso. exact (exec_of_In _ _ _ _ (htmlTag_complete prev b c Hb) E).
Qed.

Lemma thins_nothing q cap m : thins q (with_nothing cap) m.
Proof. apply subseq_nil_l. Qed.

Lemma strip_tags_no_tag : forall s skip prev,
  has_tag (replace_from htmlTag with_nothing skip prev s) = false.
Proof.
  induction s as [|c s IH]; intros skip prev.
  - destruct skip; reflexivity.
  - destruct skip as [|k]; cbn [replace_from]; [|apply IH].
    destruct (exec htmlTag prev (c :: s)) as [[m cap]|] eqn:E.
    + destruct (exec_In _ _ _ _ _ E) as (rest & Hin).
      apply (matches_nonempty htmlTag eq_refl) in Hin.
      destruct m; [contradiction|]. cbn [length with_nothing app]. apply IH.
    + cbn [has_tag]. rewrite IH, orb_false_r.
      destruct (is_chr "<" c) eqn:Ec; [|reflexivity]. cbn [andb].
      apply is_chr_eq in Ec. subst c. apply htmlTag_none in E.
      destruct (existsb _ (replace_from _ _ _ _ _)) eqn:Ex; [|reflexivity].
      apply existsb_exists in Ex as (x & Hx & Hq).
      pose proof (replace_from_thins (is_chr ">") htmlTag with_nothing
                    (fun cap m _ => thins_nothing _ cap m) s 0 (Some (ch "<"))) as Ht.
      apply (thins_In _ _ _ x Ht Hq) in Hx. cbn [skipn] in Hx.
      assert (existsb (is_chr ">") s = true) by (apply existsb_exists; eauto).
      congruence.
Qed.

Lemma existsb_filter_angle s :
  existsb (is_chr ">") (filter is_angle s) = existsb (is_chr ">") s.
Proof.
  induction s as [|c s IH]; [reflexivity|]. cbn [filter existsb]. unfold is_angle at 1.
  destruct (is_chr ">" c) eqn:E.
  - rewrite orb_true_r. cbn [existsb]. now rewrite E.
  - rewrite orb_false_r. destruct (is_chr "<" c); cbn [existsb orb]; rewrite ?E; exact IH.
Qed.

Lemma has_tag_filter s : has_tag (filter is_angle s) = has_tag s.
Proof.
  induction s as [|c s IH]; [reflexivity|]. cbn [filter has_tag]. unfold is_angle at 1.
  destruct (is_chr "<" c) eqn:E; cbn [orb andb].
  - cbn [has_tag]. now rewrite E, existsb_filter_angle, IH.
  - destruct (is_chr ">" c); [cbn [has_tag]; rewrite E|]; exact IH.
Qed.

Lemma has_tag_subseq a b : subseq a b -> has_tag a = true -> has_tag b = true.
Proof.
  induction 1 as [|x a b H IH|x a b H IH]; cbn [has_tag]; intro Ha.
  - discriminate.
  - rewrite (IH Ha). apply orb_true_r.
  - apply orb_true_iff in Ha as [Ha|Ha].
    + apply andb_true_iff in Ha as [-> Ha]. cbn [andb].
      apply existsb_exists in Ha as (y & Hy & Hq).
      assert (existsb (is_chr ">") b = true) as ->; [|reflexivity].
      apply existsb_exists. exists y. split; [|assumption].
      exact (subseq_In _ _ _ H Hy).
    + rewrite (IH Ha). apply orb_true_r.
Qed.

Lemma has_tag_thins out inp :
  thins is_angle out inp -> has_tag inp = false -> has_tag out = false.
Proof.
  intros H Hin. destruct (has_tag out) eqn:E; [|reflexivity].
  rewrite <- has_tag_filter in E. apply (has_tag_subseq _ _ H) in E.
  rewrite has_tag_filter in E. congruence.
Qed.

Lemma thins_group1 q cap m :
  (forall t, cap = Some t -> subseq t m) -> thins q (with_group1 cap) m.
Proof.
  intro H. destruct cap as [t|]; cbn [with_group1].
  - apply subseq_thins. now apply H.
  - apply subseq_nil_l.
Qed.

Lemma thins_space q cap m : q (ch " ") = false -> thins q (with_text '" " cap) m.
Proof.
  intro H. unfold thins, with_text. change ('" ") with [ch " "].
  cbn [filter]. rewrite H. apply subseq_nil_l.
Qed.

Lemma clean_thins q s : q (ch " ") = false -> thins q (clean s) s.
Proof.
  intro Hq. unfold clean, replace_all.
  eapply thins_trans; [apply subseq_thins, trim_subseq|].
  eapply thins_trans;
    [apply (replace_from_thins q spaces _ (fun cap m _ => thins_space q cap m Hq) _ 0 None)|].
  eapply thins_trans;
    [apply (replace_from_thins q markers _ (fun cap m _ => thins_nothing q cap m) _ 0 None)|].
  eapply thins_trans;
    [apply (replace_from_thins q markdownLink _ (thins_group1 q) _ 0 None)|].
  apply (replace_from_thins q htmlTag _ (fun cap m _ => thins_nothing q cap m) _ 0 None).
Qed.


Lemma clean_no_tag s : has_tag (clean s) = false.
Proof.
  unfold clean, replace_all.
  set (s1 := replace_from htmlTag with_nothing 0 None s).
  assert (H1 : has_tag s1 = false) by apply strip_tags_no_tag.
  revert H1. apply has_tag_thins.
  eapply thins_trans; [apply subseq_thins, trim_subseq|].
  eapply thins_trans;
    [apply (replace_from_thins is_angle spaces _
              (fun cap m _ => thins_space is_angle cap m eq_refl) _ 0 None)|].
  eapply thins_trans;
    [apply (replace_from_thins is_angle markers _
              (fun cap m _ => thins_nothing is_angle cap m) _ 0 None)|].
  apply (replace_from_thins is_angle markdownLink _ (thins_group1 is_angle) _ 0 None).
Qed.

(** ** Emphasis markers *)

Lemma markers_star prev s : exec markers prev (ch "*" :: s) <> None.
Proof.
  apply (exec_of_In _ _ _ ([ch "*"], None, s)). unfold markers.
  do 4 apply matches_alt_r. apply matches_alt_l. apply chr_In.
Qed.

Lemma markers_underscore prev s : exec markers prev (ch "_" :: s) <> None.
Proof.
  apply (exec_of_In _ _ _ ([ch "_"], None, s)). unfold markers.
  do 5 apply matches_alt_r. apply chr_In.
Qed.

Lemma strip_markers_no_emphasis : forall s skip prev,
  existsb is_emphasis (replace_from markers with_nothing skip prev s) = false.
Proof.
  induction s as [|c s IH]; intros skip prev.
  - destruct skip; [|reflexivity]. cbn [replace_from].
    unfold exec, markers, Plus. cbn [matches].
    destruct (at_line_start prev); reflexivity.
  - destruct skip as [|k]; cbn [replace_from]; [|apply IH].
    destruct (exec markers prev (c :: s)) as [[m cap]|] eqn:E.
    + destruct (exec_In _ _ _ _ _ E) as (rest & Hin).
      apply (matches_nonempty markers eq_refl) in Hin.
      destruct m; [contradiction|]. cbn [length with_nothing app]. apply IH.
    + cbn [existsb]. rewrite IH, orb_false_r. unfold is_emphasis.
      destruct (is_chr "*" c) eqn:E1.
      { apply is_chr_eq in E1. subst c. now apply markers_star in E. }
      destruct (is_chr "_" c) eqn:E2.
      { apply is_chr_eq in E2. subst c. now apply markers_underscore in E. }
      reflexivity.
Qed.

Lemma clean_no_emphasis s : existsb is_emphasis (clean s) = false.
Proof.
  destruct (existsb is_emphasis (clean s)) eqn:E; [|reflexivity].
  apply existsb_exists in E as (x & Hx & Hq).
  unfold clean, replace_all in Hx.
  set (s3 := replace_from markers with_nothing 0 None _) in Hx.
  assert (Ht : thins is_emphasis
                 (trim (replace_from spaces (with_text '" ") 0 None s3)) s3).
  { eapply thins_trans; [apply subseq_thins, trim_subseq|].
    apply (replace_from_thins is_emphasis spaces _
             (fun cap m _ => thins_space is_emphasis cap m eq_refl) _ 0 None). }
  apply (thins_In _ _ _ x Ht Hq) in Hx.
  assert (existsb is_emphasis s3 = true) by (apply existsb_exists; eauto).
  unfold s3 in H. rewrite strip_markers_no_emphasis in H. discriminate.
Qed.

(** ** Whitespace *)

Lemma exec_spaces prev s :
  exec spaces prev s =
  match s with
  | c :: d :: s' =>
      if is_space c && is_space d
      then Some (c :: d :: take_while is_space s', None)
      else None
  | _ => None
  end.
Proof.
  unfold exec, spaces, Plus. destruct s as [|c [|d s']]; cbn [matches].
  - reflexivity.
  - destruct (is_space c); reflexivity.
  - destruct (is_space c); [|reflexivity]. cbn [flat_map last_char app].
    destruct (is_space d); [|reflexivity]. cbn [flat_map last_char app andb].
    destruct (star_first is_space s') as [tl ->]. reflexivity.
Qed.

Lemma skipn_take_while p s :
  skipn (length (take_while p s)) s = drop_while p s.
Proof.
  induction s as [|c s IH]; cbn [take_while drop_while]; [reflexivity|].
  destruct (p c); [exact IH|reflexivity].
Qed.

Lemma drop_while_head s : starts_ws (drop_while is_space s) = false.
Proof.
  induction s as [|c s IH]; cbn [drop_while]; [reflexivity|].
  destruct (is_space c) eqn:E; [exact IH|]. cbn [starts_ws]. exact E.
Qed.

Lemma collapse_inv : forall s skip prev,
  skip = 0 \/ starts_ws (skipn skip s) = false ->
  ws_pair_free (replace_from spaces (with_text '" ") skip prev s) = true /\
  (starts_ws (skipn skip s) = false ->
   starts_ws (replace_from spaces (with_text '" ") skip prev s) = false).
Proof.
  induction s as [|c s IH]; intros skip prev Hskip.
  - destruct skip; cbn [replace_from]; rewrite ?exec_spaces; auto.
  - destruct skip as [|k]; cbn [replace_from skipn].
    + rewrite exec_spaces. destruct s as [|d s'].
      * cbn [replace_from]. rewrite exec_spaces. cbn. rewrite andb_false_r. auto.
      * destruct (is_space c) eqn:Ec; cbn [andb].
        -- destruct (is_space d) eqn:Ed.
           ++ cbn [length].
              destruct (IH (S (length (take_while is_space s'))) (Some c)) as [H1 H2].
              { right. cbn [skipn]. rewrite skipn_take_while. apply drop_while_head. }
              cbn [skipn] in H2. rewrite skipn_take_while in H2.
              specialize (H2 (drop_while_head s')).
              match goal with
              | |- context [with_text ?t None ++ ?X] =>
                  change (with_text t None ++ X) with (ch " " :: X)
              end.
              split.
              ** cbn [ws_pair_free]. rewrite H2, H1. rewrite andb_false_r. reflexivity.
              ** cbn [starts_ws]. rewrite Ec. discriminate.
           ++ destruct (IH 0 (Some c) (or_introl eq_refl)) as [H1 H2].
              cbn [skipn] in H2. specialize (H2 Ed).
              split.
              ** cbn [ws_pair_free]. rewrite H2, H1, andb_false_r. reflexivity.
              ** cbn [starts_ws]. rewrite Ec. discriminate.
        -- destruct (IH 0 (Some c) (or_introl eq_refl)) as [H1 H2].
           split.
           ++ cbn [ws_pair_free]. rewrite Ec, H1. reflexivity.
           ++ cbn [starts_ws]. auto.
    + destruct Hskip as [Hskip|Hskip]; [discriminate|]. cbn [skipn] in Hskip.
      apply IH. now right.
Qed.


Lemma trim_start_head s : starts_ws (trim_start s) = false.
Proof.
  induction s as [|c s IH]; cbn [trim_start]; [reflexivity|].
  destruct (is_space c) eqn:E; [exact IH|]. cbn [starts_ws]. exact E.
Qed.

Lemma trim_infix s : exists a b, s = a ++ trim s ++ b /\ trim_start s = trim s ++ b.
Proof.
  unfold trim.
  destruct (trim_start_suffix s) as [a Ha].
  destruct (trim_start_suffix (rev (trim_start s))) as [b Hb].
  exists a, (rev b).
  assert (E : trim_start s = rev (trim_start (rev (trim_start s))) ++ rev b).
  { rewrite <- rev_app_distr, <- Hb. now rewrite rev_involutive. }
  split; [|exact E]. rewrite <- E. exact Ha.
Qed.

Lemma trim_leading s c rest : trim s = c :: rest -> is_space c = false.
Proof.
  intro H. destruct (trim_infix s) as (a & b & _ & E).
  pose proof (trim_start_head s) as Hh. rewrite E, H in Hh. exact Hh.
Qed.



(** ** Plain text *)

Lemma replace_from_id (q : char -> bool) r repl :
  (forall prev, exec r prev [] = None) ->
  (forall c prev s, q c = true -> exec r prev (c :: s) = None) ->
  forall s prev, forallb q s = true -> replace_from r repl 0 prev s = s.
Proof.
  intros H0 H1. induction s as [|c s IH]; intros prev Hs; cbn [replace_from].
  - now rewrite H0.
  - cbn [forallb] in Hs. apply andb_true_iff in Hs as [Hc Hs].
    rewrite (H1 c prev s Hc), (IH _ Hs). reflexivity.
Qed.

Lemma plain_parts c :
  plain c = true ->
  is_space c = false /\ N.eqb c (ch "<") = false /\ N.eqb c (ch "[") = false /\
  N.eqb c (ch "#") = false /\ N.eqb c (ch "-") = false /\
  N.eqb c (ch "*") = false /\ N.eqb c (ch "_") = false.
Proof.
  unfold plain, not_chr. intro H.
  repeat (apply andb_true_iff in H as [H ?]).
  repeat match goal with H : negb _ = true |- _ => apply negb_true_iff in H end.
  auto 10.
Qed.

Lemma trim_start_id s : starts_ws s = false -> trim_start s = s.
Proof. destruct s as [|c s]; cbn; [reflexivity|]. now intros ->. Qed.

Lemma trim_id s : forallb (fun c => negb (is_space c)) s = true -> trim s = s.
Proof.
  intro H. unfold trim.
  assert (Hh : forall l, forallb (fun c => negb (is_space c)) l = true -> starts_ws l = false).
  { intros [|c l]; cbn; [reflexivity|]. intro Hl.
    apply andb_true_iff in Hl as [Hl _]. now apply negb_true_iff in Hl. }
  rewrite (trim_start_id s (Hh s H)).
  rewrite trim_start_id; [apply rev_involutive|].
  apply Hh. rewrite forallb_forall in *. intros x Hx. apply H. now apply in_rev.
Qed.

Lemma clean_plain s : forallb plain s = true -> clean s = s.
Proof.
  intro H. unfold clean, replace_all.
  rewrite (replace_from_id plain htmlTag); [| reflexivity | | exact H].
  2:{ intros c prev s' Hc. apply plain_parts in Hc as (_ & Hc & _).
      unfold exec, htmlTag. cbn [matches]. now rewrite Hc. }
  rewrite (replace_from_id plain markdownLink); [| reflexivity | | exact H].
  2:{ intros c prev s' Hc. apply plain_parts in Hc as (_ & _ & Hc & _).
      unfold exec, markdownLink. cbn [matches]. now rewrite Hc. }
  rewrite (replace_from_id plain markers); [| | | exact H].
  2:{ intro prev. unfold exec, markers, Plus. cbn [matches].
      destruct (at_line_start prev); reflexivity. }
  2:{ intros c prev s' Hc. apply plain_parts in Hc as (_ & _ & _ & H1 & H2 & H3 & H4).
      unfold exec, markers, Plus, is_chr. cbn [matches].
      destruct (at_line_start prev); cbn [flat_map map app last_char];
        rewrite ?H1, ?H2, ?H3, ?H4; reflexivity. }
  rewrite (replace_from_id plain spaces); [| reflexivity | | exact H].
  2:{ intros c prev s' Hc. apply plain_parts in Hc as (Hc & _).
      rewrite exec_spaces. destruct s'; [reflexivity|]. now rewrite Hc. }
  apply trim_id. rewrite forallb_forall in *. intros x Hx.
  apply H in Hx. apply plain_parts in Hx as (-> & _). reflexivity.
Qed.

(** C10: a null, undefined or empty text, like any falsy value, cleans
    to the empty string, and cleaning a string never throws. *)
Theorem cleanDescriptionText_total :
  cleanDescriptionText JNull = Ok [] /\
  cleanDescriptionText JUndefined = Ok [] /\
  cleanDescriptionText (JStr []) = Ok [] /\
  (forall text, truthy text = false -> cleanDescriptionText text = Ok []) /\
  (forall s, exists out, cleanDescriptionText (JStr s) = Ok out).
Proof.
  repeat split.
  - intros text H. unfold cleanDescriptionText. now rewrite H.
  - intros [|c s]; eexists; reflexivity.
Qed.

End CleanFacts.

Module TokenFacts.
Import TokenManager.


Lemma nth_set_call cs c v x :
  nth_error cs c = Some x -> nth_error (set_call cs c v) c = Some v.
Proof.
  revert c; induction cs as [|y cs IH]; intros [|c]; cbn; try discriminate; auto.
Qed.


Lemma in_flight_set_call cs c v x :
  nth_error cs c = Some x ->
  in_flight (set_call cs c v) + (if is_exchanging x then 1 else 0)
  = in_flight cs + (if is_exchanging v then 1 else 0).
Proof.
  revert c; induction cs as [|y cs IH]; intros [|c]; cbn [nth_error set_call];
    try discriminate.
  - intro H. injection H as ->. unfold in_flight. cbn [filter].
    destruct (is_exchanging x), (is_exchanging v); cbn [length]; lia.
  - intro H. specialize (IH c H). unfold in_flight in *. cbn [filter].
    destruct (is_exchanging y); cbn [length]; lia.
Qed.




Lemma run_app evs1 evs2 w :
  run w (evs1 ++ evs2)
  = match run w evs1 with Some w1 => run w1 evs2 | None => None end.
Proof.
  revert w; induction evs1 as [|e evs1 IH]; intro w; cbn [run app]; [reflexivity|].
  destruct (step w e); [apply IH|reflexivity].
Qed.

Lemma burst n : exists w,
  run start (repeat Call (S n)) = Some w /\ posts w = 1 /\
  isFetchingToken (st w) = true.
Proof.
  induction n as [|n (w & Hr & Hp & Hf)].
  - eexists. repeat split; reflexivity.
  - exists (enter w). 
    replace (repeat Call (S (S n))) with (repeat Call (S n) ++ [Call]).
    2:{ change [Call] with (repeat Call 1). rewrite <- repeat_app.
        f_equal. lia. }
    rewrite run_app, Hr. cbn [run step]. unfold enter. rewrite Hf.
    cbn [posts st]. auto.
Qed.








(** The exchange succeeds, but later than the timer of the second
    caller: that caller returns the [null] stored before. *)
Example single_flight_slow :
  exists w,
    run start slow_exchange = Some w /\
    posts w = 1 /\
    calls w = [Returned (JStr '"T"); Returned JNull].
Proof. eexists. repeat split. Qed.

(** C7: when the exchange fails, the stored token and its expiry are
    cleared, whatever was held before, the caller that started the
    exchange gets an error that carries the reason, and no further
    request is sent. *)
Theorem exchange_failure_clears w c r now message :
  nth_error (calls w) c = Some Exchanging ->
  failed r message ->
  exists w',
    step w (PostSettles c r now) = Some w' /\
    accessToken (st w') = JNull /\
    tokenExpiry (st w') = None /\
    isFetchingToken (st w') = false /\
    nth_error (calls w') c = Some (Thrown (failedPrefix ++ message)) /\
    posts w' = posts w /\
    in_flight (calls w') = in_flight (calls w) - 1.
Proof.
  intros Hc Hf. exists (fail w c message).
  assert (E : settle w c r now = fail w c message).
  { destruct Hf as [m|data Hd]; cbn [settle]; [reflexivity|].
    rewrite Hd. cbn [truthy]. now rewrite andb_false_r. }
  cbn [step]. rewrite Hc, E. repeat split.
  - unfold fail. cbn [calls]. exact (nth_set_call _ _ _ _ Hc).
  - unfold fail. cbn [calls].
    pose proof (in_flight_set_call (calls w) c (Thrown (failedPrefix ++ message)) _ Hc) as H.
    cbn [is_exchanging] in H. lia.
Qed.

Lemma exchange_failure_clears_witness :
  exists w',
    step example_refresh (PostSettles 0 (Resolved (JObj [])) 500) = Some w' /\
    accessToken (st w') = JNull /\
    tokenExpiry (st w') = None /\
    isFetchingToken (st w') = false /\
    nth_error (calls w') 0 = Some (Thrown (failedPrefix ++ invalidResponse)) /\
    posts w' = posts example_refresh /\
    in_flight (calls w') = in_flight (calls example_refresh) - 1.
Proof.
  apply (exchange_failure_clears example_refresh 0 (Resolved (JObj [])) 500
           invalidResponse).
  - reflexivity.
  - apply failed_no_token. reflexivity.
Defined.

End TokenFacts.

Module PacingFacts.
Import Pacing.
Local Open Scope Z_scope.

Lemma spaced_snoc ts t :
  spaced ts ->
  (forall front t0, ts = front ++ [t0] -> BASE_REQUEST_DELAY_MS <= t - t0) ->
  spaced (ts ++ [t]).
Proof.
  induction ts as [|t1 ts IH]; intros Hs Hl; [exact I|].
  destruct ts as [|t2 ts].
  - cbn. split; [|exact I]. apply (Hl [] t1 eq_refl).
  - cbn [spaced] in Hs. destruct Hs as [H12 Hs].
    change (BASE_REQUEST_DELAY_MS <= t2 - t1 /\ spaced ((t2 :: ts) ++ [t])).
    split; [exact H12|]. apply IH; [exact Hs|].
    intros front t0 E. apply (Hl (t1 :: front) t0). cbn [app]. now rewrite E.
Qed.

Lemma dispatch_inv w c :
  turn_inv w ->
  lastRequestTime w + BASE_REQUEST_DELAY_MS <= clock w ->
  turn_inv (dispatch w c []).
Proof.
  intros [Hs Hl Ha] Hc. split; cbn [dispatch dispatched lastRequestTime asleep].
  - rewrite map_app. cbn [map snd]. apply spaced_snoc; [exact Hs|].
    intros front t0 E.
    destruct (dispatched w) as [|p l] eqn:Ed using rev_ind.
    + destruct front; discriminate E.
    + rewrite map_app in E. cbn [map] in E. apply app_inj_tail in E as [_ E].
      destruct p as [c0 t]. cbn [snd] in E. subst t0.
      rewrite (Hl l c0 t eq_refl). lia.
  - intros front c0 t E. apply app_inj_tail in E as [_ E]. congruence.
  - now left.
Qed.

Lemma step_turn_inv w e w' :
  turn_inv w ->
  match e with Enter _ => asleep w = [] | _ => True end ->
  step w e = Some w' -> turn_inv w'.
Proof.
  intros Hinv Hseq Hstep. destruct e as [d|c|c]; cbn [step] in Hstep.
  - destruct (0 <=? d); [|discriminate]. injection Hstep as <-.
    destruct Hinv as [Hs Hl Ha]. split; assumption.
  - injection Hstep as <-. unfold enter.
    destruct (clock w - lastRequestTime w <? BASE_REQUEST_DELAY_MS) eqn:E.
    + destruct Hinv as [Hs Hl Ha].
      split; cbn [dispatched lastRequestTime asleep]; try assumption.
      right. rewrite Hseq. eexists. split; [reflexivity|].
      cbn [since delay]. lia.
    + rewrite Hseq. apply dispatch_inv; [assumption|].
      apply Z.ltb_ge in E. lia.
  - destruct (take c (asleep w)) as [[x rest]|] eqn:E; [|discriminate].
    destruct (since x + delay x <=? clock w) eqn:Ew; [|discriminate].
    injection Hstep as <-. apply Z.leb_le in Ew.
    destruct (inv_asleep w Hinv) as [Ha|(y & Ha & Hy)]; rewrite Ha in E.
    + discriminate.
    + cbn [take] in E. destruct (Nat.eqb (who y) c); [|discriminate].
      injection E as <- <-. apply dispatch_inv; [assumption|lia].
Qed.

Lemma sequential_spaced evs : forall w w',
  turn_inv w -> sequential w evs -> run w evs = Some w' ->
  spaced (map snd (dispatched w')).
Proof.
  induction evs as [|e evs IH]; cbn [run sequential]; intros w w' Hinv Hseq Hrun.
  - injection Hrun as <-. apply Hinv.
  - destruct Hseq as [He Hseq].
    destruct (step w e) as [w1|] eqn:E; [|discriminate].
    exact (IH _ _ (step_turn_inv _ _ _ Hinv He E) Hseq Hrun).
Qed.

Lemma start_inv : turn_inv start.
Proof.
  split; cbn.
  - exact I.
  - intros front c t E. destruct front; discriminate E.
  - now left.
Qed.

(** X1: requests that go through the pacing step of the interceptor
    (lines 104-112) one after the other pass line 112, where the
    last-request time is written, at least the interval apart, and a
    request that comes too early sleeps for exactly the time that is
    missing.  The times are those of line 112: the token check that
    follows may hold a request longer before it is sent. *)
Theorem pacing_in_turn evs w :
  run start evs = Some w ->
  sequential start evs ->
  spaced (map snd (dispatched w)) /\
  (forall c,
     clock w - lastRequestTime w < BASE_REQUEST_DELAY_MS ->
     asleep (enter w c)
     = asleep w ++ [{| who := c; since := clock w;
                       delay := BASE_REQUEST_DELAY_MS
                                - (clock w - lastRequestTime w) |}] /\
     dispatched (enter w c) = dispatched w /\
     lastRequestTime (enter w c) = lastRequestTime w).
Proof.
  intros Hrun Hseq. split.
  - exact (sequential_spaced evs start w start_inv Hseq Hrun).
  - intros c H. unfold enter. apply Z.ltb_lt in H. rewrite H. repeat split.
Qed.

Lemma pacing_in_turn_witness :
  exists w,
    run start in_turn = Some w /\
    dispatched w = [(0%nat, 5000); (1%nat, 6100); (2%nat, 7200)] /\
    spaced (map snd (dispatched w)).
Proof.
  eexists. split; [reflexivity|]. split; [reflexivity|].
  refine (proj1 (pacing_in_turn in_turn _ eq_refl _)).
  cbn. repeat split.
Defined.

(** C2 on overlapping requests: two requests that enter the interceptor
    while it is too early for both read the same last-request time,
    wake at the same moment and are dispatched 0 ms apart. *)
Theorem pacing_overlap :
  exists w,
    run start overlapping = Some w /\
    dispatched w = [(0%nat, 5000); (1%nat, 6100); (2%nat, 6100)] /\
    ~ spaced (map snd (dispatched w)).
Proof.
  eexists. split; [reflexivity|]. split; [reflexivity|].
  cbn. unfold BASE_REQUEST_DELAY_MS. lia.
Qed.

End PacingFacts.

Module RetryFacts.
Import Retry.
Local Open Scope Z_scope.

Section Policy.
Variable error : Type.
Variable status : error -> option Z.
Variable lib : error -> bool.
Variable response : Type.

Lemma request_spec left : forall count (upstream : nat -> attempt error response),
  exists k, (k <= left)%nat /\
    fst (request status lib left count upstream)
    = map (fun i => retryDelay (count + i)) (seq 1 k) /\
    snd (request status lib left count upstream) = upstream (count + k)%nat /\
    (forall i, (i < k)%nat ->
       exists e, upstream (count + i)%nat = Fails e /\
                 retryCondition status lib e = true) /\
    (forall e, upstream (count + k)%nat = Fails e -> (k < left)%nat ->
       retryCondition status lib e = false).
Proof.
  assert (Hstop : forall left count (upstream : nat -> attempt error response) out,
    request status lib left count upstream = ([], out) ->
    out = upstream count ->
    (forall e, upstream count = Fails e -> (0 < left)%nat ->
               retryCondition status lib e = false) ->
    exists k, (k <= left)%nat /\
    fst (request status lib left count upstream)
    = map (fun i => retryDelay (count + i)) (seq 1 k) /\
    snd (request status lib left count upstream) = upstream (count + k)%nat /\
    (forall i, (i < k)%nat ->
       exists e, upstream (count + i)%nat = Fails e /\
                 retryCondition status lib e = true) /\
    (forall e, upstream (count + k)%nat = Fails e -> (k < left)%nat ->
       retryCondition status lib e = false)).
  { intros l c u out E -> H. exists 0%nat. rewrite E, Nat.add_0_r.
    split; [lia|]. split; [reflexivity|]. split; [reflexivity|].
    split; [intros; lia|exact H]. }
  induction left as [|left IH]; intros count upstream.
  - apply (Hstop _ _ _ (upstream count)); cbn [request].
    + destruct (upstream count); reflexivity.
    + reflexivity.
    + intros; lia.
  - destruct (upstream count) as [r|e] eqn:E.
    + apply (Hstop _ _ _ (upstream count)); cbn [request]; rewrite E.
      * reflexivity.
      * reflexivity.
      * discriminate.
    + destruct (retryCondition status lib e) eqn:Ec.
      * destruct (IH (S count) upstream) as (k & Hk & Hw & Hf & Hi & Hl).
        cbn [request]. rewrite E, Ec.
        destruct (request status lib left (S count) upstream) as [waits out].
        cbn [fst snd] in *. exists (S k).
        split; [lia|]. split; [|split; [|split]].
        -- cbn [seq map]. rewrite Nat.add_1_r. f_equal.
           rewrite Hw, <- (seq_shift k 1), map_map. apply map_ext.
           intro i. f_equal. lia.
        -- rewrite Hf. f_equal. lia.
        -- intros [|i] Hlt.
           ++ exists e. rewrite Nat.add_0_r. auto.
           ++ destruct (Hi i ltac:(lia)) as (e' & He' & Hc').
              exists e'. split; [|exact Hc']. rewrite <- He'. f_equal. lia.
        -- intros e' He' Hlt. apply Hl; [|lia]. rewrite <- He'. f_equal. lia.
      * apply (Hstop _ _ _ (upstream count)); cbn [request]; rewrite E, ?Ec.
        -- reflexivity.
        -- reflexivity.
        -- intros e' He' _. congruence.
Qed.

Hypothesis client_errors_are_final : forall e s,
  status e = Some s -> 400 <= s < 500 -> s <> 429 -> lib e = false.

(** C3: a failed attempt is retried exactly when its error is a 429
    response or a network or idempotent-request error and retries are
    left; retry n waits 2^(n-1) seconds (1 s, 2 s, 4 s); at most three
    retries are made and the caller gets the outcome of the last
    attempt; any other 4xx response is handed to the caller at once. *)
Theorem retry_policy :
  (forall e, retryCondition status lib e = true <->
             status e = Some 429 \/ lib e = true) /\
  (retryDelay 1 = 1000 /\ retryDelay 2 = 2000 /\ retryDelay 3 = 4000) /\
  (forall upstream : nat -> attempt error response,
     exists k, (k <= 3)%nat /\
       fst (send status lib upstream) = firstn k [1000; 2000; 4000] /\
       snd (send status lib upstream) = upstream k /\
       (forall i, (i < k)%nat ->
          exists e, upstream i = Fails e /\ retryCondition status lib e = true) /\
       (forall e, upstream k = Fails e -> (k < 3)%nat ->
          retryCondition status lib e = false)) /\
  (forall (upstream : nat -> attempt error response) e s,
     upstream 0%nat = Fails e -> status e = Some s ->
     400 <= s < 500 -> s <> 429 ->
     send status lib upstream = ([], Fails e)).
Proof.
  split; [|split; [|split]].
  - intro e. unfold retryCondition. rewrite orb_true_iff.
    destruct (status e) as [s|].
    + rewrite Z.eqb_eq. split; (intros [H|H]; [left|right]; congruence).
    + split; (intros [H|H]; [discriminate|now right]).
  - repeat split.
  - intro upstream. unfold send.
    destruct (request_spec RETRY_COUNT 0 upstream) as (k & Hk & Hw & Hf & Hi & Hl).
    exists k. cbn [Nat.add] in *. unfold RETRY_COUNT in *.
    repeat split; try assumption.
    rewrite Hw. destruct k as [|[|[|[|k]]]]; try reflexivity. lia.
  - intros upstream e s E Hs Hr Hn. unfold send, RETRY_COUNT. cbn [request].
    rewrite E. unfold retryCondition. rewrite Hs.
    rewrite (client_errors_are_final e s Hs Hr Hn).
    apply Z.eqb_neq in Hn. now rewrite Hn.
Qed.

End Policy.

Lemma model_client_errors_are_final e s :
  response_status e = Some s -> 400 <= s < 500 -> s <> 429 ->
  isNetworkOrIdempotentRequestError e = false.
Proof.
  intros Hs Hr _. unfold isNetworkOrIdempotentRequestError. rewrite Hs.
  assert ((500 <=? s) = false) as -> by (apply Z.leb_gt; lia).
  apply andb_false_r.
Qed.

Lemma retry_policy_witness :
  send response_status isNetworkOrIdempotentRequestError not_found
  = ([], Fails (http 404)).
Proof.
  refine (proj2 (proj2 (proj2
            (retry_policy axiosError response_status
               isNetworkOrIdempotentRequestError Z
               model_client_errors_are_final)))
          not_found (http 404) 404 eq_refl eq_refl _ _); lia.
Defined.

(** Three 429 answers in a row are retried after 1 s, 2 s and 4 s; a
    fourth one goes to the caller. *)
Example throttled_request :
  send response_status isNetworkOrIdempotentRequestError throttled
  = ([1000; 2000; 4000], Succeeds 200) /\
  send response_status isNetworkOrIdempotentRequestError
       (fun _ => @Fails axiosError Z (http 429))
  = ([1000; 2000; 4000], Fails (http 429)).
Proof. split; reflexivity. Qed.

End RetryFacts.

Module PostsFacts.
Import Posts JsFacts.

(** C6: the post type is decided by the first check that matches, in
    the order video flag, gallery flag, self-post flag, post hint
    "image", and is "link" when none does. *)
Theorem postType_precedence post :
  is_nullish post = false ->
  (flag post '"is_video" = true -> postType post = Ok '"video") /\
  (flag post '"is_video" = false -> flag post '"is_gallery" = true ->
   postType post = Ok '"gallery") /\
  (flag post '"is_video" = false -> flag post '"is_gallery" = false ->
   flag post '"is_self" = true -> postType post = Ok '"text") /\
  (flag post '"is_video" = false -> flag post '"is_gallery" = false ->
   flag post '"is_self" = false -> own post '"post_hint" = JStr '"image" ->
   postType post = Ok '"image") /\
  (flag post '"is_video" = false -> flag post '"is_gallery" = false ->
   flag post '"is_self" = false -> own post '"post_hint" <> JStr '"image" ->
   postType post = Ok '"link").
Proof.
  intro Hp. unfold flag, postType. rewrite !(get_ok _ _ Hp). cbn [bind].
  repeat split.
  - now intros ->.
  - now intros -> ->.
  - now intros -> -> ->.
  - now intros -> -> -> ->.
  - intros -> -> -> H. apply is_str_false in H. rewrite H.
    destruct (is_str (own post '"post_hint") '"link"); reflexivity.
Qed.

Lemma postType_precedence_witness :
  is_nullish example_video = false /\
  postType example_video = Ok '"video".
Proof.
  split; [reflexivity|].
  exact (proj1 (postType_precedence example_video eq_refl) eq_refl).
Defined.

Lemma lookup_nodup entries : NoDup (map fst entries) ->
  forall k v, In (k, v) entries -> lookup entries k = v.
Proof.
  induction entries as [|[k' v'] entries IH]; cbn [map fst lookup]; intros Hnd k v Hin.
  - contradiction.
  - inversion Hnd as [|? ? Hnotin Hnd']; subst.
    destruct Hin as [E|Hin].
    + injection E as -> ->. now rewrite (proj2 (str_eqb_eq k k) eq_refl).
    + destruct (str_eqb k' k) eqn:E; [|now apply IH].
      apply str_eqb_eq in E. subst k'. exfalso. apply Hnotin.
      apply in_map_iff. exists (k, v). auto.
Qed.

Lemma map_lookup entries (f : json -> json) : NoDup (map fst entries) ->
  map (fun k => f (lookup entries k)) (map fst entries) = map f (map snd entries).
Proof.
  intro Hnd. rewrite !map_map. apply map_ext_in. intros [k v] Hin. cbn [fst snd].
  now rewrite (lookup_nodup entries Hnd k v Hin).
Qed.

Lemma format_extension m :
  m = JUndefined \/ m = JNull \/ (exists mime, m = JStr mime) ->
  exists sub, mimeSubtype m = Ok sub /\
    ToString (or_else sub (JStr '"jpg"))
    = Ok match m with
         | JStr mime => match subtype mime with Some t => t | None => '"jpg" end
         | _ => '"jpg"
         end.
Proof.
  intros [->|[->|[mime ->]]]; cbn [mimeSubtype].
  - eexists; split; reflexivity.
  - eexists; split; reflexivity.
  - eexists; split; [reflexivity|]. unfold subtype.
    destruct (split_on (ch "/") mime) as [|a [|[|c b] l]]; reflexivity.
Qed.

Lemma galleryItem_result entries k :
  entry_ok (lookup entries k) ->
  galleryItem (JObj entries) k = Ok (item_result (lookup entries k)).
Proof.
  intros (Hn & Hm & Hid). unfold galleryItem, item_result.
  unfold valid_image in *.
  cbn [get is_nullish own bind]. rewrite !(get_ok _ _ Hn). cbn [bind].
  destruct (is_str (own (lookup entries k) '"status") '"valid"); [|reflexivity].
  destruct (is_str (own (lookup entries k) '"e") '"Image"); [|reflexivity].
  cbn [andb]. destruct (format_extension _ Hm) as (sub & -> & E). cbn [bind].
  rewrite (ToString_printable _ (Hid eq_refl)), E. cbn [bind].
  reflexivity.
Qed.

Lemma filter_item_results items :
  filter (fun url => negb (is_null url)) (map item_result items)
  = map gallery_url (filter valid_image items).
Proof.
  induction items as [|item items IH]; [reflexivity|].
  cbn [map filter].
  change (item_result item)
    with (if valid_image item then gallery_url item else JNull).
  destruct (valid_image item); cbn [is_null negb gallery_url map]; rewrite IH; reflexivity.
Qed.

(** C8: the gallery URL list of a gallery post holds, in the order of
    the metadata map, exactly one URL [https://i.redd.it/<id>.<ext>]
    for each entry that is a valid image; every other entry is
    skipped.  The entries are objects whose MIME type, if any, is a
    string, and the id of a valid image is a value that prints. *)
Theorem galleryUrls_valid_images post entries :
  flag post '"is_gallery" = true ->
  own post '"media_metadata" = JObj entries ->
  NoDup (map fst entries) ->
  Forall entry_ok (map snd entries) ->
  galleryUrls post
  = Ok (JArr (map gallery_url (filter valid_image (map snd entries)))).
Proof.
  intros Hg Hm Hnd Hok. unfold flag in Hg.
  assert (Hp : is_nullish post = false) by (destruct post; try reflexivity; discriminate).
  unfold galleryUrls. rewrite !(get_ok _ _ Hp). cbn [bind]. rewrite Hg, Hm.
  cbn [truthy keys bind].
  rewrite (map_res_ok _ _ _ (fun k => item_result (lookup entries k))).
  - cbn [bind]. rewrite (map_lookup entries item_result Hnd).
    now rewrite filter_item_results.
  - intros k Hk. apply galleryItem_result.
    apply in_map_iff in Hk as ([k' v] & <- & Hin). cbn [fst].
    rewrite (lookup_nodup entries Hnd k' v Hin).
    rewrite Forall_forall in Hok. apply Hok. apply in_map_iff. exists (k', v). auto.
Qed.

Lemma galleryUrls_valid_images_witness :
  galleryUrls example_gallery
  = Ok (JArr [JStr '"https://i.redd.it/abc.png";
              JStr '"https://i.redd.it/ghi.jpg"]).
Proof.
  apply (galleryUrls_valid_images example_gallery example_metadata).
  - reflexivity.
  - reflexivity.
  - vm_compute.
    repeat (apply NoDup_cons;
            [let H := fresh in intro H; cbn [In] in H; intuition discriminate|]).
    apply NoDup_nil.
  - unfold example_metadata. cbn [map snd].
    repeat (apply Forall_cons;
            [split; [reflexivity|]; split;
             [ first [ left; reflexivity
                     | right; right; eexists; reflexivity ]
             | reflexivity ] |]).
    apply Forall_nil.
Defined.

End PostsFacts.

Module CommentsFacts.
Import Comments JsFacts.

Lemma tagged_nonnull w tag : tagged w tag -> is_nullish w = false /\ 1 <= depth w.
Proof.
  unfold tagged. destruct w; intro H; try (cbv in H; discriminate).
  simpl. split; [reflexivity|lia].
Qed.

Lemma elements_repliesData x :
  elements (or_else x (JArr [])) = elements x.
Proof.
  unfold or_else. destruct (truthy x) eqn:E; [reflexivity|].
  destruct x; simpl in *; try reflexivity; discriminate.
Qed.

Section Wrapper.
Variable fuel' : nat.
Hypothesis IH : forall v,
  depth v < fuel' -> Forall wrapper_ok (elements v) ->
  exists out, formatApiComments fuel' v = Ok (JArr out) /\ normalizes (elements v) out.

Lemma formatWrapper_node w :
  wrapper_ok w -> depth w < fuel' ->
  exists n, formatWrapper (formatApiComments fuel') w = Ok n /\ node_of w n.
Proof.
  intros Hok Hd. unfold formatWrapper.
  inversion Hok as [w' Ht Hn | w' Ht Hn Hp Hr | w' Hn Hm Ht]; subst w'.
  - destruct (tagged_nonnull _ _ Ht) as [Hw _].
    rewrite !(get_ok w _ Hw). cbn [bind]. rewrite Ht.
    replace (is_str (JStr '"more") '"more") with true by reflexivity.
    rewrite !(get_ok _ _ Hn). cbn [bind].
    eexists; split; [reflexivity|]. left. split; [assumption|reflexivity].
  - destruct (tagged_nonnull _ _ Ht) as [Hw Hw1].
    rewrite !(get_ok w _ Hw). cbn [bind]. rewrite Ht.
    replace (is_str (JStr '"t1") '"more") with false by reflexivity.
    replace (is_str (JStr '"t1") '"t1") with true by reflexivity.
    unfold field in Hp.
    rewrite !(get_ok _ _ Hn). cbn [bind].
    rewrite (ToString_printable _ Hp). cbn [bind]. rewrite !opt_get_own.
    destruct (IH (or_else (own (own (own (own w '"data") '"replies") '"data") '"children") (JArr []))) as (out & E & Hnorm).
    + pose proof (depth_or_else (own (own (own (own w '"data") '"replies") '"data") '"children")).
      pose proof (depth_own (own (own (own w '"data") '"replies") '"data") '"children").
      pose proof (depth_own (own (own w '"data") '"replies") '"data").
      pose proof (depth_own (own w '"data") '"replies").
      pose proof (depth_own w '"data"). lia.
    + rewrite elements_repliesData. exact Hr.
    + rewrite E. cbn [bind]. rewrite elements_repliesData in Hnorm.
      eexists; split; [reflexivity|]. right; left. split; [assumption|].
      exists out. split; [exact Hnorm|reflexivity].
  - rewrite !(get_ok _ _ Hn). cbn [bind].
    destruct (is_str (own w '"kind") '"more") eqn:E1.
    { apply is_str_eq in E1. contradiction. }
    destruct (is_str (own w '"kind") '"t1") eqn:E2.
    { apply is_str_eq in E2. contradiction. }
    eexists; split; [reflexivity|]. right; right. auto.
Qed.

Lemma map_wrappers ws :
  Forall wrapper_ok ws -> (forall w, In w ws -> depth w < fuel') ->
  exists mapped, map_res (formatWrapper (formatApiComments fuel')) ws = Ok mapped /\
    normalizes ws (filter (fun c => negb (is_null c)) mapped).
Proof.
  induction 1 as [|w ws Hw Hws IHws]; intro Hd; simpl.
  - exists []. split; [reflexivity|constructor].
  - destruct (formatWrapper_node w Hw (Hd w (or_introl eq_refl))) as (n & En & Hn).
    destruct IHws as (mapped & Em & Hm); [intros; apply Hd; now right|].
    rewrite En, Em. exists (n :: mapped). split; [reflexivity|].
    destruct Hn as [[Ht ->]|[(Ht & replies & Hr & ->)|(H1 & H2 & ->)]]; simpl.
    + now apply norm_more.
    + now apply norm_comment.
    + now apply norm_drop.
Qed.
End Wrapper.

Lemma formatApiComments_elements fuel : forall v,
  depth v < fuel -> Forall wrapper_ok (elements v) ->
  exists out, formatApiComments fuel v = Ok (JArr out) /\ normalizes (elements v) out.
Proof.
  induction fuel as [|fuel' IH]; intros v Hd Hok; [lia|].
  destruct v; simpl; try (exists []; split; [reflexivity|constructor]).
  destruct (map_wrappers fuel' IH xs Hok) as (mapped & Em & Hm).
  - intros w Hw. apply (depth_elements (JArr xs)) in Hw. lia.
  - rewrite Em. simpl. eexists; split; [reflexivity|exact Hm].
Qed.

(** C4: on an array of raw comment wrappers (wrappers that carry data
    when they are comments or placeholders, with a comment permalink
    that prints), and with call stack for its depth,
    [formatApiComments] throws nothing and returns the normalised
    sequence: a comment node with its own fields and its
    recursively normalised replies for each wrapper tagged [t1], a
    placeholder node with count, parent id and child ids for each
    wrapper tagged [more], nothing for any other wrapper, in the order
    of the input. *)
Theorem formatApiComments_normalizes fuel ws :
  depth (JArr ws) < fuel -> Forall wrapper_ok ws ->
  exists out, formatApiComments fuel (JArr ws) = Ok (JArr out) /\ normalizes ws out.
Proof. intros Hd Hok. exact (formatApiComments_elements fuel (JArr ws) Hd Hok). Qed.

Ltac wrapper_ok_tac :=
  repeat first
    [ apply Forall_nil
    | apply Forall_cons
    | apply ok_more; [reflexivity | reflexivity]
    | apply ok_comment; [reflexivity | reflexivity | reflexivity | vm_compute]
    | apply ok_other;
      [ reflexivity
      | let H := fresh in intro H; vm_compute in H; discriminate H
      | let H := fresh in intro H; vm_compute in H; discriminate H ] ].

Lemma formatApiComments_normalizes_witness :
  exists out,
    formatApiComments 9 (JArr example_thread) = Ok (JArr out) /\
    normalizes example_thread out.
Proof.
  apply (formatApiComments_normalizes 9 example_thread).
  - vm_compute. lia.
  - unfold example_thread. wrapper_ok_tac.
Defined.

(** The listing above normalises to two root entries: the comment with
    its two replies, and the placeholder with its count and child ids. *)
Example formatApiComments_example :
  exists r1 r2,
    formatApiComments 9 (JArr example_thread)
    = Ok (JArr [comment_node (nth 0 example_thread JNull) [r1; r2];
                more_node (nth 2 example_thread JNull)]) /\
    own (more_node (nth 2 example_thread JNull)) '"count" = JNum 7 /\
    own (more_node (nth 2 example_thread JNull)) '"children_ids"
    = JArr [JStr '"a"; JStr '"b"].
Proof. do 2 eexists. vm_compute. repeat split. Qed.

(** The permalink of a comment goes through the template literal of
    line 49: a comment whose permalink is an object with an own
    [toString] property makes the normaliser throw a TypeError, which
    is why [wrapper_ok] asks for a permalink that prints. *)
Example formatApiComments_permalink_throws :
  formatApiComments 9
    (JArr [JObj [('"kind", JStr '"t1");
                 ('"data", JObj [('"id", JStr '"c1");
                                 ('"permalink",
                                   JObj [('"toString", JNum 1)])])]])
  = Throw TypeError.
Proof. reflexivity. Qed.

End CommentsFacts.

Module HeapFacts.
Import Heap HeapNormalizer JsFacts.

(** ** Stores *)

Lemma extends_refl h : extends h h.
Proof. exists []. now rewrite app_nil_r. Qed.

Lemma extends_trans h1 h2 h3 : extends h1 h2 -> extends h2 h3 -> extends h1 h3.
Proof. intros [a ->] [b ->]. exists (a ++ b). now rewrite app_assoc. Qed.

Lemma extends_alloc h c : extends h (h ++ [c]).
Proof. now exists [c]. Qed.

Lemma extends_nth h h' l c :
  extends h h' -> nth_error h l = Some c -> nth_error h' l = Some c.
Proof.
  intros [a ->] H. rewrite nth_error_app1; [assumption|].
  apply nth_error_Some. congruence.
Qed.

Lemma nth_alloc (h : heap) (c : cell) : nth_error (h ++ [c]) (length h) = Some c.
Proof. rewrite nth_error_app2, Nat.sub_diag; [reflexivity|lia]. Qed.

Lemma denotes_mono h h' : extends h h' ->
  forall t v, denotes h v t -> denotes h' v t.
Proof.
  intro He. induction t as [| |b|n|s|ts IH|tprops IH] using json_induction;
    intros v D; inversion D; subst; try constructor.
  - apply den_arr with xs; [eapply extends_nth; eassumption|].
    clear D H0. revert xs H2. induction IH as [|t ts Ht _ IHts]; intros xs H2;
      inversion H2; subst; constructor; auto.
  - apply den_obj with props; [eapply extends_nth; eassumption|].
    clear D H0. revert props H2. induction IH as [|t ts Ht _ IHts]; intros props H2;
      inversion H2 as [|p ? ps ? [Hk Hv] Hrest]; subst; constructor; auto.
Qed.

Lemma Forall2_denotes_mono h h' xs ts :
  extends h h' -> Forall2 (denotes h) xs ts -> Forall2 (denotes h') xs ts.
Proof.
  intros He H. induction H; constructor; [eapply denotes_mono; eassumption|assumption].
Qed.

(** ** The refinement calculus *)

Lemma refines_ret {A B} (R : heap -> A -> B -> Prop) h a b :
  R h a b -> refines R h (ret a) (Ok b).
Proof. intro H. exists a, h. split; [reflexivity|]. split; [apply extends_refl|exact H]. Qed.

Lemma refines_throw {A B} (R : heap -> A -> B -> Prop) h e :
  refines R h (throw e) (Throw e).
Proof. reflexivity. Qed.

Lemma refines_bind {A B A' B'} (R : heap -> A -> B -> Prop)
  (S : heap -> A' -> B' -> Prop) h m p k kp :
  refines R h m p ->
  (forall a b h', p = Ok b -> extends h h' -> R h' a b ->
                  refines S h' (k a) (kp b)) ->
  refines S h (bindM m k) (bind p kp).
Proof.
  intros Hm Hk. unfold refines, bindM in *. destruct p as [b|e]; cbn [bind].
  - destruct Hm as (a & h' & -> & He & HR). specialize (Hk a b h' eq_refl He HR).
    destruct (kp b) as [b'|e'].
    + destruct Hk as (a' & h'' & -> & He' & HS). exists a', h''.
      split; [reflexivity|]. split; [eapply extends_trans; eassumption|exact HS].
    + exact Hk.
  - now rewrite Hm.
Qed.

Lemma refines_read {A B} (R : heap -> A -> B -> Prop) h f p :
  match p with
  | Ok b => exists a, f h = Ok a /\ R h a b
  | Throw e => f h = Throw e
  end ->
  refines R h (read f) p.
Proof.
  unfold refines, read. destruct p as [b|e].
  - intros (a & -> & HR). exists a, h. split; [reflexivity|].
    split; [apply extends_refl|exact HR].
  - now intros ->.
Qed.

Lemma refines_alloc {B} (R : heap -> val -> B -> Prop) h c b :
  R (h ++ [c]) (VRef (length h)) b -> refines R h (alloc c) (Ok b).
Proof.
  intro H. exists (VRef (length h)), (h ++ [c]).
  split; [reflexivity|]. split; [apply extends_alloc|exact H].
Qed.

Lemma refines_mapM {A B A' B'} (R : heap -> A' -> B' -> Prop)
  (f : A -> M A') (fp : B -> res B') :
  (forall h h' a b, extends h h' -> R h a b -> R h' a b) ->
  forall xs ts h,
    Forall2 (fun x t => forall h', extends h h' -> refines R h' (f x) (fp t)) xs ts ->
    refines (fun h => Forall2 (R h)) h (mapM f xs) (map_res fp ts).
Proof.
  intros Hmono. induction xs as [|x xs IH]; intros ts h H; inversion H as [|? t ? ts' Hx Hxs]; subst.
  - apply refines_ret. constructor.
  - cbn [mapM map_res].
    change (match fp t with
            | Ok y => match map_res fp ts' with Ok ys => Ok (y :: ys) | Throw e => Throw e end
            | Throw e => Throw e end)
      with (bind (fp t) (fun y => bind (map_res fp ts') (fun ys => Ok (y :: ys)))).
    apply refines_bind with (R := R); [apply Hx, extends_refl|].
    intros a b h' _ He HR.
    apply refines_bind with (R := fun h => Forall2 (R h)).
    + apply IH. eapply Forall2_impl; [|exact Hxs].
      intros x' t' Hx' h'' He'. apply Hx'. eapply extends_trans; eassumption.
    + intros ys ts'' h'' _ He' Hys. apply refines_ret. constructor; [|exact Hys].
      eapply Hmono; eassumption.
Qed.

(** ** Reading a payload *)

Lemma vtruthy_denotes h v t : denotes h v t -> vtruthy v = truthy t.
Proof. destruct 1; reflexivity. Qed.

Lemma vis_nullish_denotes h v t : denotes h v t -> vis_nullish v = is_nullish t.
Proof. destruct 1; reflexivity. Qed.

Lemma vis_null_denotes h v t : denotes h v t -> vis_null v = is_null t.
Proof. destruct 1; reflexivity. Qed.

Lemma vis_str_denotes h v t s : denotes h v t -> vis_str v s = is_str t s.
Proof. destruct 1; reflexivity. Qed.

Lemma vlookup_denotes h props tprops k :
  Forall2 (fun p tp => fst p = fst tp /\ denotes h (snd p) (snd tp)) props tprops ->
  denotes h (vlookup props k) (lookup tprops k).
Proof.
  induction 1 as [|[k1 v] [k2 t] ps tps [Hk Hv] _ IH]; cbn [vlookup lookup].
  - constructor.
  - cbn [fst snd] in *. subst k2. destruct (str_eqb k1 k); assumption.
Qed.

Lemma nth_denotes h xs ts i :
  Forall2 (denotes h) xs ts ->
  denotes h (nth i xs VUndefined) (nth i ts JUndefined).
Proof.
  intro H. revert i. induction H; intros [|i]; cbn [nth]; auto; constructor.
Qed.

Lemma vown_denotes h v t k : denotes h v t -> denotes h (vown h v k) (own t k).
Proof.
  destruct 1 as [| |b|n|s|l xs ts Hl Hxs|l props tprops Hl Hp]; cbn [vown own];
    try constructor.
  - destruct (str_eqb k k_length); [constructor|].
    destruct (index_of_key k); [|constructor].
    destruct (nth_error s n); constructor.
  - rewrite Hl. rewrite (Forall2_length Hxs).
    destruct (str_eqb k k_length); [constructor|].
    destruct (index_of_key k); [|constructor]. now apply nth_denotes.
  - rewrite Hl. now apply vlookup_denotes.
Qed.

Lemma vopt_get_denotes h v t k :
  denotes h v t -> denotes h (vopt_get h v k) (opt_get t k).
Proof.
  intro D. unfold vopt_get, opt_get. rewrite (vis_nullish_denotes _ _ _ D).
  destruct (is_nullish t); [constructor|now apply vown_denotes].
Qed.

Lemma vget_refines h v t k :
  denotes h v t -> refines denotes h (vget v k) (get t k).
Proof.
  intro D. unfold vget, get. apply refines_read.
  rewrite (vis_nullish_denotes _ _ _ D). destruct (is_nullish t); [reflexivity|].
  eexists. split; [reflexivity|]. now apply vown_denotes.
Qed.

Lemma vor_else_denotes h a b ta tb :
  denotes h a ta -> denotes h b tb -> denotes h (vor_else a b) (or_else ta tb).
Proof.
  intros Da Db. unfold vor_else, or_else. rewrite (vtruthy_denotes _ _ _ Da).
  destruct (truthy ta); assumption.
Qed.

Lemma or_empty_refines h a t :
  denotes h a t -> refines denotes h (or_empty a) (Ok (or_else t (JArr []))).
Proof.
  intro D. unfold or_empty, or_else. rewrite (vtruthy_denotes _ _ _ D).
  destruct (truthy t).
  - now apply refines_ret.
  - apply refines_alloc. apply den_arr with []; [apply nth_alloc|constructor].
Qed.

Lemma depth_in_arr x xs : In x xs -> depth x < depth (JArr xs).
Proof. intro H. exact (depth_elements (JArr xs) x H). Qed.

Lemma unconvertible_nullish t : is_nullish t = true -> unconvertible t = false.
Proof. destruct t; try discriminate; reflexivity. Qed.

Lemma vto_string_denotes fuel : forall h v t,
  denotes h v t -> depth t < fuel -> vto_string fuel h v = ToString t.
Proof.
  induction fuel as [|fuel IH]; intros h v t D Hd; [lia|].
  destruct D as [| |b|n|s|l xs ts Hl Hxs|l props tprops Hl Hp];
    unfold ToString; cbn [vto_string to_string unconvertible];
    try reflexivity.
  - destruct b; reflexivity.
  - rewrite Hl.
    assert (E : map_res (fun x => if vis_nullish x then Ok [] else vto_string fuel h x) xs
                = if existsb unconvertible ts then Throw TypeError
                  else Ok (map (fun x => if is_nullish x then [] else to_string x) ts)).
    { assert (Hall : forall x, In x ts -> depth x < fuel).
      { intros x Hx. apply depth_in_arr in Hx. lia. }
      clear Hl Hd. induction Hxs as [|x t xs ts Hx _ IHxs]; [reflexivity|].
      cbn [map_res map existsb]. rewrite (vis_nullish_denotes _ _ _ Hx).
      rewrite IHxs by (intros; apply Hall; now right).
      destruct (is_nullish t) eqn:En.
      - rewrite (unconvertible_nullish t En). cbn [orb].
        destruct (existsb unconvertible ts); reflexivity.
      - rewrite (IH _ _ _ Hx) by (apply Hall; now left). unfold ToString.
        destruct (unconvertible t); cbn [orb]; [reflexivity|].
        destruct (existsb unconvertible ts); reflexivity. }
    rewrite E. destruct (existsb unconvertible ts); reflexivity.
  - rewrite Hl.
    assert (E : existsb (fun p => str_eqb (fst p) k_toString) props
                = has_key tprops k_toString).
    { clear Hl Hd. unfold has_key.
      induction Hp as [|p tp ps tps [Hk _] _ IHp]; [reflexivity|].
      cbn [existsb]. now rewrite Hk, IHp. }
    rewrite E. destruct (has_key tprops k_toString); reflexivity.
Qed.

Lemma refines_read_bind {A A' B'} (S : heap -> A' -> B' -> Prop) h
  (f : heap -> res A) (p : res A) k kp :
  f h = p ->
  (forall a, p = Ok a -> refines S h (k a) (kp a)) ->
  refines S h (bindM (read f) k) (bind p kp).
Proof.
  intros Hf Hk. destruct p as [a|e]; cbn [bind].
  - specialize (Hk a eq_refl). unfold refines, bindM, read in *.
    rewrite Hf. exact Hk.
  - unfold refines, bindM, read. now rewrite Hf.
Qed.

Lemma vkeys_denotes h v t : denotes h v t -> vkeys h v = keys t.
Proof.
  destruct 1 as [| |b|n|s|l xs ts Hl Hxs|l props tprops Hl Hp]; cbn [vkeys keys];
    try reflexivity.
  - rewrite Hl. now rewrite (Forall2_length Hxs).
  - rewrite Hl. f_equal. clear Hl.
    induction Hp as [|p tp ps tps [Hk _] _ IH]; [reflexivity|].
    cbn [map]. now rewrite Hk, IH.
Qed.

Lemma velements_denotes h v t :
  denotes h v t ->
  match velements h v with
  | Some xs => exists ts, t = JArr ts /\ Forall2 (denotes h) xs ts
  | None => forall ts, t <> JArr ts
  end.
Proof.
  destruct 1 as [| |b|n|s|l xs ts Hl Hxs|l props tprops Hl Hp]; cbn [velements];
    try discriminate.
  - rewrite Hl. eauto.
  - rewrite Hl. discriminate.
Qed.

Lemma refines_bind_ok {A B A' B'} (R : heap -> A -> B -> Prop)
  (S : heap -> A' -> B' -> Prop) h m b k p :
  refines R h m (Ok b) ->
  (forall a h', extends h h' -> R h' a b -> refines S h' (k a) p) ->
  refines S h (bindM m k) p.
Proof.
  intros (a & h' & Hm & He & HR) Hk. specialize (Hk a h' He HR).
  unfold refines, bindM in *. rewrite Hm. destruct p as [b'|e]; [|exact Hk].
  destruct Hk as (a' & h'' & Hk & He' & HS). exists a', h''.
  split; [exact Hk|]. split; [eapply extends_trans; eassumption|exact HS].
Qed.

Lemma refines_read_ok {A A' B'} (S : heap -> A' -> B' -> Prop) h
  (f : heap -> res A) a k p :
  f h = Ok a ->
  refines S h (k a) p ->
  refines S h (bindM (read f) k) p.
Proof.
  intros Hf Hk. unfold refines, bindM, read in *. rewrite Hf. exact Hk.
Qed.

Lemma Forall2_filter_null h xs ts :
  Forall2 (denotes h) xs ts ->
  Forall2 (denotes h) (filter (fun c => negb (vis_null c)) xs)
                      (filter (fun c => negb (is_null c)) ts).
Proof.
  induction 1 as [|x t xs ts Hx _ IH]; cbn [filter]; [constructor|].
  rewrite (vis_null_denotes _ _ _ Hx). destruct (is_null t); cbn [negb]; [assumption|].
  now constructor.
Qed.

Lemma get_inv t k x : get t k = Ok x -> x = own t k.
Proof. unfold get. destruct (is_nullish t); [discriminate|]. now intros [= <-]. Qed.

(** Facts about the store [h] carried over to a store that extends it. *)
Ltac lift He :=
  match type of He with
  | extends ?h ?h' =>
      repeat match goal with
      | D : denotes h _ _ |- _ => apply (denotes_mono h h' He) in D
      | D : Forall2 (denotes h) _ _ |- _ =>
          apply (Forall2_denotes_mono h h' _ _ He) in D
      end
  end.

(** One property read on both sides. *)
Ltac read_prop :=
  lazymatch goal with
  | |- refines _ ?h (bindM (vget ?v ?k) _) (bind (get ?t ?k) _) =>
      let a := fresh "v" in let b := fresh "t" in
      let h' := fresh "h" in let He := fresh "He" in let D := fresh "D" in
      let E := fresh "E" in
      apply refines_bind with (R := denotes);
      [ apply vget_refines; assumption
      | intros a b h' E He D; apply get_inv in E; subst b; lift He; clear He ]
  end.

(** A step of the computation that the function does not have: a read,
    or the allocation of an array that [||] falls back to. *)
Ltac read_only :=
  lazymatch goal with
  | |- refines _ ?h (bindM (read (fun h0 => Ok (@?e h0))) _) _ =>
      apply refines_read_ok with (e h); [reflexivity|]; cbv beta
  end.

Ltac fallback :=
  lazymatch goal with
  | |- refines _ ?h (bindM (or_empty ?v) _) _ =>
      lazymatch goal with
      | D : denotes h v _ |- _ =>
          let a := fresh "v" in let h' := fresh "h" in
          let He := fresh "He" in let D' := fresh "D" in
          apply (refines_bind_ok denotes _ _ _ _ _ _ (or_empty_refines _ _ _ D));
          intros a h' He D'; lift He; clear He
      end
  end.

(** The fields of a fresh object or array, one by one. *)
Ltac fields :=
  repeat lazymatch goal with
  | |- Forall2 _ [] [] => apply Forall2_nil
  | |- Forall2 _ (_ :: _) (_ :: _) => apply Forall2_cons
  | |- _ /\ _ => split
  | |- fst _ = fst _ => reflexivity
  | |- denotes _ (snd _) (snd _) => cbn [snd]
  | |- denotes _ (VStr _) (JStr _) => apply den_str
  | |- denotes _ VNull JNull => apply den_null
  | |- denotes _ (vor_else _ _) (or_else _ _) => apply vor_else_denotes
  | |- denotes _ (if ?c then _ else _) (if ?c then _ else _) => destruct c
  | |- denotes (?h ++ [?c]) ?v ?t =>
      apply (denotes_mono h (h ++ [c]) (extends_alloc h c)); assumption
  end.

Ltac fresh_object :=
  apply refines_alloc; eapply den_obj; [apply nth_alloc|]; fields.

Lemma tagged_depth t s : is_str (own t '"kind") s = true -> 1 <= depth t.
Proof.
  destruct t; cbn [own]; try discriminate; intros _; cbn [depth]; lia.
Qed.

Section Wrapper.
Variable fuel : nat.
Hypothesis IH : forall h v t,
  denotes h v t -> depth t < fuel ->
  refines denotes h (HeapNormalizer.formatApiComments fuel v)
                    (Comments.formatApiComments fuel t).

Lemma formatWrapper_refines h v t :
  denotes h v t -> depth t < fuel ->
  refines denotes h
    (HeapNormalizer.formatWrapper fuel (HeapNormalizer.formatApiComments fuel) v)
    (Comments.formatWrapper (Comments.formatApiComments fuel) t).
Proof.
  intros D Hd. unfold HeapNormalizer.formatWrapper, Comments.formatWrapper.
  cbv zeta. read_prop. read_prop.
  rewrite !(vis_str_denotes _ _ _ _ D0).
  pose proof (depth_own t '"data") as Hdata.
  destruct (is_str (own t '"kind") '"more") eqn:Emore.
  - do 4 read_prop. fallback. fresh_object.
  - destruct (is_str (own t '"kind") '"t1") eqn:Et1.
    + apply tagged_depth in Et1.
      read_prop.
      read_only.
      match goal with
      | D : denotes _ _ (own (own t '"data") '"replies") |- _ =>
          pose proof (vopt_get_denotes _ _ _ '"children"
                        (vopt_get_denotes _ _ _ '"data" D))
      end.
      fallback.
      do 9 read_prop.
      pose proof (depth_own (own t '"data") '"permalink") as Hperm.
      apply refines_read_bind.
      { apply vto_string_denotes; [assumption|lia]. }
      intros link _.
      read_prop.
      apply refines_bind with (R := denotes).
      * apply IH; [assumption|].
        rewrite !opt_get_own.
        pose proof (depth_or_else
          (own (own (own (own t '"data") '"replies") '"data") '"children")).
        pose proof (depth_own (own (own (own t '"data") '"replies") '"data") '"children").
        pose proof (depth_own (own (own t '"data") '"replies") '"data").
        pose proof (depth_own (own t '"data") '"replies").
        lia.
      * intros a b h' _ He Df. lift He. clear He. fresh_object.
    + apply refines_ret. constructor.
Qed.

End Wrapper.

Lemma wrappers_refine fuel h xs ts :
  (forall h v t, denotes h v t -> depth t < fuel ->
     refines denotes h (HeapNormalizer.formatApiComments fuel v)
                       (Comments.formatApiComments fuel t)) ->
  Forall2 (denotes h) xs ts ->
  (forall t, In t ts -> depth t < fuel) ->
  Forall2 (fun x t => forall h', extends h h' ->
     refines denotes h'
       (HeapNormalizer.formatWrapper fuel (HeapNormalizer.formatApiComments fuel) x)
       (Comments.formatWrapper (Comments.formatApiComments fuel) t)) xs ts.
Proof.
  intros IH H. induction H as [|x t xs ts Hx _ IHxs]; intro Hd; constructor.
  - intros h' He. apply formatWrapper_refines; [exact IH| |apply Hd; now left].
    eapply denotes_mono; eassumption.
  - apply IHxs. intros; apply Hd; now right.
Qed.

Lemma formatApiComments_refines fuel : forall h v t,
  denotes h v t -> depth t < fuel ->
  refines denotes h (HeapNormalizer.formatApiComments fuel v)
                    (Comments.formatApiComments fuel t).
Proof.
  induction fuel as [|fuel IH]; intros h v t D Hd; [lia|].
  cbn [HeapNormalizer.formatApiComments Comments.formatApiComments].
  read_only.
  pose proof (velements_denotes _ _ _ D) as Hv.
  destruct (velements h v) as [xs|].
  - destruct Hv as (ts & -> & Hxs).
    apply refines_bind with (R := fun h => Forall2 (denotes h)).
    + apply refines_mapM; [intros; eapply denotes_mono; eassumption|].
      apply wrappers_refine; [exact IH|exact Hxs|].
      intros w Hw. apply depth_in_arr in Hw. lia.
    + intros mapped tmapped h' _ He Hm. clear D Hxs.
      apply (refines_bind_ok (fun _ _ (_ : unit) => True) _ _ _ tt).
      { apply refines_alloc. exact I. }
      intros a h'' He' _. lift He'.
      apply refines_alloc. eapply den_arr; [apply nth_alloc|].
      apply (Forall2_denotes_mono h'' _ _ _ (extends_alloc _ _)).
      now apply Forall2_filter_null.
  - assert (E : Comments.formatApiComments (S fuel) t = Ok (JArr [])).
    { destruct t; try reflexivity. exfalso. now apply (Hv xs). }
    cbn [Comments.formatApiComments] in E. rewrite E.
    apply refines_alloc. eapply den_arr; [apply nth_alloc|constructor].
Qed.

(** A condition on a value read from the store, turned into the
    condition on the payload. *)
Ltac cond :=
  repeat match goal with
  | D : denotes _ ?v _ |- context [vtruthy ?v] =>
      rewrite (vtruthy_denotes _ _ _ D)
  | D : denotes _ ?v _ |- context [vis_str ?v ?s] =>
      rewrite (vis_str_denotes _ _ _ s D)
  end.

Lemma existsb_vis_str h v t l :
  denotes h v t -> existsb (vis_str v) l = existsb (is_str t) l.
Proof.
  intro D. induction l as [|s l IH]; [reflexivity|]. cbn [existsb].
  now rewrite (vis_str_denotes _ _ _ s D), IH.
Qed.

Lemma refines_mapM_same {A A' B'} (R : heap -> A' -> B' -> Prop)
  (f : A -> M A') (fp : A -> res B') :
  (forall h h' a b, extends h h' -> R h a b -> R h' a b) ->
  forall xs h,
    (forall x h', extends h h' -> refines R h' (f x) (fp x)) ->
    refines (fun h => Forall2 (R h)) h (mapM f xs) (map_res fp xs).
Proof.
  intros Hmono xs h H. apply refines_mapM; [exact Hmono|].
  induction xs; constructor; auto.
Qed.

(** ** Posts *)

Lemma postType_refines h v t :
  denotes h v t ->
  refines same h (HeapNormalizer.postType v) (Posts.postType t).
Proof.
  intro D. unfold HeapNormalizer.postType, Posts.postType. cbv zeta.
  read_prop. cond. destruct (truthy (own t '"is_video")); [now apply refines_ret|].
  read_prop. cond. destruct (truthy (own t '"is_gallery")); [now apply refines_ret|].
  read_prop. cond. destruct (truthy (own t '"is_self")); [now apply refines_ret|].
  read_prop. cond.
  destruct (is_str (own t '"post_hint") '"image"); [now apply refines_ret|].
  read_prop. cond.
  destruct (is_str (own t '"post_hint") '"link"); now apply refines_ret.
Qed.

Lemma mediaUrl_refines h v t pt :
  denotes h v t ->
  refines denotes h (HeapNormalizer.mediaUrl v pt) (Posts.mediaUrl t pt).
Proof.
  intro D. unfold HeapNormalizer.mediaUrl, Posts.mediaUrl.
  read_prop.
  apply refines_bind with (R := @same bool).
  - destruct (str_eqb pt '"video"); [|now apply refines_ret].
    read_prop. apply refines_read. eexists. split; [reflexivity|].
    unfold same.
    match goal with |- vtruthy (vopt_get ?h _ _) = _ => apply vtruthy_denotes with h end.
    now apply vopt_get_denotes, vopt_get_denotes.
  - intros a b hb _ He Hs. unfold same in Hs. subst b. lift He. clear He.
    destruct a.
    + read_prop. read_prop. now apply vget_refines.
    + read_prop. cond.
      destruct (truthy (own t '"url_overridden_by_dest")).
      * now apply vget_refines.
      * now apply refines_ret.
Qed.

Lemma mimeSubtype_refines h v t :
  denotes h v t ->
  refines denotes h (HeapNormalizer.mimeSubtype v) (Posts.mimeSubtype t).
Proof.
  destruct 1; cbn [HeapNormalizer.mimeSubtype Posts.mimeSubtype];
    try reflexivity; apply refines_ret; try constructor.
  destruct (nth_error (Posts.split_on (ch "/") s) 1); constructor.
Qed.

Lemma mimeSubtype_depth t x : Posts.mimeSubtype t = Ok x -> depth x = 0.
Proof.
  destruct t; cbn [Posts.mimeSubtype]; try discriminate; intros [= <-]; try reflexivity.
  match goal with
  | |- context [match ?x with Some _ => _ | None => _ end] => destruct x
  end; reflexivity.
Qed.

Lemma galleryItem_refines fuel h v t k :
  denotes h v t -> depth t < fuel ->
  refines denotes h (HeapNormalizer.galleryItem fuel v k) (Posts.galleryItem t k).
Proof.
  intros D Hd. unfold HeapNormalizer.galleryItem, Posts.galleryItem. cbv zeta.
  pose proof (depth_own t k) as Hitem.
  read_prop. read_prop. cond.
  destruct (is_str (own (own t k) '"status") '"valid");
    [|apply refines_ret; constructor].
  read_prop. cond.
  destruct (is_str (own (own t k) '"e") '"Image");
    [|apply refines_ret; constructor].
  read_prop.
  apply refines_bind with (R := denotes); [now apply mimeSubtype_refines|].
  intros sub tsub hs E He Ds. lift He. clear He.
  apply mimeSubtype_depth in E.
  read_prop.
  pose proof (depth_own (own t k) '"id") as Hid.
  apply refines_read_bind.
  { apply vto_string_denotes; [assumption|lia]. }
  intros id_text _.
  apply refines_read_bind.
  { apply vto_string_denotes.
    - apply vor_else_denotes; [assumption|constructor].
    - unfold or_else. destruct (truthy tsub); cbn [depth]; lia. }
  intros format_text _.
  apply refines_ret. constructor.
Qed.

Lemma galleryUrls_refines fuel h v t :
  denotes h v t -> depth t < fuel ->
  refines denotes h (HeapNormalizer.galleryUrls fuel v) (Posts.galleryUrls t).
Proof.
  intros D Hd. unfold HeapNormalizer.galleryUrls, Posts.galleryUrls. cbv zeta.
  read_prop. cond.
  destruct (truthy (own t '"is_gallery")); [|apply refines_ret; constructor].
  read_prop. cond.
  destruct (truthy (own t '"media_metadata")); [|apply refines_ret; constructor].
  read_prop.
  apply refines_bind with (R := @same (list jsstring)).
  { apply refines_read.
    match goal with
    | D : denotes ?h ?v (own t '"media_metadata") |- _ =>
        rewrite (vkeys_denotes _ _ _ D)
    end.
    destruct (keys (own t '"media_metadata")); [|reflexivity].
    eexists. split; reflexivity. }
  intros ks ks' hk _ He Hs. unfold same in Hs. subst ks'. lift He. clear He.
  apply (refines_bind_ok (fun _ _ (_ : unit) => True) _ _ _ tt).
  { apply refines_alloc. exact I. }
  intros a0 ha He _. lift He. clear He.
  apply refines_bind with (R := fun h => Forall2 (denotes h)).
  - apply refines_mapM_same; [intros; eapply denotes_mono; eassumption|].
    intros k hi He. lift He. clear He.
    read_prop. apply galleryItem_refines; [assumption|].
    pose proof (depth_own t '"media_metadata"). lia.
  - intros mapped tmapped hm _ He Hm. lift He. clear He.
    apply (refines_bind_ok (fun _ _ (_ : unit) => True) _ _ _ tt).
    { apply refines_alloc. exact I. }
    intros a1 hf He _. lift He. clear He.
    apply refines_alloc. eapply den_arr; [apply nth_alloc|].
    apply (Forall2_denotes_mono hf _ _ _ (extends_alloc _ _)).
    now apply Forall2_filter_null.
Qed.

Lemma selftextHead_refines h v t :
  denotes h v t ->
  refines denotes h (HeapNormalizer.selftextHead v) (Posts.selftextHead t).
Proof.
  destruct 1; cbn [HeapNormalizer.selftextHead Posts.selftextHead];
    try reflexivity; apply refines_ret; constructor.
Qed.

Lemma formatPost_refines fuel h v t :
  denotes h v t -> depth t < fuel ->
  refines denotes h (HeapNormalizer.formatPost fuel v) (Posts.formatPost t).
Proof.
  intros D Hd. unfold HeapNormalizer.formatPost, Posts.formatPost.
  pose proof (depth_own t '"data") as Hdata.
  read_prop.
  apply refines_bind with (R := @same jsstring); [now apply postType_refines|].
  intros pt pt' hp _ He Hs. unfold same in Hs. subst pt'. lift He. clear He.
  apply refines_bind with (R := denotes); [now apply mediaUrl_refines|].
  intros media_url tmedia_url hu _ He Dm. lift He. clear He.
  apply refines_bind with (R := denotes);
    [apply galleryUrls_refines; [assumption|lia]|].
  intros gallery tgallery hg _ He Dg. lift He. clear He.
  do 7 read_prop.
  pose proof (depth_own (own t '"data") '"permalink") as Hperm.
  apply refines_read_bind.
  { apply vto_string_denotes; [assumption|lia]. }
  intros link _.
  do 2 read_prop.
  apply refines_bind with (R := denotes).
  { cond. destruct (truthy (own (own t '"data") '"is_self")).
    - read_prop. now apply selftextHead_refines.
    - apply refines_ret. constructor. }
  intros selftext tselftext hself _ He Dself. lift He. clear He.
  do 5 read_prop.
  match goal with
  | D : denotes _ ?v (own (own t '"data") '"thumbnail") |- _ =>
      rewrite (vtruthy_denotes _ _ _ D);
      rewrite (existsb_vis_str _ _ _ Posts.noThumbnail D)
  end.
  fresh_object.
Qed.

Lemma formatPosts_refines fuel h v ts :
  denotes h v (JArr ts) -> depth (JArr ts) < fuel ->
  refines denotes h (HeapNormalizer.formatPosts fuel v) (Posts.formatPosts ts).
Proof.
  intros D Hd. unfold HeapNormalizer.formatPosts, Posts.formatPosts.
  pose proof (velements_denotes _ _ _ D) as Hv.
  destruct (velements h v) as [xs|] eqn:E; [|now destruct (Hv ts)].
  destruct Hv as (ts' & [= <-] & Hxs).
  apply refines_read_ok with xs; [now rewrite E|].
  apply refines_bind with (R := fun h => Forall2 (denotes h)).
  - apply refines_mapM; [intros; eapply denotes_mono; eassumption|].
    assert (Hall : forall t, In t ts -> depth t < fuel).
    { intros t Ht. apply depth_in_arr in Ht. lia. }
    clear D E Hd. induction Hxs as [|x t xs ts Hx _ IH]; constructor.
    + intros h' He. apply formatPost_refines; [|apply Hall; now left].
      eapply denotes_mono; eassumption.
    + apply IH. intros; apply Hall; now right.
  - intros posts tposts h' _ He Hp.
    apply refines_alloc. eapply den_arr; [apply nth_alloc|].
    now apply (Forall2_denotes_mono h' _ _ _ (extends_alloc _ _)).
Qed.

Lemma cleanDescriptionText_refines h v t :
  denotes h v t ->
  refines same h (HeapNormalizer.cleanDescriptionText v) (Clean.cleanDescriptionText t).
Proof.
  intro D. unfold HeapNormalizer.cleanDescriptionText, Clean.cleanDescriptionText.
  rewrite (vtruthy_denotes _ _ _ D).
  destruct (truthy t); cbn [negb]; [|now apply refines_ret].
  destruct D; try reflexivity. now apply refines_ret.
Qed.

(** ** Running a transform twice *)

Lemma refines_twice (P : json -> Prop) f fp h v t :
  (forall h v t, denotes h v t -> P t -> refines denotes h (f v) (fp t)) ->
  denotes h v t -> P t -> twice f h v.
Proof.
  intros Href D HP r1 h1 Hrun.
  pose proof (Href h v t D HP) as H1. unfold refines in H1.
  destruct (fp t) as [out|e] eqn:Efp; [|congruence].
  destruct H1 as (a & h' & Hf & He & Dout).
  rewrite Hf in Hrun. injection Hrun as -> ->.
  split; [exact He|]. split.
  - intros t' D'. eapply denotes_mono; eassumption.
  - pose proof (Href h1 v t (denotes_mono h h1 He t v D) HP) as H2.
    unfold refines in H2. rewrite Efp in H2.
    destruct H2 as (r2 & h2 & Hf2 & He2 & Dout2).
    exists r2, h2, out. auto.
Qed.

(** C9: the normalising transforms change no cell of the store and
    read nothing but the payload.  When comment formatting or post
    mapping returns on a payload, every cell the store held is as it
    was, the payload is the tree it was, and a second run on it returns
    an output that is the same tree as the first; description cleaning
    leaves the store as it is and returns the same text again. *)
Theorem normalisation_repeatable :
  (forall fuel h v t,
     denotes h v t -> depth t < fuel ->
     twice (HeapNormalizer.formatApiComments fuel) h v) /\
  (forall fuel h v ts,
     denotes h v (JArr ts) -> depth (JArr ts) < fuel ->
     twice (HeapNormalizer.formatPosts fuel) h v) /\
  (forall text h s h1,
     HeapNormalizer.cleanDescriptionText text h = Ok (s, h1) ->
     h1 = h /\ HeapNormalizer.cleanDescriptionText text h1 = Ok (s, h1)).
Proof.
  split; [|split].
  - intros fuel h v t D Hd.
    exact (refines_twice (fun t => depth t < fuel) _ _ h v t
             (formatApiComments_refines fuel) D Hd).
  - intros fuel h v ts D Hd.
    apply (refines_twice (fun t => exists ts, t = JArr ts /\ depth t < fuel)
             (HeapNormalizer.formatPosts fuel)
             (fun t => Posts.formatPosts (elements t)) h v (JArr ts)).
    + intros h' v' t' D' (ts' & -> & Hd'). now apply formatPosts_refines.
    + exact D.
    + eauto.
  - intros text h s h1 H.
    assert (h1 = h).
    { unfold HeapNormalizer.cleanDescriptionText in H.
      destruct (negb (vtruthy text)); [now injection H|].
      destruct text; try discriminate. now injection H. }
    subst h1. auto.
Qed.

Lemma example_store_denotes :
  denotes example_store (VRef 13) (JArr Comments.example_thread).
Proof.
  unfold example_store, Comments.example_thread, Comments.reply_wrapper.
  repeat econstructor.
Qed.

Lemma normalisation_repeatable_witness :
  twice (HeapNormalizer.formatApiComments 9) example_store (VRef 13).
Proof.
  apply (proj1 normalisation_repeatable 9 example_store (VRef 13)
           (JArr Comments.example_thread)).
  - exact example_store_denotes.
  - vm_compute. lia.
Defined.

End HeapFacts.

Module MarkdownFacts.
Import Regex Clean Markdown RegexFacts CleanFacts.


(** ** The first way of matching *)

Lemma exec_first r prev s m cap rest :
  hd_error (matches r prev s) = Some (m, cap, rest) ->
  exec r prev s = Some (m, cap).
Proof.
  unfold exec. destruct (matches r prev s) as [|[[m' c'] r'] l]; [discriminate|].
  now intros [= -> -> ->].
Qed.

Lemma first_chr c prev s :
  hd_error (matches (Chr c) prev (c :: s)) = Some ([c], None, s).
Proof. cbn [matches]. now rewrite N.eqb_refl. Qed.

Lemma first_cls p c prev s : p c = true ->
  hd_error (matches (Cls p) prev (c :: s)) = Some ([c], None, s).
Proof. intro H. cbn [matches]. now rewrite H. Qed.

Lemma first_star p prev s :
  hd_error (matches (Star p) prev s)
  = Some (take_while p s, None, drop_while p s).
Proof. cbn [matches]. destruct (star_first p s) as [tl ->]. reflexivity. Qed.

Lemma first_seq r1 r2 prev s m1 c1 s1 m2 c2 s2 :
  hd_error (matches r1 prev s) = Some (m1, c1, s1) ->
  hd_error (matches r2 (last_char prev m1) s1) = Some (m2, c2, s2) ->
  hd_error (matches (Seq r1 r2) prev s) = Some (m1 ++ m2, later c1 c2, s2).
Proof.
  cbn [matches]. destruct (matches r1 prev s) as [|[[m c] r] l]; [discriminate|].
  intros [= -> -> ->]. cbn [flat_map].
  destruct (matches r2 (last_char prev m1) s1) as [|[[m c] r] l2]; [discriminate|].
  now intros [= -> -> ->].
Qed.

Lemma first_group r prev s m c rest :
  hd_error (matches r prev s) = Some (m, c, rest) ->
  hd_error (matches (Group r) prev s) = Some (m, Some m, rest).
Proof.
  cbn [matches]. destruct (matches r prev s) as [|[[m' c'] r'] l]; [discriminate|].
  now intros [= -> -> ->].
Qed.

Lemma take_while_run p t x rest :
  forallb p t = true -> p x = false ->
  take_while p (t ++ x :: rest) = t /\ drop_while p (t ++ x :: rest) = x :: rest.
Proof.
  intros Ht Hx. induction t as [|c t IH]; cbn [app take_while drop_while forallb] in *.
  - now rewrite Hx.
  - apply andb_true_iff in Ht as [Hc Ht]. rewrite Hc.
    destruct (IH Ht) as [-> ->]. auto.
Qed.

Lemma first_plus p prev t x rest :
  t <> [] -> forallb p t = true -> p x = false ->
  hd_error (matches (Plus p) prev (t ++ x :: rest)) = Some (t, None, x :: rest).
Proof.
  intros Hne Ht Hx. destruct t as [|c t]; [contradiction|].
  cbn [forallb] in Ht. apply andb_true_iff in Ht as [Hc Ht].
  destruct (take_while_run p t x rest Ht Hx) as [E1 E2].
  unfold Plus. cbn [app].
  rewrite (first_seq (Cls p) (Star p) prev _ [c] None (t ++ x :: rest)
             t None (x :: rest)).
  - reflexivity.
  - now apply first_cls.
  - now rewrite first_star, E1, E2.
Qed.

(** ** Global replacement, piece by piece *)

Lemma replace_from_prefix (q : char -> bool) r repl :
  (forall c prev s, q c = true -> exec r prev (c :: s) = None) ->
  forall pre prev s, forallb q pre = true ->
    replace_from r repl 0 prev (pre ++ s)
    = pre ++ replace_from r repl 0 (last_char prev pre) s.
Proof.
  intros H. induction pre as [|c pre IH]; intros prev s Hq; [reflexivity|].
  cbn [forallb] in Hq. apply andb_true_iff in Hq as [Hc Hq].
  cbn [app replace_from last_char]. now rewrite (H c prev _ Hc), (IH _ _ Hq).
Qed.

Lemma replace_from_skip r repl m : forall prev rest,
  replace_from r repl (length m) prev (m ++ rest)
  = replace_from r repl 0 (last_char prev m) rest.
Proof.
  induction m as [|c m IH]; intros prev rest; [reflexivity|].
  cbn [length app replace_from last_char]. apply IH.
Qed.

(** ** A Markdown link *)

Lemma link_app t u post :
  link t u ++ post = ch "[" :: t ++ ch "]" :: ch "(" :: u ++ ch ")" :: post.
Proof.
  unfold link. cbn [app]. rewrite <- app_assoc. cbn [app].
  rewrite <- app_assoc. reflexivity.
Qed.

Lemma exec_link prev t u post :
  t <> [] -> forallb (not_chr "]") t = true ->
  u <> [] -> forallb (not_chr ")") u = true ->
  exec markdownLink prev (link t u ++ post) = Some (link t u, Some t).
Proof.
  intros Ht Ht' Hu Hu'.
  assert (H5 : forall p,
    hd_error (matches (Seq (Plus (not_chr ")")) (Chr (ch ")"))) p
                      (u ++ ch ")" :: post))
    = Some (u ++ [ch ")"], None, post)).
  { intro p.
    apply (first_seq _ _ p _ u None (ch ")" :: post) [ch ")"] None post);
      [now apply first_plus|apply first_chr]. }
  assert (H4 : forall p,
    hd_error (matches (Seq (Chr (ch "(")) (Seq (Plus (not_chr ")")) (Chr (ch ")")))) p
                      (ch "(" :: u ++ ch ")" :: post))
    = Some (ch "(" :: u ++ [ch ")"], None, post)).
  { intro p.
    apply (first_seq _ _ p _ [ch "("] None (u ++ ch ")" :: post)
             (u ++ [ch ")"]) None post); [apply first_chr|apply H5]. }
  assert (H3 : forall p,
    hd_error (matches (Seq (Chr (ch "]"))
                        (Seq (Chr (ch "(")) (Seq (Plus (not_chr ")")) (Chr (ch ")"))))) p
                      (ch "]" :: ch "(" :: u ++ ch ")" :: post))
    = Some (ch "]" :: ch "(" :: u ++ [ch ")"], None, post)).
  { intro p.
    apply (first_seq _ _ p _ [ch "]"] None (ch "(" :: u ++ ch ")" :: post)
             (ch "(" :: u ++ [ch ")"]) None post); [apply first_chr|apply H4]. }
  assert (H2 : forall p,
    hd_error (matches (Seq (Group (Plus (not_chr "]")))
                        (Seq (Chr (ch "]"))
                        (Seq (Chr (ch "(")) (Seq (Plus (not_chr ")")) (Chr (ch ")")))))) p
                      (t ++ ch "]" :: ch "(" :: u ++ ch ")" :: post))
    = Some (t ++ ch "]" :: ch "(" :: u ++ [ch ")"], Some t, post)).
  { intro p.
    apply (first_seq _ _ p _ t (Some t) (ch "]" :: ch "(" :: u ++ ch ")" :: post)
             (ch "]" :: ch "(" :: u ++ [ch ")"]) None post); [|apply H3].
    apply first_group with None. now apply first_plus. }
  rewrite link_app. apply exec_first with post. unfold markdownLink, link.
  apply (first_seq _ _ prev _ [ch "["] None
           (t ++ ch "]" :: ch "(" :: u ++ ch ")" :: post)
           (t ++ ch "]" :: ch "(" :: u ++ [ch ")"]) (Some t) post);
    [apply first_chr|apply H2].
Qed.

Lemma plain_forall (q : char -> bool) s :
  (forall c, plain c = true -> q c = true) ->
  forallb plain s = true -> forallb q s = true.
Proof.
  intros H Hs. rewrite forallb_forall in *. auto.
Qed.

Lemma exec_htmlTag_none c prev s :
  not_chr "<" c = true -> exec htmlTag prev (c :: s) = None.
Proof.
  unfold not_chr. intro H. apply negb_true_iff in H.
  unfold exec, htmlTag. cbn [matches]. now rewrite H.
Qed.

Lemma exec_markdownLink_none c prev s :
  not_chr "[" c = true -> exec markdownLink prev (c :: s) = None.
Proof.
  unfold not_chr. intro H. apply negb_true_iff in H.
  unfold exec, markdownLink. cbn [matches]. now rewrite H.
Qed.

Lemma plain_not c a :
  plain c = true -> In a ["<"; "["]%char -> not_chr a c = true.
Proof.
  unfold plain. intros H Ha.
  repeat (apply andb_true_iff in H as [H ?]).
  destruct Ha as [<-|[<-|[]]]; assumption.
Qed.

Lemma strip_tags_plain s :
  forallb (not_chr "<") s = true -> replace_all htmlTag with_nothing s = s.
Proof.
  intro H. unfold replace_all.
  apply (replace_from_id (not_chr "<")); [reflexivity| |exact H].
  intros c prev s' Hc. now apply exec_htmlTag_none.
Qed.

Lemma strip_links_plain s :
  forallb (not_chr "[") s = true -> replace_all markdownLink with_group1 s = s.
Proof.
  intro H. unfold replace_all.
  apply (replace_from_id (not_chr "[")); [reflexivity| |exact H].
  intros c prev s' Hc. now apply exec_markdownLink_none.
Qed.

(** A link between plain texts is replaced by its text. *)
Lemma clean_link pre t u post :
  forallb plain (pre ++ t ++ post) = true ->
  t <> [] -> forallb (not_chr "]") t = true ->
  u <> [] -> forallb (fun c => not_chr ")" c && not_chr "<" c) u = true ->
  clean (pre ++ link t u ++ post) = pre ++ t ++ post.
Proof.
  intros Hp Ht Ht' Hu Hu'.
  assert (Hpl : forall a, In a ["<"; "["]%char ->
                forallb (not_chr a) (pre ++ t ++ post) = true).
  { intros a Ha. apply (plain_forall _ _ (fun c H => plain_not c a H Ha) Hp). }
  pose proof (Hpl "<"%char ltac:(now left)) as Hlt.
  pose proof (Hpl "["%char ltac:(right; now left)) as Hlb.
  rewrite !forallb_app in Hp, Hlt, Hlb.
  apply andb_true_iff in Hp as [Hp1 Hp2]. apply andb_true_iff in Hp2 as [Hp2 Hp3].
  apply andb_true_iff in Hlt as [Hlt1 Hlt2]. apply andb_true_iff in Hlt2 as [Hlt2 Hlt3].
  apply andb_true_iff in Hlb as [Hlb1 Hlb2]. apply andb_true_iff in Hlb2 as [Hlb2 Hlb3].
  assert (Hu1 : forallb (not_chr ")") u = true /\ forallb (not_chr "<") u = true).
  { rewrite !forallb_forall in *. split; intros x Hx; apply Hu' in Hx;
      apply andb_true_iff in Hx; tauto. }
  destruct Hu1 as [Hu1 Hu2].
  transitivity (clean (pre ++ t ++ post));
    [|apply clean_plain; rewrite !forallb_app, Hp1, Hp2, Hp3; reflexivity].
  unfold clean.
  rewrite (strip_tags_plain (pre ++ t ++ post))
    by (rewrite !forallb_app, Hlt1, Hlt2, Hlt3; reflexivity).
  rewrite (strip_links_plain (pre ++ t ++ post))
    by (rewrite !forallb_app, Hlb1, Hlb2, Hlb3; reflexivity).
  rewrite (strip_tags_plain (pre ++ link t u ++ post)).
  2:{ rewrite link_app, forallb_app. cbn [forallb].
      rewrite forallb_app. cbn [forallb]. rewrite forallb_app. cbn [forallb].
      rewrite Hlt1, Hlt2, Hlt3, Hu2. reflexivity. }
  do 3 f_equal. unfold replace_all.
  rewrite (replace_from_prefix (not_chr "[") markdownLink with_group1
             (fun c prev s H => exec_markdownLink_none c prev s H) pre None _ Hlb1).
  f_equal.
  assert (E : exists k, link t u = ch "[" :: k /\
                        length (link t u) = S (length k)).
  { unfold link. eexists. split; reflexivity. }
  destruct E as (k & Ek & Hk).
  pose proof (exec_link (last_char None pre) t u post Ht Ht' Hu Hu1) as Hx.
  pose proof (replace_from_skip markdownLink with_group1 k (Some (ch "[")) post) as Hs.
  rewrite Ek in *. cbn [app] in *. cbn [replace_from]. rewrite Hx.
  cbn [length] in *. cbn [with_group1]. f_equal. rewrite Hs.
  apply (replace_from_id (not_chr "[")); [reflexivity| |exact Hlb3].
  intros c prev s' Hc. now apply exec_markdownLink_none.
Qed.


Lemma first_alt_l r1 r2 prev s o :
  hd_error (matches r1 prev s) = Some o ->
  hd_error (matches (Alt r1 r2) prev s) = Some o.
Proof.
  cbn [matches]. destruct (matches r1 prev s); [discriminate|]. now intros [= ->].
Qed.

Lemma first_alt_r r1 r2 prev s :
  matches r1 prev s = [] ->
  hd_error (matches (Alt r1 r2) prev s) = hd_error (matches r2 prev s).
Proof. cbn [matches]. now intros ->. Qed.

Lemma first_bol prev s :
  at_line_start prev = true -> hd_error (matches Bol prev s) = Some ([], None, s).
Proof. intro H. cbn [matches]. now rewrite H. Qed.

(** One match between texts in which the pattern finds nothing. *)
Lemma replace_one (q : char -> bool) r repl pre m cap post :
  (forall prev, exec r prev [] = None) ->
  (forall c prev s, q c = true -> exec r prev (c :: s) = None) ->
  forallb q pre = true -> forallb q post = true -> m <> [] ->
  exec r (last_char None pre) (m ++ post) = Some (m, cap) ->
  replace_all r repl (pre ++ m ++ post) = pre ++ repl cap ++ post.
Proof.
  intros H0 H1 Hpre Hpost Hm Hx. unfold replace_all.
  rewrite (replace_from_prefix q r repl H1 pre None _ Hpre). f_equal.
  destruct m as [|c k]; [contradiction|]. cbn [app] in *.
  cbn [replace_from]. rewrite Hx. cbn [length]. f_equal.
  rewrite replace_from_skip. now apply (replace_from_id q).
Qed.

Lemma space_not a c :
  is_space (ch a) = false -> is_space c = true -> not_chr a c = true.
Proof.
  intros Ha Hc. unfold not_chr. destruct (N.eqb c (ch a)) eqn:E; [|reflexivity].
  apply N.eqb_eq in E. subst c. congruence.
Qed.

Lemma collapse_plain s :
  forallb (fun c => negb (is_space c)) s = true ->
  replace_all spaces (with_text '" ") s = s.
Proof.
  intro H. unfold replace_all.
  apply (replace_from_id (fun c => negb (is_space c))); [reflexivity| |exact H].
  intros c prev s' Hc. apply negb_true_iff in Hc.
  rewrite exec_spaces. destruct s'; [reflexivity|]. now rewrite Hc.
Qed.

Lemma plain_no_space s :
  forallb plain s = true -> forallb (fun c => negb (is_space c)) s = true.
Proof.
  apply plain_forall. intros c H. apply plain_parts in H as (-> & _). reflexivity.
Qed.

Lemma exec_markers_plain c prev s : plain c = true -> exec markers prev (c :: s) = None.
Proof.
  intro Hc. apply plain_parts in Hc as (_ & _ & _ & H1 & H2 & H3 & H4).
  unfold exec, markers, Plus, is_chr. cbn [matches].
  destruct (at_line_start prev); cbn [flat_map map app last_char];
    rewrite ?H1, ?H2, ?H3, ?H4; reflexivity.
Qed.

Lemma exec_markers_nil prev : exec markers prev [] = None.
Proof.
  unfold exec, markers, Plus. cbn [matches]. destruct (at_line_start prev); reflexivity.
Qed.

(** The cleaning of a text whose only special part is one marker [m],
    which the marker pattern matches where it stands. *)
Lemma clean_marker pre m post :
  forallb plain (pre ++ post) = true ->
  forallb (fun c => not_chr "<" c && not_chr "[" c) m = true ->
  m <> [] ->
  exec markers (last_char None pre) (m ++ post) = Some (m, None) ->
  clean (pre ++ m ++ post) = pre ++ post.
Proof.
  intros Hp Hm Hne Hx.
  assert (Hp' := Hp). rewrite forallb_app in Hp'.
  apply andb_true_iff in Hp' as [Hp1 Hp2].
  assert (H12 : forallb (not_chr "<") (pre ++ m ++ post) = true /\
                forallb (not_chr "[") (pre ++ m ++ post) = true).
  { rewrite !forallb_forall in *. split; intros x Hx';
      (apply in_app_or in Hx' as [Hx'|Hx']; [|apply in_app_or in Hx' as [Hx'|Hx']]);
      try (apply Hm in Hx'; apply andb_true_iff in Hx'; tauto);
      apply plain_not; auto; cbn; auto. }
  destruct H12 as [Hlt Hlb].
  unfold clean. rewrite (strip_tags_plain _ Hlt), (strip_links_plain _ Hlb).
  rewrite (replace_one plain markers with_nothing pre m None post
             exec_markers_nil exec_markers_plain Hp1 Hp2 Hne Hx).
  cbn [with_nothing app].
  rewrite (collapse_plain _ (plain_no_space _ Hp)).
  apply trim_id, plain_no_space, Hp.
Qed.

Lemma no_header prev c s :
  is_chr "#" c = false ->
  matches (Seq Bol (Seq (Plus (is_chr "#")) (Star is_space))) prev (c :: s) = [].
Proof.
  intro H. unfold Plus. cbn [matches].
  destruct (at_line_start prev); cbn [flat_map map app last_char]; now rewrite ?H.
Qed.

(** A rule is stripped wherever it stands. *)
Lemma clean_rule pre post :
  forallb plain (pre ++ post) = true -> clean (pre ++ rule ++ post) = pre ++ post.
Proof.
  intro Hp. apply clean_marker; [exact Hp|reflexivity|discriminate|].
  apply exec_first with post. unfold markers, rule. cbn [app].
  rewrite first_alt_r by (now apply no_header).
  apply first_alt_l.
  apply (first_seq _ _ _ _ [ch "-"] None (ch "-" :: ch "-" :: post)
           [ch "-"; ch "-"] None post); [apply first_chr|].
  apply (first_seq _ _ _ _ [ch "-"] None (ch "-" :: post)
           [ch "-"] None post); apply first_chr.
Qed.

Lemma chr_none c x prev s : N.eqb x c = false -> matches (Chr c) prev (x :: s) = [].
Proof. intro H. cbn [matches]. now rewrite H. Qed.

Lemma seq_none r1 r2 prev s : matches r1 prev s = [] -> matches (Seq r1 r2) prev s = [].
Proof. intro H. cbn [matches]. now rewrite H. Qed.

Lemma pair_none c x prev s y :
  N.eqb y c = false ->
  matches (Seq (Chr c) (Chr c)) prev (x :: y :: s) = [].
Proof.
  intro H. cbn [matches]. destruct (N.eqb x c); [|reflexivity].
  cbn [flat_map map app last_char]. now rewrite H.
Qed.

Lemma pair_end c x prev : matches (Seq (Chr c) (Chr c)) prev [x] = [].
Proof. cbn [matches]. destruct (N.eqb x c); reflexivity. Qed.

(** So is a single emphasis marker. *)
Lemma clean_emphasis a pre post :
  a = "*"%char \/ a = "_"%char ->
  forallb plain (pre ++ post) = true ->
  clean (pre ++ [ch a] ++ post) = pre ++ post.
Proof.
  intros Ha Hp. apply clean_marker; [exact Hp| |discriminate|].
  { destruct Ha as [->| ->]; reflexivity. }
  assert (Hdouble : forall c, c = ch "*" \/ c = ch "_" ->
            matches (Seq (Chr c) (Chr c)) (last_char None pre) (ch a :: post) = []).
  { intros c Hc. destruct post as [|y post]; [apply pair_end|].
    apply pair_none.
    rewrite forallb_app in Hp. apply andb_true_iff in Hp as [_ Hp].
    cbn [forallb] in Hp. apply andb_true_iff in Hp as [Hy _].
    apply plain_parts in Hy as (_ & _ & _ & _ & _ & H3 & H4).
    destruct Hc as [->| ->]; assumption. }
  apply exec_first with post. unfold markers. cbn [app].
  rewrite first_alt_r by (apply no_header; destruct Ha as [->| ->]; reflexivity).
  rewrite first_alt_r
    by (apply seq_none, chr_none; destruct Ha as [->| ->]; reflexivity).
  rewrite first_alt_r by (apply Hdouble; now left).
  rewrite first_alt_r by (apply Hdouble; now right).
  destruct Ha as [->| ->].
  - apply first_alt_l, first_chr.
  - rewrite first_alt_r by (now apply chr_none). apply first_chr.
Qed.

(** A header marker at the start of the text goes, with the whitespace
    behind it. *)
Lemma clean_header n w t :
  forallb is_space w = true -> forallb plain t = true -> t <> [] ->
  clean (repeat (ch "#") (S n) ++ w ++ t) = t.
Proof.
  intros Hw Ht Hne.
  pose proof (clean_marker [] (repeat (ch "#") (S n) ++ w) t) as H.
  cbn [app] in H. rewrite <- app_assoc in H. cbn [app]. apply H; clear H.
  - exact Ht.
  - rewrite forallb_app. apply andb_true_iff. split.
    + rewrite forallb_forall. intros x Hx. apply repeat_spec in Hx. now subst x.
    + rewrite forallb_forall in *. intros x Hx. apply Hw in Hx.
      now rewrite (space_not "<" x eq_refl Hx), (space_not "[" x eq_refl Hx).
  - discriminate.
  - destruct t as [|c t]; [contradiction|].
    cbn [forallb] in Ht. apply andb_true_iff in Ht as [Hc Ht].
    apply plain_parts in Hc as (Hc1 & _ & _ & Hc2 & _).
    apply exec_first with (c :: t). unfold markers. apply first_alt_l.
    cbn [last_char].
    assert (Hhash : repeat (ch "#") (S n) ++ w ++ c :: t
                    = repeat (ch "#") (S n) ++ (w ++ c :: t)) by reflexivity.
    destruct (take_while_run is_space w c t Hw Hc1) as [E1 E2].
    assert (Hs : hd_error (matches (Star is_space) (last_char None (repeat (ch "#") (S n)))
                             (w ++ c :: t)) = Some (w, None, c :: t)).
    { now rewrite first_star, E1, E2. }
    assert (Hx : exists x rest, w ++ c :: t = x :: rest /\ is_chr "#" x = false).
    { destruct w as [|x w]; [exists c, t; split; [reflexivity|exact Hc2]|].
      exists x, (w ++ c :: t). split; [reflexivity|].
      cbn [forallb] in Hw. apply andb_true_iff in Hw as [Hx _].
      pose proof (space_not "#" x eq_refl Hx) as Hn. unfold not_chr in Hn.
      now apply negb_true_iff in Hn. }
    destruct Hx as (x & rest & Ex & Hxh).
    assert (Hp : hd_error (matches (Plus (is_chr "#")) None
                             (repeat (ch "#") (S n) ++ x :: rest))
                 = Some (repeat (ch "#") (S n), None, x :: rest)).
    { apply first_plus; [discriminate| |exact Hxh].
      rewrite forallb_forall. intros y Hy. apply repeat_spec in Hy. now subst y. }
    set (hs := repeat (ch "#") (S n)) in *.
    apply (first_seq Bol (Seq (Plus (is_chr "#")) (Star is_space)) None
             (hs ++ w ++ c :: t) [] None (hs ++ w ++ c :: t)
             (hs ++ w) None (c :: t));
      [now apply first_bol|].
    cbn [last_char].
    apply (first_seq (Plus (is_chr "#")) (Star is_space) None
             (hs ++ w ++ c :: t) hs None (w ++ c :: t) w None (c :: t)).
    + rewrite Ex. exact Hp.
    + exact Hs.
Qed.

(** Behind other text of the line it stays. *)
Lemma clean_header_inside pre post :
  pre <> [] -> forallb plain (pre ++ post) = true ->
  clean (pre ++ ch "#" :: post) = pre ++ ch "#" :: post.
Proof.
  intros Hne Hp.
  assert (Hp' := Hp). rewrite forallb_app in Hp'.
  apply andb_true_iff in Hp' as [Hp1 Hp2].
  assert (Hq : forall a, a = "<"%char \/ a = "["%char ->
               forallb (not_chr a) (pre ++ ch "#" :: post) = true).
  { intros a Ha. rewrite forallb_app. cbn [forallb].
    rewrite (plain_forall (not_chr a) pre), (plain_forall (not_chr a) post); auto.
    - destruct Ha as [->| ->]; reflexivity.
    - intros c Hc. apply plain_not; [exact Hc|]. destruct Ha as [->| ->]; cbn; auto.
    - intros c Hc. apply plain_not; [exact Hc|]. destruct Ha as [->| ->]; cbn; auto. }
  unfold clean.
  rewrite (strip_tags_plain _ (Hq _ (or_introl eq_refl))).
  rewrite (strip_links_plain _ (Hq _ (or_intror eq_refl))).
  assert (E3 : replace_all markers with_nothing (pre ++ ch "#" :: post)
               = pre ++ ch "#" :: post).
  { unfold replace_all.
    rewrite (replace_from_prefix plain markers with_nothing exec_markers_plain
               pre None _ Hp1). f_equal.
    assert (Hl : at_line_start (last_char None pre) = false).
    { destruct pre as [|c pre] using rev_ind; [contradiction|].
      assert (E : forall p l x, last_char p (l ++ [x]) = Some x).
      { intros p l. revert p. induction l; intros; cbn; auto. }
      rewrite E. cbn [at_line_start].
      rewrite forallb_app in Hp1. apply andb_true_iff in Hp1 as [_ Hc].
      cbn [forallb] in Hc. apply andb_true_iff in Hc as [Hc _].
      apply plain_parts in Hc as (Hc & _).
      unfold is_line_terminator. unfold is_space in Hc.
      repeat (apply orb_false_iff in Hc as [Hc ?]).
      destruct (N.eqb c 10) eqn:E10.
      { apply N.eqb_eq in E10. subst c. discriminate. }
      destruct (N.eqb c 13) eqn:E13.
      { apply N.eqb_eq in E13. subst c. discriminate. }
      cbn [orb]. now rewrite H4, H3. }
    cbn [replace_from].
    assert (Ex : exec markers (last_char None pre) (ch "#" :: post) = None).
    { unfold exec, markers, Plus. cbn [matches]. rewrite Hl. reflexivity. }
    rewrite Ex. f_equal.
    apply (replace_from_id plain); [apply exec_markers_nil|apply exec_markers_plain|exact Hp2]. }
  rewrite E3.
  assert (Hns : forallb (fun c => negb (is_space c)) (pre ++ ch "#" :: post) = true).
  { rewrite forallb_app. cbn [forallb].
    rewrite (plain_no_space _ Hp1), (plain_no_space _ Hp2). reflexivity. }
  rewrite (collapse_plain _ Hns). now apply trim_id.
Qed.

(** X2: a Markdown link with a text [t] and a target [u] that stands
    between plain texts is replaced by its text; the target goes,
    whatever markers it holds. *)
Theorem cleanDescriptionText_link pre t u post :
  forallb plain (pre ++ t ++ post) = true ->
  t <> [] -> forallb (not_chr "]") t = true ->
  u <> [] -> forallb (fun c => not_chr ")" c && not_chr "<" c) u = true ->
  cleanDescriptionText (JStr (pre ++ link t u ++ post)) = Ok (pre ++ t ++ post).
Proof.
  intros Hp Ht Ht' Hu Hu'. unfold cleanDescriptionText.
  replace (truthy (JStr (pre ++ link t u ++ post))) with true.
  - cbn [negb]. f_equal. now apply clean_link.
  - cbn [truthy]. destruct pre; reflexivity.
Qed.

Lemma cleanDescriptionText_link_witness :
  cleanDescriptionText
    (JStr ('"see" ++ link '"docs" '"http://x.y/a_b#c" ++ '"now"))
  = Ok ('"see" ++ '"docs" ++ '"now").
Proof.
  apply cleanDescriptionText_link; try reflexivity; discriminate.
Defined.

(** X3: a header marker at the very start of the text is stripped
    together with the white space behind it. *)
Theorem cleanDescriptionText_header n w t :
  forallb is_space w = true -> forallb plain t = true -> t <> [] ->
  cleanDescriptionText (JStr (header n w ++ t)) = Ok t.
Proof.
  intros Hw Ht Hne. unfold cleanDescriptionText, header.
  cbn [repeat app truthy negb]. f_equal.
  change (ch "#" :: (repeat (ch "#") n ++ w) ++ t)
    with ((repeat (ch "#") (S n) ++ w) ++ t).
  rewrite <- app_assoc. now apply clean_header.
Qed.

Lemma cleanDescriptionText_header_witness :
  cleanDescriptionText (JStr (header 2 '"  " ++ '"Rules")) = Ok '"Rules".
Proof.
  apply cleanDescriptionText_header; try reflexivity; discriminate.
Defined.

(** X4: a header sign behind other text of its line is no header marker:
    it stays. *)
Theorem cleanDescriptionText_header_inside pre post :
  pre <> [] -> forallb plain (pre ++ post) = true ->
  cleanDescriptionText (JStr (pre ++ ch "#" :: post))
  = Ok (pre ++ ch "#" :: post).
Proof.
  intros Hne Hp. unfold cleanDescriptionText.
  replace (truthy (JStr (pre ++ ch "#" :: post))) with true
    by (destruct pre; reflexivity).
  cbn [negb]. f_equal. now apply clean_header_inside.
Qed.

Lemma cleanDescriptionText_header_inside_witness :
  cleanDescriptionText (JStr ('"issue" ++ ch "#" :: '"12"))
  = Ok ('"issue" ++ ch "#" :: '"12").
Proof.
  apply cleanDescriptionText_header_inside; [discriminate|reflexivity].
Defined.

(** X5: a rule and a single emphasis marker are stripped wherever they
    stand, inside a line as well as at its start. *)
Theorem cleanDescriptionText_markers_anywhere pre post :
  forallb plain (pre ++ post) = true ->
  cleanDescriptionText (JStr (pre ++ rule ++ post)) = Ok (pre ++ post) /\
  cleanDescriptionText (JStr (pre ++ [ch "*"] ++ post)) = Ok (pre ++ post) /\
  cleanDescriptionText (JStr (pre ++ [ch "_"] ++ post)) = Ok (pre ++ post).
Proof.
  intros Hp. unfold cleanDescriptionText.
  assert (T : forall m, m <> [] -> truthy (JStr (pre ++ m ++ post)) = true).
  { intros m Hm. cbn [truthy]. destruct pre; [destruct m; [contradiction|]|];
      reflexivity. }
  rewrite !T by discriminate. cbn [negb].
  repeat split; f_equal.
  - now apply clean_rule.
  - apply clean_emphasis; auto.
  - apply clean_emphasis; auto.
Qed.

Lemma cleanDescriptionText_markers_anywhere_witness :
  cleanDescriptionText (JStr ('"a" ++ rule ++ '"b")) = Ok ('"a" ++ '"b") /\
  cleanDescriptionText (JStr ('"a" ++ [ch "*"] ++ '"b")) = Ok ('"a" ++ '"b") /\
  cleanDescriptionText (JStr ('"a" ++ [ch "_"] ++ '"b")) = Ok ('"a" ++ '"b").
Proof.
  apply cleanDescriptionText_markers_anywhere; reflexivity.
Defined.

End MarkdownFacts.

Module CleaningFacts.
Import Regex Clean Markdown RegexFacts CleanFacts MarkdownFacts.

(** ** Texts with white space between plain parts *)

























End CleaningFacts.

Module NumbersFacts.
Import Regex Numbers JsFacts.

Lemma lit_cons a s : lit (String a s) = ch a :: lit s.
Proof. reflexivity. Qed.

Lemma numeral_digits d : forallb is_digit (lit (NilEmpty.string_of_uint d)) = true.
Proof.
  induction d; cbn [NilEmpty.string_of_uint]; [reflexivity|..];
    rewrite lit_cons; cbn [forallb]; rewrite IHd; reflexivity.
Qed.

Lemma numeral_value d : forall acc,
  fold_left (fun a c => (10 * a + digit_value c)%Z)
            (lit (NilEmpty.string_of_uint d)) (Z.of_nat acc)
  = Z.of_nat (Nat.of_uint_acc d acc).
Proof.
  induction d; intro acc; cbn [NilEmpty.string_of_uint Nat.of_uint_acc];
    [reflexivity|..];
    rewrite lit_cons; cbn [fold_left]; rewrite <- IHd; f_equal;
    rewrite Nat.tail_mul_spec; unfold digit_value;
    match goal with
    | |- context [Z.of_N ?x] =>
        let v := eval vm_compute in (Z.of_N x) in change (Z.of_N x) with v
    end; lia.
Qed.

Lemma to_uint_nonnil n : Nat.to_uint n <> Decimal.Nil.
Proof.
  pose proof (DecimalNat.Unsigned.to_of (Nat.to_uint n)) as H.
  rewrite DecimalNat.Unsigned.of_to in H. rewrite H. unfold Decimal.unorm.
  destruct (Decimal.nzhead (Nat.to_uint n)); discriminate.
Qed.

Lemma digits_of_nat_head n : exists c rest,
  digits_of_nat n = c :: rest /\ is_digit c = true.
Proof.
  unfold digits_of_nat. pose proof (numeral_digits (Nat.to_uint n)) as Hd.
  pose proof (to_uint_nonnil n) as Hn.
  destruct (Nat.to_uint n); [contradiction|..];
    cbn [NilEmpty.string_of_uint] in *; rewrite lit_cons in *;
    eexists; eexists; (split; [reflexivity|reflexivity]).
Qed.

Lemma digits_of_nat_value n : value_of_digits (digits_of_nat n) = Z.of_nat n.
Proof.
  unfold value_of_digits, digits_of_nat.
  change 0%Z with (Z.of_nat 0). rewrite numeral_value.
  change (Nat.of_uint_acc (Nat.to_uint n) 0) with (Nat.of_uint (Nat.to_uint n)).
  now rewrite DecimalNat.Unsigned.of_to.
Qed.

Lemma digit_range c : is_digit c = true -> (48 <= c <= 57)%N.
Proof.
  unfold is_digit. intro H. apply andb_true_iff in H as [H1 H2].
  apply N.leb_le in H1, H2. lia.
Qed.

Lemma digit_not_space c : is_digit c = true -> is_space c = false.
Proof.
  intro H. apply digit_range in H. unfold is_space.
  repeat match goal with
  | |- (_ || _)%bool = false => apply orb_false_iff; split
  | |- (_ && _)%bool = false => apply andb_false_iff
  | |- N.eqb _ _ = false => apply N.eqb_neq; lia
  end.
  - right. apply N.leb_gt. lia.
  - left. apply N.leb_gt. lia.
Qed.

Lemma digit_not_sign c :
  is_digit c = true -> N.eqb c (ch "+") = false /\ N.eqb c (ch "-") = false.
Proof.
  intro H. apply digit_range in H.
  split; apply N.eqb_neq; cbn; lia.
Qed.

Lemma take_while_prefix (p : char -> bool) t rest :
  forallb p t = true ->
  match rest with c :: _ => p c = false | [] => True end ->
  take_while p (t ++ rest) = t.
Proof.
  intros Ht Hr. induction t as [|c t IH]; cbn [app take_while forallb] in *.
  - destruct rest as [|c rest]; [reflexivity|]. cbn [take_while]. now rewrite Hr.
  - apply andb_true_iff in Ht as [Hc Ht]. rewrite Hc. f_equal. now apply IH.
Qed.

(** [parseInt] reads a decimal numeral back, whatever follows it. *)
Lemma parseInt_numeral n rest :
  no_digit_ahead rest = true ->
  parseInt (JStr (digits_of_nat n ++ rest)) = Ok (Num (Z.of_nat n)).
Proof.
  intro Hr. unfold parseInt. rewrite ToString_str. cbn [bind].
  destruct (digits_of_nat_head n) as (c & ds & E & Hc).
  assert (Hall : forallb is_digit (digits_of_nat n) = true)
    by apply numeral_digits.
  assert (Ht : take_while is_digit (digits_of_nat n ++ rest) = digits_of_nat n).
  { apply take_while_prefix; [exact Hall|].
    destruct rest as [|x rest]; [exact I|].
    cbn [no_digit_ahead] in Hr. now apply negb_true_iff in Hr. }
  pose proof (digits_of_nat_value n) as Hv.
  rewrite E in *. cbn [app trim_start].
  rewrite (digit_not_space c Hc).
  destruct (digit_not_sign c Hc) as [-> ->]. cbn [orb].
  change (c :: ds ++ rest) with ((c :: ds) ++ rest). rewrite Ht, Hv.
  reflexivity.
Qed.

End NumbersFacts.

Module HttpFacts.
Import Http JsFacts.

Lemma str_eqb_refl s : str_eqb s s = true.
Proof. now apply str_eqb_eq. Qed.

Lemma str_eqb_neq a b : a <> b -> str_eqb a b = false.
Proof.
  intro H. destruct (str_eqb a b) eqn:E; [|reflexivity].
  apply str_eqb_eq in E. contradiction.
Qed.

Lemma lookup_set_prop object k v : lookup (set_prop object k v) k = v.
Proof.
  induction object as [|[k' v'] rest IH]; cbn [set_prop lookup].
  - now rewrite str_eqb_refl.
  - destruct (str_eqb k' k) eqn:E; cbn [lookup]; now rewrite E.
Qed.

Lemma lookup_set_prop_other object k v k' :
  k' <> k -> lookup (set_prop object k v) k' = lookup object k'.
Proof.
  intro H. induction object as [|[k0 v0] rest IH]; cbn [set_prop lookup].
  - now rewrite (str_eqb_neq k k') by congruence.
  - destruct (str_eqb k0 k) eqn:E; cbn [lookup].
    + apply str_eqb_eq in E. subst k0. now rewrite (str_eqb_neq k k') by congruence.
    + now rewrite IH.
Qed.

Lemma lookup_rest_of object taken k :
  existsb (str_eqb k) taken = false ->
  lookup (rest_of object taken) k = lookup object k.
Proof.
  intro H. induction object as [|[k0 v0] rest IH]; [reflexivity|].
  cbn [rest_of filter fst lookup]. fold (rest_of rest taken).
  destruct (existsb (str_eqb k0) taken) eqn:E; cbn [negb lookup].
  - destruct (str_eqb k0 k) eqn:E0; [|exact IH].
    apply str_eqb_eq in E0. subst k0. congruence.
  - now rewrite IH.
Qed.

Lemma lookup_rest_of_taken object taken k :
  existsb (str_eqb k) taken = true ->
  lookup (rest_of object taken) k = JUndefined.
Proof.
  intro H. induction object as [|[k0 v0] rest IH]; [reflexivity|].
  cbn [rest_of filter fst]. fold (rest_of rest taken).
  destruct (existsb (str_eqb k0) taken) eqn:E; cbn [negb lookup]; [exact IH|].
  destruct (str_eqb k0 k) eqn:E0; [|exact IH].
  apply str_eqb_eq in E0. subst k0. congruence.
Qed.

Lemma includes_In l s : includes l s = true <-> In s l.
Proof.
  unfold includes. rewrite existsb_exists. split.
  - intros (x & Hx & E). apply str_eqb_eq in E. now subst.
  - intro H. exists s. split; [exact H|apply str_eqb_refl].
Qed.

End HttpFacts.

Module SubredditFacts.
Import Clean Posts Numbers Http Subreddit JsFacts NumbersFacts HttpFacts.
Local Open Scope Z_scope.

Lemma effectiveLimit_range limit n :
  effectiveLimit limit = Ok (Some n) -> 1 <= n <= 100.
Proof.
  unfold effectiveLimit. destruct (truthy limit); [|intros [= <-]; lia].
  destruct (parseInt limit) as [[|z]|e]; cbn [bind isNaN negb gt le andb];
    try discriminate.
  destruct (0 <? z) eqn:E1; [|discriminate].
  destruct (z <=? 100) eqn:E2; [|discriminate].
  intros [= <-]. apply Z.ltb_lt in E1. apply Z.leb_le in E2. lia.
Qed.

Lemma parseInt_throws v e :
  parseInt v = Throw e <-> e = TypeError /\ unconvertible v = true.
Proof.
  unfold parseInt, ToString. destruct (unconvertible v); cbn [bind].
  - split; [intros [= <-]; auto|intros [-> _]; reflexivity].
  - split; [discriminate|intros [_ H]; discriminate].
Qed.

(** The limit makes the handler throw exactly when it is a truthy value
    that [parseInt] cannot convert to a string. *)
Lemma effectiveLimit_throws limit e :
  effectiveLimit limit = Throw e <->
  e = TypeError /\ truthy limit = true /\ unconvertible limit = true.
Proof.
  unfold effectiveLimit. destruct (truthy limit).
  - destruct (parseInt limit) as [[|z]|e0] eqn:E; cbn [bind].
    + split; [discriminate|]. intros (_ & _ & H).
      assert (X : parseInt limit = Throw TypeError) by (apply parseInt_throws; auto).
      congruence.
    + split.
      * destruct (negb (isNaN (Num z)) && gt (Num z) 0 && le (Num z) 100);
          discriminate.
      * intros (_ & _ & H).
        assert (X : parseInt limit = Throw TypeError) by (apply parseInt_throws; auto).
        congruence.
    + apply parseInt_throws in E as [-> H]. split.
      * intros [= <-]. auto.
      * intros (-> & _). reflexivity.
  - split; [discriminate|]. intros (_ & H & _). discriminate.
Qed.

Lemma truthy_numeral n rest : truthy (JStr (digits_of_nat n ++ rest)) = true.
Proof.
  destruct (digits_of_nat_head n) as (c & ds & E & _). now rewrite E.
Qed.

(** X6: the limit sent upstream lies between 1 and 100.  A missing or
    empty limit gives 25; a numeral from 1 to 100 is read back as its
    value, whatever follows it; a numeral out of that range and a text
    that is no number are refused; and reading the limit throws, a
    TypeError, exactly when it is a truthy value that cannot be
    converted to a string. *)
Theorem effectiveLimit_bounds :
  (forall limit n, effectiveLimit limit = Ok (Some n) -> 1 <= n <= 100) /\
  (forall limit, truthy limit = false -> effectiveLimit limit = Ok (Some 25)) /\
  (forall n rest, no_digit_ahead rest = true -> (1 <= n <= 100)%nat ->
     effectiveLimit (JStr (digits_of_nat n ++ rest)) = Ok (Some (Z.of_nat n))) /\
  (forall n rest, no_digit_ahead rest = true -> (n = 0 \/ 100 < n)%nat ->
     effectiveLimit (JStr (digits_of_nat n ++ rest)) = Ok None) /\
  (forall text, truthy text = true -> parseInt text = Ok NaN ->
     effectiveLimit text = Ok None) /\
  (forall limit e,
     effectiveLimit limit = Throw e <->
     e = TypeError /\ truthy limit = true /\ unconvertible limit = true) /\
  effectiveLimit (JStr '"10abc") = Ok (Some 10) /\
  effectiveLimit (JStr '" 7") = Ok (Some 7) /\
  effectiveLimit (JStr '"ten") = Ok None /\
  effectiveLimit (JStr '"-5") = Ok None /\
  effectiveLimit (JArr [JStr '"5"; JStr '"6"]) = Ok (Some 5) /\
  effectiveLimit (JObj [('"toString", JStr '"1")]) = Throw TypeError.
Proof.
  split; [exact effectiveLimit_range|].
  split; [intros limit H; unfold effectiveLimit; now rewrite H|].
  split.
  { intros n rest Hr Hn. unfold effectiveLimit.
    rewrite truthy_numeral, (parseInt_numeral n rest Hr).
    cbn [bind isNaN negb gt le andb].
    replace (0 <? Z.of_nat n) with true by (symmetry; apply Z.ltb_lt; lia).
    replace (Z.of_nat n <=? 100) with true by (symmetry; apply Z.leb_le; lia).
    reflexivity. }
  split.
  { intros n rest Hr Hn. unfold effectiveLimit.
    rewrite truthy_numeral, (parseInt_numeral n rest Hr).
    cbn [bind isNaN negb gt le andb].
    destruct Hn as [-> | Hn]; [reflexivity|].
    replace (Z.of_nat n <=? 100) with false by (symmetry; apply Z.leb_gt; lia).
    now rewrite andb_false_r. }
  split.
  { intros text Ht Hp. unfold effectiveLimit. now rewrite Ht, Hp. }
  split; [exact effectiveLimit_throws|].
  repeat split; reflexivity.
Qed.

Section Lowercase.

Variable toLowerCase : jsstring -> jsstring.

Lemma effectiveSort_allowed sort s :
  effectiveSort toLowerCase sort = Ok s -> In s allowedSorts.
Proof.
  unfold effectiveSort.
  destruct (truthy sort); [|intros [= <-]; cbn; auto].
  destruct sort; cbn [lower bind]; try discriminate.
  destruct (includes allowedSorts (toLowerCase s0)) eqn:E.
  - intros [= <-]. now apply includes_In.
  - intros [= <-]. cbn; auto.
Qed.

Lemma effectiveTime_allowed sort time t :
  effectiveTime toLowerCase sort time = Ok (inl t) -> In t allowedTimes.
Proof.
  unfold effectiveTime.
  destruct (str_eqb sort '"top"); [|intros [= <-]; cbn; auto].
  destruct (truthy time); [|intros [= <-]; cbn; auto].
  destruct time; cbn [lower bind]; try discriminate.
  destruct (includes allowedTimes (toLowerCase s)) eqn:E; [|discriminate].
  intros [= <-]. now apply includes_In.
Qed.

(** What an accepted request is made of. *)
Lemma postsRequest_inv name query path apiParams sort :
  postsRequest toLowerCase name query = Ok (Fetch path apiParams sort) ->
  truthy name = true /\
  effectiveSort toLowerCase (lookup query '"sort") = Ok sort /\
  path = '"/r/" ++ to_string name ++ '"/" ++ sort /\
  exists n t,
    effectiveLimit (lookup query '"limit") = Ok (Some n) /\
    effectiveTime toLowerCase sort (lookup query '"time") = Ok (inl t) /\
    apiParams = postsParams (rest_of query ['"limit"; '"sort"; '"time"]) sort n t.
Proof.
  unfold postsRequest. destruct (truthy name); cbn [negb]; [|discriminate].
  destruct (effectiveSort toLowerCase (lookup query '"sort")) as [s|] eqn:Es;
    cbn [bind]; [|discriminate].
  destruct (effectiveLimit (lookup query '"limit")) as [[n|]|] eqn:El;
    cbn [bind]; try discriminate.
  destruct (effectiveTime toLowerCase s (lookup query '"time")) as [[t|err]|] eqn:Et;
    cbn [bind]; try discriminate.
  intros [= <- <- <-]. repeat split; try reflexivity.
  exists n, t. auto.
Qed.

Lemma lookup_postsParams_limit other sort n t :
  lookup (postsParams other sort n t) '"limit" = JNum n.
Proof.
  unfold postsParams. destruct (str_eqb sort '"top").
  - rewrite lookup_set_prop_other by discriminate. apply lookup_set_prop.
  - apply lookup_set_prop.
Qed.

(** X7: a request that is accepted asks the upstream for one of the four
    listings of the subreddit, with a limit between 1 and 100. *)
Theorem postsRequest_listing name query path apiParams sort :
  postsRequest toLowerCase name query = Ok (Fetch path apiParams sort) ->
  In sort allowedSorts /\
  path = '"/r/" ++ to_string name ++ '"/" ++ sort /\
  exists n, lookup apiParams '"limit" = JNum n /\ 1 <= n <= 100.
Proof.
  intro H. apply postsRequest_inv in H
    as (_ & Hs & Hp & n & t & Hl & _ & ->).
  split; [now apply effectiveSort_allowed in Hs|].
  split; [exact Hp|].
  exists n. split; [apply lookup_postsParams_limit|].
  now apply effectiveLimit_range in Hl.
Qed.

(** X8: the time range [t] is set by the handler when the listing is
    'top', to one of the six ranges ('day' when the request names
    none), over whatever the request passed as [t]; for any other
    listing the [time] of the request is ignored and a [t] of the
    request goes upstream as it came. *)
Theorem postsRequest_time name query path apiParams sort :
  postsRequest toLowerCase name query = Ok (Fetch path apiParams sort) ->
  (sort = '"top" ->
     exists t, lookup apiParams '"t" = JStr t /\ In t allowedTimes /\
               (truthy (lookup query '"time") = false -> t = '"day")) /\
  (sort <> '"top" -> lookup apiParams '"t" = lookup query '"t").
Proof.
  intro H. apply postsRequest_inv in H
    as (_ & _ & _ & n & t & _ & Ht & ->).
  unfold postsParams. split.
  - intros ->. exists t. cbn [str_eqb]. change (str_eqb '"top" '"top") with true.
    cbn iota. split; [apply lookup_set_prop|].
    split; [now apply effectiveTime_allowed in Ht|].
    intro Hf. unfold effectiveTime in Ht.
    change (str_eqb '"top" '"top") with true in Ht. cbn iota in Ht.
    rewrite Hf in Ht. now injection Ht as <-.
  - intro Hs. rewrite (str_eqb_neq _ _ Hs).
    rewrite lookup_set_prop_other by discriminate.
    now apply lookup_rest_of.
Qed.

(** X9: every other parameter of the request goes upstream unchanged;
    [sort] and [time] themselves are never forwarded. *)
Theorem postsRequest_pass_through name query path apiParams sort :
  postsRequest toLowerCase name query = Ok (Fetch path apiParams sort) ->
  (forall k, k <> '"limit" -> k <> '"sort" -> k <> '"time" -> k <> '"t" ->
     lookup apiParams k = lookup query k) /\
  lookup apiParams '"sort" = JUndefined /\
  lookup apiParams '"time" = JUndefined.
Proof.
  intro H. apply postsRequest_inv in H
    as (_ & _ & _ & n & t & _ & _ & ->).
  assert (P : forall k, k <> '"limit" -> k <> '"t" ->
            lookup (postsParams (rest_of query ['"limit"; '"sort"; '"time"])
                                sort n t) k
            = lookup (rest_of query ['"limit"; '"sort"; '"time"]) k).
  { intros k H1 H2. unfold postsParams. destruct (str_eqb sort '"top");
      rewrite ?(lookup_set_prop_other _ '"t") by exact H2;
      now rewrite lookup_set_prop_other by exact H1. }
  split; [|split].
  - intros k H1 H2 H3 H4. rewrite P by assumption.
    apply lookup_rest_of. cbn [existsb].
    now rewrite !(str_eqb_neq k) by assumption.
  - rewrite P by discriminate. now apply lookup_rest_of_taken.
  - rewrite P by discriminate. now apply lookup_rest_of_taken.
Qed.

(** X10: the handler refuses a request for three reasons only, each with
    status 400: no subreddit name, a limit that is no number from 1 to
    100, and, for the listing 'top', a time range it does not know.  A
    sort it does not know is no reason: the listing is then 'hot'. *)
Theorem postsRequest_refusals name query err :
  postsRequest toLowerCase name query = Ok (Refuse err) ->
  err_status err = JNum 400 /\
  ((truthy name = false /\ err = nameRequired) \/
   (truthy name = true /\ effectiveLimit (lookup query '"limit") = Ok None /\
    err = invalidLimit) \/
   (truthy name = true /\
    effectiveSort toLowerCase (lookup query '"sort") = Ok '"top" /\
    truthy (lookup query '"time") = true /\
    err = invalidTime (lookup query '"time"))).
Proof.
  unfold postsRequest. destruct (truthy name); cbn [negb].
  2:{ intros [= <-]. split; [reflexivity|]. left. auto. }
  destruct (effectiveSort toLowerCase (lookup query '"sort")) as [s|] eqn:Es;
    cbn [bind]; [|discriminate].
  destruct (effectiveLimit (lookup query '"limit")) as [[n|]|] eqn:El;
    cbn [bind]; [| |discriminate].
  2:{ intros [= <-]. split; [reflexivity|]. right. left. auto. }
  destruct (effectiveTime toLowerCase s (lookup query '"time")) as [[t|e]|] eqn:Et;
    cbn [bind]; try discriminate.
  intros [= <-]. unfold effectiveTime in Et.
  destruct (str_eqb s '"top") eqn:Etop; [|discriminate].
  apply str_eqb_eq in Etop. subst s.
  destruct (truthy (lookup query '"time")) eqn:Tt; [|discriminate].
  destruct (lookup query '"time") as [| | | |t| |] eqn:L; cbn [lower bind] in Et;
    try discriminate.
  destruct (includes allowedTimes (toLowerCase t)); [discriminate|].
  injection Et as <-. split; [reflexivity|]. right. right. auto.
Qed.


Lemma postsRequest_throw_cases name query e :
  postsRequest toLowerCase name query = Throw e <->
  e = TypeError /\ truthy name = true /\
  (not_text (lookup query '"sort") = true \/
   (not_text (lookup query '"sort") = false /\
    truthy (lookup query '"limit") = true /\
    unconvertible (lookup query '"limit") = true) \/
   (effectiveSort toLowerCase (lookup query '"sort") = Ok '"top" /\
    (exists n, effectiveLimit (lookup query '"limit") = Ok (Some n)) /\
    not_text (lookup query '"time") = true)).
Proof.
  unfold postsRequest. destruct (truthy name); cbn [negb].
  2:{ split; [discriminate|]. intros (_ & H & _). discriminate. }
  assert (Hsort : forall v, not_text v = true ->
            effectiveSort toLowerCase v = Throw TypeError).
  { intros v Hv. unfold effectiveSort.
    destruct v; cbn [not_text] in Hv; try discriminate; rewrite Hv;
      reflexivity. }
  assert (Hsort' : forall v e', effectiveSort toLowerCase v = Throw e' ->
            e' = TypeError /\ not_text v = true).
  { intros v e'. unfold effectiveSort.
    destruct (truthy v) eqn:T; [|discriminate].
    destruct v; cbn [lower bind]; try (intros [= <-]; now split).
    destruct (includes allowedSorts (toLowerCase s)); discriminate. }
  assert (Htime : forall v e', effectiveTime toLowerCase '"top" v = Throw e' <->
            e' = TypeError /\ not_text v = true).
  { intros v e'. unfold effectiveTime.
    change (str_eqb '"top" '"top") with true. cbn iota.
    destruct (truthy v) eqn:T.
    - destruct v; cbn [lower bind not_text]; try (split; [intros [= <-]; now split|intros [-> _]; reflexivity]).
      destruct (includes allowedTimes (toLowerCase s)); split; try discriminate;
        intros [_ H]; discriminate.
    - split; [discriminate|]. intros [_ H]. destruct v; cbn in *; congruence. }
  destruct (effectiveSort toLowerCase (lookup query '"sort")) as [s|e0] eqn:Es;
    cbn [bind].
  2:{ apply Hsort' in Es as [-> Hv]. split.
      - intros [= <-]. auto.
      - intros (-> & _). reflexivity. }
  assert (Hns : not_text (lookup query '"sort") = false).
  { destruct (not_text (lookup query '"sort")) eqn:Hv; [|reflexivity].
    rewrite (Hsort _ Hv) in Es. discriminate. }
  destruct (effectiveLimit (lookup query '"limit")) as [[n|]|e1] eqn:El;
    cbn [bind].
  3:{ apply effectiveLimit_throws in El as (-> & Ht & Hu). split.
      - intros [= <-]. split; [reflexivity|]. split; [reflexivity|].
        right. left. auto.
      - intros (-> & _). reflexivity. }
  2:{ split; [discriminate|].
      intros (_ & _ & [H|[(_ & Ht & Hu)|(_ & (n & H) & _)]]); [congruence| |congruence].
      assert (X : effectiveLimit (lookup query '"limit") = Throw TypeError)
        by (apply effectiveLimit_throws; auto).
      congruence. }
  assert (Hnl : truthy (lookup query '"limit") = true ->
                unconvertible (lookup query '"limit") = true -> False).
  { intros Ht Hu.
    assert (X : effectiveLimit (lookup query '"limit") = Throw TypeError)
      by (apply effectiveLimit_throws; auto).
    congruence. }
  destruct (str_eqb s '"top") eqn:Etop.
  - apply str_eqb_eq in Etop. subst s.
    destruct (effectiveTime toLowerCase '"top" (lookup query '"time"))
      as [[t|err]|e1] eqn:Et; cbn [bind].
    + split; [discriminate|].
      intros (He & _ & [H|[(_ & Ht & Hu)|(_ & _ & H)]]);
        [congruence|now apply Hnl in Ht|].
      assert (X : effectiveTime toLowerCase '"top" (lookup query '"time")
                  = Throw TypeError) by (apply Htime; auto).
      congruence.
    + split; [discriminate|].
      intros (He & _ & [H|[(_ & Ht & Hu)|(_ & _ & H)]]);
        [congruence|now apply Hnl in Ht|].
      assert (X : effectiveTime toLowerCase '"top" (lookup query '"time")
                  = Throw TypeError) by (apply Htime; auto).
      congruence.
    + apply Htime in Et as [-> Hv]. split.
      * intros [= <-]. split; [reflexivity|]. split; [reflexivity|].
        right. right. repeat split; eauto.
      * intros (-> & _). reflexivity.
  - assert (Et : effectiveTime toLowerCase s (lookup query '"time")
                 = Ok (inl '"day")).
    { unfold effectiveTime. now rewrite Etop. }
    rewrite Et. cbn [bind]. split; [discriminate|].
    intros (_ & _ & [H|[(_ & Ht & Hu)|(H & _)]]);
      [congruence|now apply Hnl in Ht|].
    injection H as ->. discriminate.
Qed.

(** X12: the handler throws, before its [try] block and so without
    answering or calling [next] itself, in three cases and in no other:
    the sort of the request is a truthy value that is no string; the
    sort is accepted and the limit is a truthy value that [parseInt]
    cannot convert to a string (an object with a [toString] entry, as
    [?limit[toString]=1] gives one); the listing is 'top', the limit is
    accepted and the time is a truthy value that is no string.  The
    exception is a TypeError. *)
Theorem postsRequest_throws name query e :
  postsRequest toLowerCase name query = Throw e <->
  e = TypeError /\ truthy name = true /\
  (not_text (lookup query '"sort") = true \/
   (not_text (lookup query '"sort") = false /\
    truthy (lookup query '"limit") = true /\
    unconvertible (lookup query '"limit") = true) \/
   (effectiveSort toLowerCase (lookup query '"sort") = Ok '"top" /\
    (exists n, effectiveLimit (lookup query '"limit") = Ok (Some n)) /\
    not_text (lookup query '"time") = true)).
Proof. apply postsRequest_throw_cases. Qed.

End Lowercase.

Lemma postsRequest_listing_witness :
  In '"top" allowedSorts /\
  '"/r/rust/top" = '"/r/" ++ to_string (JStr '"rust") ++ '"/" ++ '"top" /\
  exists n, lookup example_posts_params '"limit" = JNum n /\ 1 <= n <= 100.
Proof.
  apply (postsRequest_listing lower_ascii (JStr '"rust") example_posts_query
           '"/r/rust/top" example_posts_params '"top").
  reflexivity.
Defined.

Lemma postsRequest_time_witness :
  ('"top" = '"top" ->
     exists t, lookup example_posts_params '"t" = JStr t /\ In t allowedTimes /\
               (truthy (lookup example_posts_query '"time") = false ->
                t = '"day")) /\
  ('"top" <> '"top" ->
     lookup example_posts_params '"t" = lookup example_posts_query '"t").
Proof.
  apply (postsRequest_time lower_ascii (JStr '"rust") example_posts_query
           '"/r/rust/top" example_posts_params '"top").
  reflexivity.
Defined.

Lemma postsRequest_pass_through_witness :
  (forall k, k <> '"limit" -> k <> '"sort" -> k <> '"time" -> k <> '"t" ->
     lookup example_posts_params k = lookup example_posts_query k) /\
  lookup example_posts_params '"sort" = JUndefined /\
  lookup example_posts_params '"time" = JUndefined.
Proof.
  apply (postsRequest_pass_through lower_ascii (JStr '"rust")
           example_posts_query '"/r/rust/top" example_posts_params '"top").
  reflexivity.
Defined.

Lemma postsRequest_refusals_witness :
  err_status invalidLimit = JNum 400 /\
  ((truthy (JStr '"rust") = false /\ invalidLimit = nameRequired) \/
   (truthy (JStr '"rust") = true /\
    effectiveLimit (lookup [('"limit", JStr '"500")] '"limit") = Ok None /\
    invalidLimit = invalidLimit) \/
   (truthy (JStr '"rust") = true /\
    effectiveSort lower_ascii (lookup [('"limit", JStr '"500")] '"sort")
    = Ok '"top" /\
    truthy (lookup [('"limit", JStr '"500")] '"time") = true /\
    invalidLimit = invalidTime (lookup [('"limit", JStr '"500")] '"time"))).
Proof.
  apply (postsRequest_refusals lower_ascii (JStr '"rust")
           [('"limit", JStr '"500")] invalidLimit).
  reflexivity.
Defined.


(** A sort given twice reaches the handler as an array: it throws. *)
Example postsRequest_repeated_sort :
  postsRequest lower_ascii (JStr '"rust")
    [('"sort", JArr [JStr '"new"; JStr '"top"])]
  = Throw TypeError.
Proof. reflexivity. Qed.

(** So does a limit written [?limit[toString]=1], which reaches the
    handler as an object with a [toString] entry. *)
Example postsRequest_unconvertible_limit :
  postsRequest lower_ascii (JStr '"rust")
    [('"limit", JObj [('"toString", JStr '"1")])]
  = Throw TypeError.
Proof. reflexivity. Qed.

End SubredditFacts.

Module ErrorFacts.
Import Http JsFacts HttpFacts.



Lemma upstreamMessage_own error :
  upstreamMessage error = own (own (own error '"response") '"data") '"message".
Proof. unfold upstreamMessage. now rewrite !opt_get_own. Qed.


Lemma handleAxiosError_next error defaultMessage :
  is_nullish error = false ->
  unconvertible (upstreamMessage error) = false ->
  handleAxiosError error defaultMessage
  = Ok (Next {| err_message :=
                  to_string (or_else (own (own (own error '"response") '"data")
                                          '"message")
                                     (JStr defaultMessage));
                err_status :=
                  or_else (own (own error '"response") '"status") (JNum 500) |}).
Proof.
  intros H Hu. rewrite upstreamMessage_own in Hu.
  unfold handleAxiosError. rewrite !(get_ok _ _ H). cbn [bind].
  rewrite !opt_get_own.
  assert (E : ToString (or_else (own (own (own error '"response") '"data")
                                     '"message") (JStr defaultMessage))
              = Ok (to_string (or_else (own (own (own error '"response") '"data")
                                            '"message") (JStr defaultMessage)))).
  { unfold or_else, ToString.
    destruct (truthy (own (own (own error '"response") '"data") '"message"));
      [now rewrite Hu|reflexivity]. }
  rewrite E. reflexivity.
Qed.


Lemma handleAxiosError_inv error defaultMessage r :
  handleAxiosError error defaultMessage = Ok r ->
  is_nullish error = false /\
  exists text,
    r = Next {| err_message := text;
                err_status :=
                  or_else (own (own error '"response") '"status") (JNum 500) |}.
Proof.
  unfold handleAxiosError. destruct (is_nullish error) eqn:En.
  { unfold get. rewrite En. discriminate. }
  rewrite !(get_ok _ _ En). cbn [bind].
  destruct (ToString _) as [text|]; cbn [bind]; [|discriminate].
  intros [= <-]. split; [reflexivity|]. exists text. now rewrite opt_get_own.
Qed.



(** An upstream message that is an object with a [toString] entry: the
    handler's [catch] block throws. *)
Example upstream_error_unconvertible :
  handleAxiosError
    (JObj [('"response",
             JObj [('"status", JNum 500);
                   ('"data",
                     JObj [('"message", JObj [('"toString", JNum 1)])])])])
    '"Error fetching posts for r/rust"
  = Throw TypeError.
Proof. reflexivity. Qed.

End ErrorFacts.

Module ResponseFacts.
Import Regex Clean Markdown Posts Numbers Http Subreddit.
Import JsFacts RegexFacts CleanFacts HttpFacts ErrorFacts.

Lemma map_res_length {A B} (f : A -> res B) l : forall out,
  map_res f l = Ok out -> length out = length l.
Proof.
  induction l as [|x l IH]; intros out; cbn [map_res].
  - now intros [= <-].
  - destruct (f x); [|discriminate].
    destruct (map_res f l) as [ys|]; [|discriminate].
    intros [= <-]. cbn [length]. f_equal. now apply IH.
Qed.

Lemma map_res_Forall {A B} (f : A -> res B) (P : B -> Prop) l :
  (forall x y, f x = Ok y -> P y) ->
  forall out, map_res f l = Ok out -> Forall P out.
Proof.
  intro H. induction l as [|x l IH]; intros out; cbn [map_res].
  - intros [= <-]. constructor.
  - destruct (f x) eqn:E; [|discriminate].
    destruct (map_res f l) as [ys|]; [|discriminate].
    intros [= <-]. constructor; [now apply (H x)|now apply IH].
Qed.

Lemma own_kind_truthy data tag : own data '"kind" = JStr tag -> truthy data = true.
Proof.
  destruct data; cbn [own truthy]; try discriminate; reflexivity.
Qed.

Lemma own_nonnull v k x : own v k = x -> x <> JUndefined -> is_nullish v = false.
Proof. destruct v; cbn [own]; intros; subst; try reflexivity; contradiction. Qed.

Lemma handleAxiosError_plain props message :
  lookup props '"response" = JUndefined ->
  handleAxiosError (JObj props) message
  = Ok (Next {| err_message := message; err_status := JNum 500 |}).
Proof.
  intro H. rewrite handleAxiosError_next;
    [|reflexivity|rewrite upstreamMessage_own; cbn [own]; now rewrite H].
  cbn [own]. rewrite H. reflexivity.
Qed.

(** X14: for a listing of the upstream whose posts can all be formatted
    the handler answers 200 with the formatted posts, as many as the
    listing has children and counted in [post_count], with the listing
    it asked for, the parameters it sent and the cursors of the
    upstream. *)
Theorem postsResponse_listing subredditName sort apiParams data ws posts :
  own data '"kind" = JStr '"Listing" ->
  own (own data '"data") '"children" = JArr ws ->
  formatPosts ws = Ok posts ->
  exists body,
    postsResponse subredditName sort apiParams (Resolves data)
    = Ok (Respond (JNum 200) body) /\
    own body '"subreddit" = subredditName /\
    own body '"sort" = JStr sort /\
    own body '"parameters_used" = JObj apiParams /\
    own body '"post_count" = JNum (Z.of_nat (length ws)) /\
    own body '"after" = own (own data '"data") '"after" /\
    own body '"before" = own (own data '"data") '"before" /\
    own body '"posts" = posts /\
    length (elements posts) = length ws.
Proof.
  intros Hk Hc Hf. unfold postsResponse.
  rewrite (own_kind_truthy _ _ Hk), Hk, opt_get_own, Hc.
  change (is_str (JStr '"Listing") '"Listing") with true.
  cbn [andb isArray elements]. rewrite Hf.
  unfold formatPosts in Hf.
  destruct (map_res formatPost ws) as [ps|] eqn:Em; cbn [bind] in Hf; [|discriminate].
  injection Hf as <-. apply map_res_length in Em.
  eexists. split; [reflexivity|]. cbn [elements].
  repeat split; try reflexivity; try exact Em.
  change (own (JArr ps) '"length") with (JNum (Z.of_nat (length ps))).
  change (JNum (Z.of_nat (length ps)) = JNum (Z.of_nat (length ws))).
  now rewrite Em.
Qed.

Lemma postsResponse_listing_witness :
  exists body,
    postsResponse (JStr '"rust") '"new" [('"limit", JNum 25)]
      (Resolves (JObj [('"kind", JStr '"Listing");
                       ('"data", JObj [('"after", JStr '"t3_b");
                                       ('"children",
                                         JArr [JObj [('"data", example_gallery)];
                                               JObj [('"data", example_video)]])])]))
    = Ok (Respond (JNum 200) body) /\
    own body '"subreddit" = JStr '"rust" /\
    own body '"sort" = JStr '"new" /\
    own body '"parameters_used" = JObj [('"limit", JNum 25)] /\
    own body '"post_count" = JNum 2 /\
    own body '"after" = JStr '"t3_b" /\
    own body '"before" = JUndefined /\
    own body '"posts"
    = match formatPosts [JObj [('"data", example_gallery)];
                         JObj [('"data", example_video)]] with
      | Ok posts => posts
      | Throw _ => JNull
      end /\
    length (elements
              match formatPosts [JObj [('"data", example_gallery)];
                                 JObj [('"data", example_video)]] with
              | Ok posts => posts
              | Throw _ => JNull
              end) = 2.
Proof.
  apply (postsResponse_listing (JStr '"rust") '"new" [('"limit", JNum 25)]
           (JObj [('"kind", JStr '"Listing");
                  ('"data", JObj [('"after", JStr '"t3_b");
                                  ('"children",
                                    JArr [JObj [('"data", example_gallery)];
                                          JObj [('"data", example_video)]])])])
           [JObj [('"data", example_gallery)]; JObj [('"data", example_video)]]);
    reflexivity.
Defined.

(** X15: a payload of the upstream that is no listing, and a listing with
    a post the formatter cannot read, are both answered through [next]
    with status 500 and the handler's own message; the text of the
    exception is not passed on. *)
Theorem postsResponse_failure subredditName sort apiParams data :
  truthy data && is_str (own data '"kind") '"Listing"
  && isArray (opt_get (own data '"data") '"children") = false \/
  (exists e, formatPosts (elements (own (own data '"data") '"children"))
             = Throw e) ->
  postsResponse subredditName sort apiParams (Resolves data)
  = Ok (postsFailure subredditName).
Proof.
  intro H. unfold postsResponse, postsFailure.
  destruct (truthy data && is_str (own data '"kind") '"Listing"
            && isArray (opt_get (own data '"data") '"children")) eqn:E.
  - destruct H as [H|(e & H)]; [discriminate|]. rewrite H.
    now apply handleAxiosError_plain.
  - now apply handleAxiosError_plain.
Qed.

Lemma postsResponse_failure_witness :
  postsResponse (JStr '"rust") '"hot" []
    (Resolves (JObj [('"kind", JStr '"Listing");
                     ('"data", JObj [('"children", JArr [JNull])])]))
  = Ok (postsFailure (JStr '"rust")).
Proof.
  apply postsResponse_failure. right. exists TypeError. reflexivity.
Defined.

Lemma validateFailure_status name error r :
  validateFailure name error = Ok r ->
  (r = notFoundOrInvalid name /\
   own (own error '"response") '"status" = JNum 400) \/
  (own (own error '"response") '"status" <> JNum 400 /\
   exists err, r = Next err /\ err_status err <> JNum 400).
Proof.
  unfold validateFailure. destruct (is_nullish error) eqn:En.
  { unfold get. rewrite En. discriminate. }
  rewrite !(get_ok _ _ En). cbn [bind].
  destruct (truthy (own error '"response")) eqn:Tr.
  - assert (Hn : is_nullish (own error '"response") = false)
      by (destruct (own error '"response"); cbn in *; congruence).
    rewrite (get_ok _ _ Hn). cbn [bind].
    assert (D : own (own error '"response") '"status" = JNum 400 \/
                own (own error '"response") '"status" <> JNum 400).
    { destruct (own (own error '"response") '"status") as [| | |n| | |];
        try (right; discriminate).
      destruct (Z.eq_dec n 400) as [->|Hne]; [now left|right; congruence]. }
    destruct D as [D|D].
    + rewrite D. intros [= <-]. left. auto.
    + intro H. right. split; [exact D|].
      assert (H' : handleAxiosError error
                     ('"Error validating subreddit r/" ++ to_string name) = Ok r).
      { destruct (own (own error '"response") '"status") as [| | |n| | |];
          try exact H.
        destruct n as [|p|p]; try exact H.
        repeat (destruct p as [p|p|]; try exact H). contradiction. }
      apply handleAxiosError_inv in H' as (_ & text & ->).
      eexists. split; [reflexivity|]. cbn [err_status].
      unfold or_else.
      destruct (truthy (own (own error '"response") '"status")); [exact D|discriminate].
  - intros [= <-]. right. split.
    + destruct (own error '"response"); cbn in *; discriminate.
    + eexists. split; [reflexivity|]. discriminate.
Qed.

Lemma validateFailure_plain name props :
  lookup props '"response" = JUndefined ->
  validateFailure name (JObj props) = Ok validationFailure.
Proof.
  intro H. unfold validateFailure. cbn [get is_nullish own bind].
  rewrite H. reflexivity.
Qed.

(** X16: for a request that names a subreddit the validation endpoint
    never answers with status 400, and hands none to [next]: a 400 of
    the upstream, and nothing else, is answered 404 'not found or
    invalid'.  A payload of unexpected shape gives the handler's
    generic error, status 500. *)
Theorem validateSubreddit_status subredditName reddit r :
  truthy subredditName = true ->
  validateSubreddit subredditName reddit = Ok r ->
  (forall body, r <> Respond (JNum 400) body) /\
  (forall err, r = Next err -> err_status err <> JNum 400) /\
  (r = notFoundOrInvalid subredditName <->
   exists error,
     reddit ('"/r/" ++ to_string subredditName ++ '"/about") = Rejects error /\
     own (own error '"response") '"status" = JNum 400) /\
  (forall data,
     reddit ('"/r/" ++ to_string subredditName ++ '"/about") = Resolves data ->
     truthy data && is_str (own data '"kind") '"t5"
     && truthy (own data '"data") = false ->
     r = validationFailure).
Proof.
  intros Hn. unfold validateSubreddit. rewrite Hn. cbn [negb].
  destruct (reddit ('"/r/" ++ to_string subredditName ++ '"/about"))
    as [data|error] eqn:Er.
  - destruct (truthy data && is_str (own data '"kind") '"t5"
              && truthy (own data '"data")) eqn:E.
    + destruct (ToString (own (own data '"data") '"display_name")) as [shown|e].
      * intros [= <-]. repeat split; try discriminate.
        -- intros (error & H & _). discriminate.
        -- intros d [= <-] H. congruence.
      * unfold caught. rewrite validateFailure_plain by reflexivity.
        intros [= <-]. repeat split; try discriminate.
        -- intros err [= <-]. discriminate.
        -- intros (error & H & _). discriminate.
    + unfold newError. rewrite validateFailure_plain by reflexivity.
      intros [= <-].
      repeat split; try discriminate.
      * intros err [= <-]. discriminate.
      * intros (error & H & _). discriminate.
  - intro H. apply validateFailure_status in H as [[-> Hs]|(Hs & err & -> & He)].
    + repeat split; try discriminate.
      * exists error. auto.
    + repeat split; try discriminate.
      * intros e [= <-]. exact He.
      * intros (error' & [= <-] & H). contradiction.
Qed.

Lemma validateSubreddit_status_witness :
  (forall body, notFoundOrInvalid (JStr '"nosuchsub") <> Respond (JNum 400) body) /\
  (forall err, notFoundOrInvalid (JStr '"nosuchsub") = Next err ->
     err_status err <> JNum 400) /\
  (notFoundOrInvalid (JStr '"nosuchsub") = notFoundOrInvalid (JStr '"nosuchsub") <->
   exists error,
     Rejects (JObj [('"response", JObj [('"status", JNum 400)])]) = Rejects error /\
     own (own error '"response") '"status" = JNum 400) /\
  (forall data,
     Rejects (JObj [('"response", JObj [('"status", JNum 400)])]) = Resolves data ->
     truthy data && is_str (own data '"kind") '"t5"
     && truthy (own data '"data") = false ->
     notFoundOrInvalid (JStr '"nosuchsub") = validationFailure).
Proof.
  apply (validateSubreddit_status (JStr '"nosuchsub")
           (fun _ => Rejects (JObj [('"response", JObj [('"status", JNum 400)])])));
    reflexivity.
Defined.

(** ** The metadata endpoint *)

Lemma ws_pair_free_app_r a s : ws_pair_free (a ++ s) = true -> ws_pair_free s = true.
Proof.
  induction a as [|c a IH]; [auto|]. cbn [app ws_pair_free]. intro H.
  apply andb_true_iff in H as [_ H]. auto.
Qed.

Lemma ws_pair_free_app_l m b : ws_pair_free (m ++ b) = true -> ws_pair_free m = true.
Proof.
  induction m as [|c m IH]; [reflexivity|]. cbn [app ws_pair_free]. intro H.
  apply andb_true_iff in H as [H1 H2]. rewrite (IH H2), andb_true_r.
  destruct m as [|d m]; cbn [starts_ws app] in *.
  - now rewrite andb_false_r.
  - exact H1.
Qed.

Lemma clean_cleaned s : cleaned (clean s) = true.
Proof.
  unfold cleaned. rewrite clean_no_tag, clean_no_emphasis. cbn [negb andb].
  apply andb_true_iff. split.
  - unfold clean, replace_all.
    set (s3 := replace_from markers with_nothing 0 None _).
    destruct (collapse_inv s3 0 None (or_introl eq_refl)) as [Hw _].
    destruct (trim_infix (replace_from spaces (with_text '" ") 0 None s3))
      as (a & b & E & _).
    rewrite E in Hw. apply ws_pair_free_app_r in Hw.
    now apply ws_pair_free_app_l in Hw.
  - apply negb_true_iff. destruct (clean s) as [|c rest] eqn:E; [reflexivity|].
    cbn [starts_ws]. unfold clean in E. now apply trim_leading in E.
Qed.

Lemma cleanDescriptionText_cleaned text s :
  cleanDescriptionText text = Ok s -> cleaned s = true.
Proof.
  unfold cleanDescriptionText. destruct (truthy text); cbn [negb].
  - destruct text; try discriminate. intros [= <-]. apply clean_cleaned.
  - now intros [= <-].
Qed.

Lemma formatRule_cleaned rule out :
  formatRule rule = Ok out ->
  exists s, own out '"description" = JStr s /\ cleaned s = true.
Proof.
  unfold formatRule. destruct (is_nullish rule) eqn:En.
  { unfold get. rewrite En. discriminate. }
  rewrite !(get_ok _ _ En). cbn [bind].
  destruct (cleanDescriptionText (own rule '"description")) as [s|] eqn:E;
    cbn [bind]; [|discriminate].
  intros [= <-]. exists s. split; [reflexivity|].
  now apply cleanDescriptionText_cleaned in E.
Qed.

(** X17: in every answer of the metadata endpoint the public description,
    the description and the description of each rule are cleaned texts:
    they hold no tag, no emphasis marker, no two white space code units
    in a row and no leading white space.  A rules payload without rules
    gives an empty list. *)
Theorem getSubredditAbout_cleaned subredditName reddit rulesFirst body :
  getSubredditAbout subredditName reddit rulesFirst
  = Ok (Respond (JNum 200) body) ->
  (exists s, own body '"public_description" = JStr s /\ cleaned s = true) /\
  (exists s, own body '"description" = JStr s /\ cleaned s = true) /\
  (exists rules,
     own body '"rules" = JArr rules /\
     Forall (fun rule => exists s, own rule '"description" = JStr s
                                   /\ cleaned s = true) rules /\
     forall rulesData,
       reddit ('"/r/" ++ to_string subredditName ++ '"/about/rules")
       = Resolves rulesData ->
       truthy (opt_get rulesData '"rules") = false -> rules = []).
Proof.
  unfold getSubredditAbout.
  destruct (truthy subredditName); cbn [negb]; [|discriminate].
  assert (Hf : forall error message,
            handleAxiosError error message <> Ok (Respond (JNum 200) body)).
  { intros error message H. apply handleAxiosError_inv in H as (_ & text & H).
    discriminate. }
  destruct (reddit ('"/r/" ++ to_string subredditName ++ '"/about"))
    as [aboutData|e1];
    destruct (reddit ('"/r/" ++ to_string subredditName ++ '"/about/rules"))
      as [rulesData|e2];
    try (intro H; now apply Hf in H).
  destruct (negb (truthy aboutData)
            || negb (is_str (own aboutData '"kind") '"t5")
            || negb (truthy (own aboutData '"data")));
    [intro H; now apply Hf in H|].
  destruct (aboutBody aboutData rulesData) as [b|e] eqn:Eb;
    [|intro H; now apply Hf in H].
  intros [= <-]. unfold aboutBody in Eb.
  destruct (ToString (own (own aboutData '"data") '"display_name"))
    as [shown|]; cbn [bind] in Eb; [|discriminate].
  destruct (cleanDescriptionText (own (own aboutData '"data") '"public_description"))
    as [p|] eqn:Ep; cbn [bind] in Eb; [|discriminate].
  destruct (cleanDescriptionText (own (own aboutData '"data") '"description"))
    as [d|] eqn:Ed; cbn [bind] in Eb; [|discriminate].
  destruct (ToString (own (own aboutData '"data") '"url"))
    as [url|]; cbn [bind] in Eb; [|discriminate].
  destruct (formatRules (or_else (opt_get rulesData '"rules") (JArr [])))
    as [formatted|] eqn:Er; cbn [bind] in Eb; [|discriminate].
  injection Eb as <-.
  split; [exists p; split; [reflexivity|now apply cleanDescriptionText_cleaned in Ep]|].
  split; [exists d; split; [reflexivity|now apply cleanDescriptionText_cleaned in Ed]|].
  unfold formatRules in Er.
  destruct (or_else (opt_get rulesData '"rules") (JArr [])) as [| | | | |items|] eqn:Eo;
    try discriminate.
  destruct (map_res formatRule items) as [fs|] eqn:Em; cbn [bind] in Er; [|discriminate].
  injection Er as <-. exists fs. split; [reflexivity|]. split.
  - apply (map_res_Forall formatRule _ items formatRule_cleaned _ Em).
  - intros rd [= <-] Ht. unfold or_else in Eo. rewrite Ht in Eo.
    injection Eo as <-. cbn [map_res] in Em. now injection Em as <-.
Qed.

Lemma getSubredditAbout_cleaned_witness :
  (exists s,
     own (match aboutBody example_about example_rules with
          | Ok body => body
          | Throw _ => JNull
          end) '"public_description" = JStr s /\ cleaned s = true) /\
  (exists s,
     own (match aboutBody example_about example_rules with
          | Ok body => body
          | Throw _ => JNull
          end) '"description" = JStr s /\ cleaned s = true) /\
  (exists rules,
     own (match aboutBody example_about example_rules with
          | Ok body => body
          | Throw _ => JNull
          end) '"rules" = JArr rules /\
     Forall (fun rule => exists s, own rule '"description" = JStr s
                                   /\ cleaned s = true) rules /\
     forall rulesData,
       example_reddit ('"/r/" ++ to_string (JStr '"rust") ++ '"/about/rules")
       = Resolves rulesData ->
       truthy (opt_get rulesData '"rules") = false -> rules = []).
Proof.
  apply (getSubredditAbout_cleaned (JStr '"rust") example_reddit false).
  reflexivity.
Defined.

End ResponseFacts.

Module PostFacts.
Import Regex Comments Numbers Http Post.
Import JsFacts HttpFacts ErrorFacts ResponseFacts CommentsFacts.

Lemma starts_with_prefix p : forall s,
  starts_with p s = true <-> exists rest, s = p ++ rest.
Proof.
  induction p as [|x p IH]; intro s; cbn [starts_with app].
  - split; [intros _; now exists s|reflexivity].
  - destruct s as [|y s].
    + split; [discriminate|]. intros (rest & H). discriminate.
    + rewrite andb_true_iff, IH, N.eqb_eq. split.
      * intros (-> & rest & ->). now exists rest.
      * intros (rest & [= -> ->]). split; [reflexivity|now exists rest].
Qed.

Lemma testCursor_starts s :
  testCursor (JStr s)
  = Ok (starts_with '"t1_" s || starts_with '"t3_" s || starts_with '"more_" s).
Proof.
  unfold testCursor. rewrite ToString_str. cbn [bind]. f_equal.
  unfold exec, cursor, is_1_or_3.
  destruct s as [|c1 [|c2 [|c3 [|c4 [|c5 s]]]]]; cbn;
    repeat match goal with
    | |- context [N.eqb ?c ?k] => destruct (N.eqb c k); cbn
    end; reflexivity.
Qed.

(** X18: the cursor of a request is accepted exactly when it begins with
    [t1_], [t3_] or [more_]. *)
Theorem testCursor_prefix s :
  testCursor (JStr s) = Ok true <->
  exists rest, s = '"t1_" ++ rest \/ s = '"t3_" ++ rest \/ s = '"more_" ++ rest.
Proof.
  rewrite testCursor_starts.
  assert (E : forall b, Ok b = Ok true <-> b = true)
    by (intro b; split; [now intros [= ->]|now intros ->]).
  rewrite (E _), !orb_true_iff, !starts_with_prefix. split.
  - intros [[(r & H)|(r & H)]|(r & H)]; exists r; auto.
  - intros (r & [H|[H|H]]); [left; left|left; right|right]; now exists r.
Qed.

Lemma lookup_set_number object k n k' :
  k' <> k -> lookup (set_number object k n) k' = lookup object k'.
Proof.
  intro H. destruct n; cbn [set_number]; [|reflexivity].
  now apply lookup_set_prop_other.
Qed.

Lemma lookup_set_number_same object k n :
  lookup (set_number object k (Some n)) k = value n.
Proof. apply lookup_set_prop. Qed.

Section Lowercase.

Variable toLowerCase : jsstring -> jsstring.

Lemma parsed_truthy v p :
  parsed v = Ok p -> truthy v = true -> exists n, p = Some n /\ parseInt v = Ok n.
Proof.
  unfold parsed. intros H T. rewrite T in H.
  destruct (parseInt v) as [n|]; cbn [bind] in H; [|discriminate].
  injection H as <-. eauto.
Qed.

Lemma parsed_falsy v p : parsed v = Ok p -> truthy v = false -> p = None.
Proof. unfold parsed. intros H T. rewrite T in H. now injection H as <-. Qed.

Lemma commentsRequest_inv postId query path apiParams sort :
  commentsRequest toLowerCase postId query = Ok (Fetch path apiParams sort) ->
  truthy postId = true /\ In sort allowedSorts /\
  path = '"/comments/" ++ to_string postId /\
  exists parsedLimit parsedDepth,
    parsed (lookup query '"limit") = Ok parsedLimit /\
    parsed (lookup query '"depth") = Ok parsedDepth /\
    apiParams
    = commentsParams (rest_of query ['"limit"; '"depth"; '"sort"; '"after"])
                     sort postId parsedLimit parsedDepth
                     (lookup query '"after") /\
    (truthy (lookup query '"depth") = true ->
       exists n, parsedDepth = Some (Num n) /\ (0 <= n)%Z) /\
    (truthy (lookup query '"limit") = true ->
       exists n, parsedLimit = Some (Num n) /\ (1 <= n)%Z) /\
    (truthy (lookup query '"depth") = false -> parsedDepth = None) /\
    (truthy (lookup query '"limit") = false -> parsedLimit = None) /\
    (truthy (lookup query '"after") = true ->
       testCursor (lookup query '"after") = Ok true).
Proof.
  unfold commentsRequest, refuse.
  destruct (truthy postId); cbn [negb]; [|discriminate].
  destruct (Subreddit.lower toLowerCase _) as [l|] eqn:El; cbn [bind]; [|discriminate].
  destruct (includes allowedSorts l) eqn:Ei; cbn [negb]; [|discriminate].
  destruct (parsed (lookup query '"depth")) as [pd|] eqn:Pd; cbn [bind];
    [|discriminate].
  destruct (truthy (lookup query '"depth")
            && match pd with
               | Some n => isNaN n || lt n 0
               | None => true
               end) eqn:Cd; [discriminate|].
  destruct (parsed (lookup query '"limit")) as [pl|] eqn:Pl; cbn [bind];
    [|discriminate].
  destruct (truthy (lookup query '"limit")
            && match pl with
               | Some n => isNaN n || le n 0
               | None => true
               end) eqn:Cl; [discriminate|].
  destruct (if truthy (lookup query '"after")
            then testCursor (lookup query '"after") else Ok true)
    as [m|] eqn:Tm; cbn [bind]; [|discriminate].
  destruct (truthy (lookup query '"after") && negb m) eqn:Ca; [discriminate|].
  intros [= <- <- <-].
  split; [reflexivity|]. split; [now apply includes_In|].
  split; [reflexivity|]. exists pl, pd.
  split; [reflexivity|]. split; [reflexivity|]. split; [reflexivity|].
  split.
  { intro T. rewrite T in Cd. cbn [andb] in Cd.
    destruct (parsed_truthy _ _ Pd T) as (n & -> & _).
    destruct n as [|z]; cbn [isNaN lt orb] in Cd; [discriminate|].
    exists z. split; [reflexivity|]. apply Z.ltb_ge in Cd. lia. }
  split.
  { intro T. rewrite T in Cl. cbn [andb] in Cl.
    destruct (parsed_truthy _ _ Pl T) as (n & -> & _).
    destruct n as [|z]; cbn [isNaN le orb] in Cl; [discriminate|].
    exists z. split; [reflexivity|]. apply Z.leb_gt in Cl. lia. }
  split; [now apply parsed_falsy|]. split; [now apply parsed_falsy|].
  intro T. rewrite T in Tm, Ca. cbn [andb] in Ca.
  apply negb_false_iff in Ca. now subst m.
Qed.

Ltac through :=
  unfold commentsParams;
  repeat match goal with
  | |- context [if ?b then _ else _] => destruct b
  end;
  cbn [set_number];
  repeat first [ rewrite lookup_set_prop_other by discriminate
               | rewrite lookup_set_number by discriminate ].

(** X19: a request that is accepted asks for the comments of the post in
    one of the six orders; the post id is sent as [article], over any
    [article] of the request; a depth is sent only if the request
    names one, and is then a number that is not negative; a limit
    likewise, and is then at least 1; a cursor likewise, and then
    begins as a cursor does. *)
Theorem commentsRequest_params postId query path apiParams sort :
  commentsRequest toLowerCase postId query = Ok (Fetch path apiParams sort) ->
  In sort allowedSorts /\
  path = '"/comments/" ++ to_string postId /\
  lookup apiParams '"sort" = JStr sort /\
  lookup apiParams '"article" = postId /\
  (if truthy (lookup query '"depth")
   then exists n, lookup apiParams '"depth" = JNum n /\ (0 <= n)%Z
   else lookup apiParams '"depth" = JUndefined) /\
  (if truthy (lookup query '"limit")
   then exists n, lookup apiParams '"limit" = JNum n /\ (1 <= n)%Z
   else lookup apiParams '"limit" = JUndefined) /\
  (if truthy (lookup query '"after")
   then lookup apiParams '"after" = lookup query '"after" /\
        testCursor (lookup query '"after") = Ok true
   else lookup apiParams '"after" = JUndefined).
Proof.
  intro H. apply commentsRequest_inv in H
    as (_ & Hs & Hp & pl & pd & _ & _ & -> & Hd & Hl & Hd' & Hl' & Ha).
  split; [exact Hs|]. split; [exact Hp|].
  split; [through; apply lookup_set_prop|].
  split; [through; apply lookup_set_prop|].
  split; [|split].
  - destruct (truthy (lookup query '"depth")) eqn:Td.
    + destruct (Hd eq_refl) as (n & -> & Hn). exists n. split; [|exact Hn].
      through; apply lookup_set_prop.
    + rewrite (Hd' eq_refl). through; now apply lookup_rest_of_taken.
  - destruct (truthy (lookup query '"limit")) eqn:Tl.
    + destruct (Hl eq_refl) as (n & -> & Hn). exists n. split; [|exact Hn].
      unfold commentsParams.
      destruct (truthy (lookup query '"after"));
        cbn [set_number];
  repeat first [ rewrite lookup_set_prop_other by discriminate
                     | rewrite lookup_set_number by discriminate ];
        apply lookup_set_prop.
    + rewrite (Hl' eq_refl). through; now apply lookup_rest_of_taken.
  - unfold commentsParams. destruct (truthy (lookup query '"after")) eqn:Ta.
    + split; [apply lookup_set_prop|now apply Ha].
    + cbn [set_number];
  repeat first [ rewrite lookup_set_prop_other by discriminate
                   | rewrite lookup_set_number by discriminate ].
      now apply lookup_rest_of_taken.
Qed.

(** X20: every parameter of the request other than [limit], [depth],
    [sort], [after] and [article] goes upstream unchanged. *)
Theorem commentsRequest_pass_through postId query path apiParams sort :
  commentsRequest toLowerCase postId query = Ok (Fetch path apiParams sort) ->
  forall k, k <> '"limit" -> k <> '"depth" -> k <> '"sort" -> k <> '"after" ->
            k <> '"article" ->
    lookup apiParams k = lookup query k.
Proof.
  intro H. apply commentsRequest_inv in H
    as (_ & _ & _ & pl & pd & _ & _ & -> & _).
  intros k H1 H2 H3 H4 H5. unfold commentsParams.
  destruct (truthy (lookup query '"after"));
    cbn [set_number];
    repeat first [ rewrite lookup_set_prop_other by assumption
                 | rewrite lookup_set_number by assumption ];
    apply lookup_rest_of; cbn [existsb];
    now rewrite !(str_eqb_neq k) by assumption.
Qed.

(** X21: a sort the handler does not know, the empty one included, is
    refused with status 400 and the list of the six orders; only a
    request without any sort is given the order 'confidence'. *)
Theorem commentsRequest_sort postId query :
  truthy postId = true ->
  toLowerCase '"confidence" = '"confidence" ->
  (forall s, lookup query '"sort" = JStr s ->
     includes allowedSorts (toLowerCase s) = false ->
     commentsRequest toLowerCase postId query
     = Ok (Refuse {| err_message :=
                       '"Invalid sort parameter. Allowed values: confidence, top, new, controversial, old, qa.";
                     err_status := JNum 400 |})) /\
  (lookup query '"sort" = JUndefined ->
   forall path apiParams sort,
     commentsRequest toLowerCase postId query = Ok (Fetch path apiParams sort) ->
     sort = '"confidence").
Proof.
  intros Hp Hc. split.
  - intros s Hs Hi. unfold commentsRequest. rewrite Hp, Hs. cbn [negb].
    cbn [Subreddit.lower bind]. rewrite Hi. reflexivity.
  - intros Hs path apiParams sort. unfold commentsRequest, refuse.
    rewrite Hp, Hs. cbn [negb Subreddit.lower bind]. rewrite Hc.
    change (includes allowedSorts '"confidence") with true. cbn [negb].
    destruct (parsed (lookup query '"depth")) as [pd|]; cbn [bind];
      [|discriminate].
    destruct (_ && _); [discriminate|].
    destruct (parsed (lookup query '"limit")) as [pl|]; cbn [bind];
      [|discriminate].
    destruct (_ && _); [discriminate|].
    destruct (if truthy (lookup query '"after") then _ else _) as [m|];
      cbn [bind]; [|discriminate].
    destruct (_ && _); [discriminate|]. now intros [= _ _ <-].
Qed.

End Lowercase.

Lemma commentsRequest_params_witness :
  In '"new" allowedSorts /\
  '"/comments/abc" = '"/comments/" ++ to_string (JStr '"abc") /\
  lookup example_comments_params '"sort" = JStr '"new" /\
  lookup example_comments_params '"article" = JStr '"abc" /\
  (if truthy (lookup example_comments_query '"depth")
   then exists n,
     lookup example_comments_params '"depth" = JNum n /\ (0 <= n)%Z
   else lookup example_comments_params '"depth" = JUndefined) /\
  (if truthy (lookup example_comments_query '"limit")
   then exists n,
     lookup example_comments_params '"limit" = JNum n /\ (1 <= n)%Z
   else lookup example_comments_params '"limit" = JUndefined) /\
  (if truthy (lookup example_comments_query '"after")
   then lookup example_comments_params '"after"
        = lookup example_comments_query '"after" /\
        testCursor (lookup example_comments_query '"after") = Ok true
   else lookup example_comments_params '"after" = JUndefined).
Proof.
  apply (commentsRequest_params Subreddit.lower_ascii (JStr '"abc") example_comments_query
           '"/comments/abc"
           example_comments_params '"new").
  reflexivity.
Defined.

Lemma commentsRequest_pass_through_witness :
  lookup example_comments_params '"threaded"
  = lookup example_comments_query '"threaded".
Proof.
  apply (commentsRequest_pass_through Subreddit.lower_ascii (JStr '"abc")
           example_comments_query '"/comments/abc"
           example_comments_params '"new" eq_refl '"threaded");
    discriminate.
Defined.

Lemma commentsRequest_sort_witness :
  (forall s, lookup [('"sort", JStr [])] '"sort" = JStr s ->
     includes allowedSorts (Subreddit.lower_ascii s) = false ->
     commentsRequest Subreddit.lower_ascii (JStr '"abc") [('"sort", JStr [])]
     = Ok (Refuse {| err_message :=
                       '"Invalid sort parameter. Allowed values: confidence, top, new, controversial, old, qa.";
                     err_status := JNum 400 |})) /\
  (lookup [('"sort", JStr [])] '"sort" = JUndefined ->
   forall path apiParams sort,
     commentsRequest Subreddit.lower_ascii (JStr '"abc") [('"sort", JStr [])]
     = Ok (Fetch path apiParams sort) ->
     sort = '"confidence").
Proof.
  apply (commentsRequest_sort Subreddit.lower_ascii (JStr '"abc")
           [('"sort", JStr [])]); reflexivity.
Defined.

(** ** The answer *)

Lemma normalizes_count ws out :
  normalizes ws out -> length out = length (filter is_node ws).
Proof.
  induction 1 as [|w ws replies out Ht _ _ _ IH|w ws out Ht _ IH
                  |w ws out Hm Ht _ IH]; cbn [filter length].
  - reflexivity.
  - unfold is_node. unfold tagged in Ht. rewrite Ht.
    change (is_str (JStr '"t1") '"t1") with true. cbn [orb length]. now f_equal.
  - unfold is_node. unfold tagged in Ht. rewrite Ht.
    change (is_str (JStr '"more") '"t1") with false.
    change (is_str (JStr '"more") '"more") with true. cbn [orb length]. now f_equal.
  - unfold is_node. unfold tagged in Hm, Ht.
    apply is_str_false in Hm, Ht. rewrite Hm, Ht. exact IH.
Qed.

(** X22: for a payload of two listings whose comments are raw comment
    wrappers the handler answers 200 with the normalised comments of
    the second listing; [comment_count_this_batch] is the number of its
    top-level wrappers that are comments or placeholders, replies not
    counted. *)
Theorem commentsResponse_count fuel postId sort apiParams
  postListing commentListing more :
  depth (JArr (postListing :: commentListing :: more)) < fuel ->
  Forall wrapper_ok (elements (own (own commentListing '"data") '"children")) ->
  exists body out,
    commentsResponse fuel postId sort apiParams
      (Resolves (JArr (postListing :: commentListing :: more)))
    = Ok (Respond (JNum 200) body) /\
    own body '"comments" = JArr out /\
    normalizes (elements (own (own commentListing '"data") '"children")) out /\
    own body '"comment_count_this_batch"
    = JNum (Z.of_nat (length (filter is_node
         (elements (own (own commentListing '"data") '"children"))))) /\
    own body '"after" = own (own commentListing '"data") '"after" /\
    own body '"postId" = postId /\
    own body '"sort" = JStr sort.
Proof.
  intros Hd Hok. unfold commentsResponse. cbn [isArray elements length].
  replace (2 <=? Z.of_nat (S (S (length more))))%Z with true
    by (symmetry; apply Z.leb_le; lia).
  cbn [andb].
  change (own (JArr (postListing :: commentListing :: more)) '"0")
    with postListing.
  change (own (JArr (postListing :: commentListing :: more)) '"1")
    with commentListing.
  rewrite !opt_get_own.
  destruct (formatApiComments_elements fuel
              (or_else (own (own commentListing '"data") '"children") (JArr [])))
    as (out & E & Hn).
  - pose proof (depth_or_else (own (own commentListing '"data") '"children")).
    pose proof (depth_own (own commentListing '"data") '"children").
    pose proof (depth_own commentListing '"data").
    cbn [depth fold_right] in Hd. lia.
  - now rewrite elements_repliesData.
  - rewrite elements_repliesData in Hn. rewrite E.
    eexists. exists out. split; [reflexivity|].
    split; [reflexivity|]. split; [exact Hn|].
    split; [|repeat split; reflexivity].
    change (JNum (Z.of_nat (length out))
            = JNum (Z.of_nat (length (filter is_node
                 (elements (own (own commentListing '"data") '"children")))))).
    now rewrite (normalizes_count _ _ Hn).
Qed.

Lemma commentsResponse_count_witness :
  exists body out,
    commentsResponse 12 (JStr '"abc") '"new" []
      (Resolves (JArr [JNull; example_listing]))
    = Ok (Respond (JNum 200) body) /\
    own body '"comments" = JArr out /\
    normalizes (elements (own (own example_listing '"data") '"children")) out /\
    own body '"comment_count_this_batch"
    = JNum (Z.of_nat (length (filter is_node
         (elements (own (own example_listing '"data") '"children"))))) /\
    own body '"after" = own (own example_listing '"data") '"after" /\
    own body '"postId" = JStr '"abc" /\
    own body '"sort" = JStr '"new".
Proof.
  apply (commentsResponse_count 12 (JStr '"abc") '"new" [] JNull example_listing []).
  - vm_compute. lia.
  - unfold example_listing. cbn [own lookup str_eqb elements].
    change (elements (own (own (JObj [('"data", JObj [('"children", JArr example_thread)])]) '"data") '"children"))
      with example_thread.
    unfold example_thread. wrapper_ok_tac.
Defined.

(** A payload that is no array of two listings, and comments the
    normaliser throws on, are answered through [next] with status 500
    and the handler's own message. *)
Theorem commentsResponse_failure fuel postId sort apiParams data :
  isArray data && (2 <=? Z.of_nat (length (elements data)))%Z = false \/
  (exists e,
     formatApiComments fuel
       (or_else (opt_get (opt_get (own data '"1") '"data") '"children") (JArr []))
     = Throw e) ->
  commentsResponse fuel postId sort apiParams (Resolves data)
  = Ok (commentsFailure postId).
Proof.
  intro H. unfold commentsResponse, commentsFailure.
  destruct (isArray data && (2 <=? Z.of_nat (length (elements data)))%Z) eqn:E.
  - destruct H as [H|(e & H)]; [discriminate|]. rewrite H.
    now apply handleAxiosError_plain.
  - now apply handleAxiosError_plain.
Qed.

Lemma commentsResponse_failure_witness :
  commentsResponse 12 (JStr '"abc") '"new" []
    (Resolves (JObj [('"error", JNum 404)]))
  = Ok (commentsFailure (JStr '"abc")).
Proof. apply commentsResponse_failure. left. reflexivity. Defined.

End PostFacts.

Module PostFieldsFacts.
Import Posts PostExample JsFacts.

Lemma postType_range post t :
  postType post = Ok t ->
  is_nullish post = false /\
  In t ['"video"; '"gallery"; '"text"; '"image"; '"link"].
Proof.
  unfold postType. destruct (is_nullish post) eqn:En.
  { unfold get. rewrite En. discriminate. }
  rewrite !(get_ok _ _ En). cbn [bind]. split; [reflexivity|].
  repeat match goal with
  | H : (if ?b then _ else _) = _ |- _ => destruct b
  end; injection H as <-; cbn; auto 6.
Qed.

Lemma selftextHead_length raw v s :
  selftextHead raw = Ok v -> v = JStr s -> length s <= 2000.
Proof.
  intros H ->. destruct raw as [| | | |s0| |]; try discriminate H.
  assert (E : selftextHead (JStr s0) = Ok (JStr (firstn 2000 s0)))
    by reflexivity.
  rewrite E in H. assert (s = firstn 2000 s0) by congruence.
  subst s. apply firstn_le_length.
Qed.

(** X23: what a formatted post holds, whatever the upstream sent: one of
    the five post types, and no media URL when the type is 'text'; a
    permalink on www.reddit.com; an author that is never empty; a
    selftext of at most 2000 code units, and none (null) for a post
    that is no self post; a thumbnail that is null or a value of the
    upstream that is none of the placeholder words; a flair that is
    null when the upstream has none. *)
Theorem formatPost_fields postWrapper out :
  formatPost postWrapper = Ok out ->
  (exists t, own out '"post_type" = JStr t /\
             In t ['"video"; '"gallery"; '"text"; '"image"; '"link"] /\
             (t = '"text" -> own out '"media_url" = JNull)) /\
  (exists p, own out '"permalink" = JStr ('"https://www.reddit.com" ++ p)) /\
  truthy (own out '"author") = true /\
  (forall s, own out '"selftext" = JStr s -> length s <= 2000) /\
  (flag (own postWrapper '"data") '"is_self" = false ->
     own out '"selftext" = JNull) /\
  (own out '"thumbnail" = JNull \/
   (own out '"thumbnail" = own (own postWrapper '"data") '"thumbnail" /\
    truthy (own out '"thumbnail") = true /\
    forall word, In word noThumbnail -> own out '"thumbnail" <> JStr word)) /\
  (own out '"flair" = JNull \/ truthy (own out '"flair") = true).
Proof.
  unfold formatPost. destruct (is_nullish postWrapper) eqn:Ew.
  { unfold get. rewrite Ew. discriminate. }
  rewrite (get_ok _ _ Ew). cbn [bind].
  set (post := own postWrapper '"data").
  destruct (postType post) as [t|] eqn:Et; cbn [bind]; [|discriminate].
  destruct (postType_range _ _ Et) as [En Ht].
  destruct (mediaUrl post t) as [mu|] eqn:Em; cbn [bind]; [|discriminate].
  destruct (galleryUrls post) as [g|] eqn:Eg; cbn [bind]; [|discriminate].
  rewrite !(get_ok _ _ En). cbn [bind].
  destruct (ToString (own post '"permalink")) as [link|] eqn:El; cbn [bind];
    [|discriminate].
  destruct (if truthy (own post '"is_self")
            then selftextHead (own post '"selftext")
            else Ok JNull) as [st|] eqn:Es; cbn [bind]; [|discriminate].
  intros [= <-].
  split.
  { exists t. split; [reflexivity|]. split; [exact Ht|].
    intros ->. reflexivity. }
  split; [eexists; reflexivity|].
  split.
  { change (truthy (or_else (own post '"author") (JStr '"[deleted]")) = true).
    unfold or_else. destruct (truthy (own post '"author")) eqn:Ea; [exact Ea|reflexivity]. }
  split.
  { intros s. change (st = JStr s -> length s <= 2000). intro Hs.
    destruct (truthy (own post '"is_self")).
    - exact (selftextHead_length _ _ _ Es Hs).
    - injection Es as <-. discriminate. }
  split.
  { unfold flag. fold post. intro Hf. rewrite Hf in Es. injection Es as <-.
    reflexivity. }
  split.
  { change (own (JObj _) '"thumbnail")
      with (if truthy (own post '"thumbnail")
               && negb (existsb (is_str (own post '"thumbnail")) noThumbnail)
            then own post '"thumbnail" else JNull).
    destruct (truthy (own post '"thumbnail")) eqn:Tt; cbn [andb]; [|now left].
    destruct (existsb (is_str (own post '"thumbnail")) noThumbnail) eqn:Ex;
      cbn [negb]; [now left|].
    right. split; [reflexivity|]. split; [exact Tt|].
    intros word Hw Heq.
    assert (X : existsb (is_str (own post '"thumbnail")) noThumbnail = true).
    { apply existsb_exists. exists word. split; [exact Hw|]. now apply is_str_eq. }
    congruence. }
  change (own (JObj _) '"flair")
    with (or_else (own post '"link_flair_text") JNull).
  unfold or_else. destruct (truthy (own post '"link_flair_text")) eqn:Tf; auto.
Qed.

Lemma formatPost_fields_witness :
  (exists t, own example_post '"post_type" = JStr t /\
             In t ['"video"; '"gallery"; '"text"; '"image"; '"link"] /\
             (t = '"text" -> own example_post '"media_url" = JNull)) /\
  (exists p, own example_post '"permalink"
             = JStr ('"https://www.reddit.com" ++ p)) /\
  truthy (own example_post '"author") = true /\
  (forall s, own example_post '"selftext" = JStr s -> length s <= 2000) /\
  (flag (own example_wrapper '"data") '"is_self" = false ->
     own example_post '"selftext" = JNull) /\
  (own example_post '"thumbnail" = JNull \/
   (own example_post '"thumbnail"
    = own (own example_wrapper '"data") '"thumbnail" /\
    truthy (own example_post '"thumbnail") = true /\
    forall word, In word noThumbnail ->
                 own example_post '"thumbnail" <> JStr word)) /\
  (own example_post '"flair" = JNull \/
   truthy (own example_post '"flair") = true).
Proof.
  apply (formatPost_fields example_wrapper example_post). reflexivity.
Defined.

End PostFieldsFacts.

Module InterceptorFacts.
Import TokenManager Interceptor JsFacts TokenFacts.










(** ** The tokens that go out *)











(** The requests that arrive while the first exchange is in flight fail
    when their timers fire before the token has come, though the
    exchange succeeds; a single POST was sent. *)
Example cold_start_fails :
  exists w,
    run start cold_start = Some w /\
    requests w = [Failed noToken; Failed noToken] /\
    posts (token w) = 1 /\
    accessToken (st (token w)) = JStr '"T".
Proof. eexists. split; [reflexivity|]. repeat split. Qed.

End InterceptorFacts.

Module LifetimeFacts.
Import TokenManager Interceptor JsFacts.
Local Open Scope Z_scope.




End LifetimeFacts.

Module AnswerFacts.
Import Posts Comments Numbers Http Subreddit Post.
Import JsFacts HttpFacts ErrorFacts SubredditFacts ResponseFacts PostFacts.








Section Lowercase.

Variable toLowerCase : jsstring -> jsstring.



End Lowercase.





(** What the hypothesis on the upstream's error keeps out: a message
    that is an object with a [toString] entry makes [new Error] throw
    inside the [catch] block, and the handler answers nothing. *)
Example getSubredditPosts_unanswered :
  getSubredditPosts lower_ascii (JStr '"rust") []
    (fun _ _ =>
       Rejects (JObj [('"response",
                        JObj [('"status", JNum 500);
                              ('"data",
                                JObj [('"message",
                                        JObj [('"toString", JNum 1)])])])]))
  = Throw TypeError.
Proof. reflexivity. Qed.

End AnswerFacts.
